(** * URL replacement engine of image-tool (src/url_replacer.py)

    A shallow embedding of [URLReplacer]: the three format strategies
    (text, Markdown, HTML), the per-file orchestrator with its backup and
    restore operations, the directory walker, the report, the validation
    of a mapping and the removal of the backups, with the entry point of
    src/main.py that calls the engine.

    Conventions.
    - A Python [str] is a list of Unicode code points ([N]); [py "..."]
      turns an ASCII literal into such a list.
    - A [Dict[str, str]] is an association list in insertion order (the
      order [dict.items()] iterates in).
    - The file system is a finite map from path strings to nodes.  A file
      is identified with the path string the program uses for it: the model
      has no symbolic links and assumes paths free of redundant separators
      and dot components, so [os.path.abspath] is the identity on keys and
      the working directory is the empty key.
    - Exceptions are values; a fallible step returns [exn + A]. *)

From stdpp Require Import gmap list strings.
From Stdlib Require Import Strings.Byte.

Local Open Scope N_scope.
Local Open Scope nat_scope.
Local Open Scope list_scope.

(** ** Python strings *)

Abbreviation char := N (only parsing).
Abbreviation str := (list N) (only parsing).
Abbreviation bytes := (list byte) (only parsing).

Definition py (s : string) : list N :=
  Ascii.N_of_ascii <$> String.list_ascii_of_string s.

Module PyStr.

(** [s.startswith(p)] *)
Fixpoint startswith (p s : str) : bool :=
  match p, s with
  | [], _ => true
  | _ :: _, [] => false
  | a :: p', b :: s' => if decide (a = b) then startswith p' s' else false
  end.

(** [sub in s] *)
Fixpoint contains (sub s : str) : bool :=
  startswith sub s ||
  match s with
  | [] => false
  | _ :: s' => contains sub s'
  end.

(** [s.count(sub)]: the number of non-overlapping occurrences, scanning
    from the left.  [skip] is the number of characters of [s] that still
    belong to the occurrence found last.  The empty string occurs once
    before every character and once at the end. *)
Fixpoint count_from (sub s : str) (skip : nat) {struct s} : nat :=
  match skip with
  | S k => match s with
           | [] => 0
           | _ :: s' => count_from sub s' k
           end
  | O => if startswith sub s then
           S (match s with
              | [] => 0
              | _ :: s' => count_from sub s' (length sub - 1)
              end)
         else match s with
              | [] => 0
              | _ :: s' => count_from sub s' 0
              end
  end.

Definition count (s sub : str) : nat := count_from sub s 0.

(** [s.replace(old, new)]: every non-overlapping occurrence of [old],
    found from the left, becomes [new].  With an empty [old], [new] is
    inserted before every character and at the end. *)
Fixpoint replace_from (old new s : str) (skip : nat) {struct s} : str :=
  match skip with
  | S k => match s with
           | [] => []
           | _ :: s' => replace_from old new s' k
           end
  | O => if startswith old s then
           new ++ match s with
                  | [] => []
                  | c :: s' =>
                      match old with
                      | [] => c :: replace_from old new s' 0
                      | _ :: _ => replace_from old new s' (length old - 1)
                      end
                  end
         else match s with
              | [] => []
              | c :: s' => c :: replace_from old new s' 0
              end
  end.

Definition replace (s old new : str) : str := replace_from old new s 0.

(** [sep.join(parts)] *)
Fixpoint join (sep : str) (parts : list str) : str :=
  match parts with
  | [] => []
  | [p] => p
  | p :: ps => p ++ sep ++ join sep ps
  end.

End PyStr.

(** ** The text strategy *)

(** [URLReplacer._replace_urls_in_text]: the loop body, one mapping entry
    applied to the pair (new_content, replacements); [content] is the
    original content, which the count is taken from. *)
Definition text_step (content : str) (acc : str * nat) (entry : str * str)
  : str * nat :=
  let '(new_content, replacements) := acc in
  let '(old_url, new_url) := entry in
  if PyStr.contains old_url new_content then
    (PyStr.replace new_content old_url new_url,
     replacements + PyStr.count content old_url)
  else (new_content, replacements).

Definition _replace_urls_in_text (content : str) (url_mapping : list (str * str))
  : str * nat :=
  fold_left (text_step content) url_mapping (content, 0).

(** The sum of [content.count(k)] over the keys of the mapping. *)
Definition total_occurrences (content : str) (url_mapping : list (str * str)) : nat :=
  sum_list ((fun e => PyStr.count content e.1) <$> url_mapping).


(** ** Exceptions *)

(** The exceptions the engine raises or receives from the libraries it
    calls; all of them are subclasses of [Exception].  For an exception
    raised by the source itself the payload is the message. *)
Inductive exn :=
| FileNotFoundError (msg : str)
| ValueError (msg : str)
| IsADirectoryError (path : str)
| NotADirectoryError (path : str)
| FileExistsError (path : str)
| SameFileError (path : str)
| UnicodeDecodeError
| UnicodeEncodeError
| ReError (template : str)
| LibraryError (tag : nat).

(** ** Paths *)

Definition slash : N := 47%N.
Definition dot : N := 46%N.

Module PyPath.

(** Split at the last occurrence of [c]: [(s[:i], s[i+1:])] for
    [i = s.rfind(c)], nothing when [c] does not occur. *)
Fixpoint rsplit (c : N) (s : str) : option (str * str) :=
  match s with
  | [] => None
  | a :: s' =>
      match rsplit c s' with
      | Some (h, t) => Some (a :: h, t)
      | None => if decide (a = c) then Some ([], s') else None
      end
  end.

(** [s.rstrip(c)] *)
Fixpoint rstrip (c : N) (s : str) : str :=
  match s with
  | [] => []
  | a :: s' =>
      match rstrip c s' with
      | [] => if decide (a = c) then [] else [a]
      | r => a :: r
      end
  end.

Definition all_slash (s : str) : bool := forallb (fun a => bool_decide (a = slash)) s.

(** [os.path.dirname] (posixpath) *)
Definition dirname (p : str) : str :=
  match rsplit slash p with
  | None => []
  | Some (h, _) =>
      let head := h ++ [slash] in
      if all_slash head then head else rstrip slash head
  end.

(** [os.path.basename] *)
Definition basename (p : str) : str :=
  match rsplit slash p with
  | None => p
  | Some (_, t) => t
  end.

Definition ends_with_slash (p : str) : bool :=
  match last p with
  | Some c => bool_decide (c = slash)
  | None => false
  end.

(** [os.path.join(a, b)] *)
Definition join (a b : str) : str :=
  if PyStr.startswith [slash] b then b
  else if bool_decide (a = []) || ends_with_slash a then a ++ b
  else a ++ slash :: b.

(** [Path(p).suffix]: the last dot of the final component starts the
    suffix, unless it is the first or the last character of the name. *)
Definition suffix (p : str) : str :=
  let name := basename p in
  match rsplit dot name with
  | None => []
  | Some (stem, ext) =>
      if bool_decide (stem = []) || bool_decide (ext = []) then []
      else dot :: ext
  end.

(** [os.path.relpath(p, start)] for a path [p] below the directory
    [start], the only use the walker makes of it. *)
Definition relpath (p start : str) : str :=
  let pre := join start [] in
  if PyStr.startswith pre p then drop (length pre) p else p.

End PyPath.

(** ** The file system *)

(** A file system is a finite map from paths to what they name.  A key is
    a path as the program writes it: the map does not know that a.txt and
    ./a.txt, or two paths that differ in a doubled slash or a link, name
    one file.  It is the file system as the program sees it through paths
    that are written in one way only, which is what the walker builds
    from a directory and the names of its listings. *)
Inductive node :=
| File (data : list byte)
| Dir.

(** The order in which a directory is enumerated is not specified: it
    depends on the file system.  [scandir_order m d names] is the order in
    which [os.listdir] and [os.scandir] give the names of the entries of
    directory [d], some arrangement of them. *)
Class Scandir := {
  scandir_order : gmap (list N) node → list N → list (list N) → list (list N);
  scandir_order_perm : ∀ m d names, scandir_order m d names ≡ₚ names;
}.

Module OS.

(** What a path names.  The empty path names nothing; a path made of
    slashes is the root directory. *)
Definition stat (m : gmap (list N) node) (p : str) : option node :=
  if bool_decide (p = []) then None
  else if PyPath.all_slash p then Some Dir
  else m !! p.

(** [os.path.exists], [os.path.isdir], [os.path.isfile] *)
Definition path_exists (m : gmap (list N) node) (p : str) : bool :=
  bool_decide (is_Some (stat m p)).

Definition isdir (m : gmap (list N) node) (p : str) : bool :=
  match stat m p with
  | Some Dir => true
  | _ => false
  end.

Definition isfile (m : gmap (list N) node) (p : str) : bool :=
  match stat m p with
  | Some (File _) => true
  | _ => false
  end.

(** The directory an entry would be created in exists.  A path without a
    directory part lives in the working directory. *)
Definition parent_ok (m : gmap (list N) node) (p : str) : bool :=
  let d := PyPath.dirname p in
  bool_decide (d = []) || isdir m d.

(** [open(p, 'rb').read()] *)
Definition read_bytes (m : gmap (list N) node) (p : str) : exn + list byte :=
  match stat m p with
  | Some (File data) => inr data
  | Some Dir => inl (IsADirectoryError p)
  | None => inl (FileNotFoundError p)
  end.

(** [open(p, 'w')] or [open(p, 'wb')]: an existing file is truncated, a
    missing one is created empty in an existing directory. *)
Definition open_w (m : gmap (list N) node) (p : str) : exn + gmap (list N) node :=
  match stat m p with
  | Some Dir => inl (IsADirectoryError p)
  | Some (File _) => inr (<[p := File []]> m)
  | None =>
      if bool_decide (p ≠ []) && parent_ok m p then inr (<[p := File []]> m)
      else inl (FileNotFoundError p)
  end.

(** Writing to a file opened by [open_w] and closing it. *)
Definition store (m : gmap (list N) node) (p : str) (data : list byte)
  : gmap (list N) node :=
  <[p := File data]> m.

(** The ancestors of [d] that [os.makedirs] may have to create, outermost
    first, [d] itself last. *)
Fixpoint prefixes (acc d : str) : list str :=
  match d with
  | [] => [acc]
  | c :: d' =>
      (if bool_decide (c = slash) && negb (PyPath.all_slash acc) &&
          negb (bool_decide (acc = []))
       then [acc] else [])
      ++ prefixes (acc ++ [c]) d'
  end.

(** [os.makedirs(d, exist_ok=True)]: every missing directory on the way
    to [d] is created; a regular file on the way is an error, and then
    nothing has been created.  The error names the directory that could
    not be created: the one just below the regular file, or [d] itself
    when [d] is the regular file. *)
Definition makedirs (m : gmap (list N) node) (d : str)
  : exn + gmap (list N) node :=
  if bool_decide (d = []) || PyPath.all_slash d then inr m
  else
    let ps := prefixes [] d in
    match list_find (fun q => isfile m q = true) ps with
    | Some (i, q) =>
        inl (match ps !! S i with
             | Some below => NotADirectoryError below
             | None => FileExistsError q
             end)
    | None =>
        inr (foldl (fun m' q => if isdir m' q then m' else <[q := Dir]> m') m ps)
    end.

(** [shutil.copy2(src, dst)]: a directory [dst] receives the copy under
    the base name of [src]. *)
Definition copy2_target (m : gmap (list N) node) (src dst : str) : str :=
  if isdir m dst then PyPath.join dst (PyPath.basename src) else dst.

Definition copy2 (m : gmap (list N) node) (src dst : str)
  : exn + gmap (list N) node :=
  let target := copy2_target m src dst in
  if bool_decide (target = src) && path_exists m src then inl (SameFileError src)
  else
    match read_bytes m src with
    | inl e => inl e
    | inr data =>
        match open_w m target with
        | inl e => inl e
        | inr m' => inr (store m' target data)
        end
    end.

(** The name under which the entry [k] is directly below directory
    [d], if it is. *)
Definition child_name (d k : str) : option str :=
  let pre := PyPath.join d [] in
  if PyStr.startswith pre k then
    let n := drop (length pre) k in
    if bool_decide (n ≠ []) && negb (bool_decide (slash ∈ n)) then Some n else None
  else None.

(** The names of the entries directly below directory [d]. *)
Definition children (m : gmap (list N) node) (d : str) : list str :=
  omap (fun kv => child_name d kv.1) (map_to_list m).

(** [os.listdir(d)], and the entries [os.scandir(d)] yields: the names of
    the entries of [d] in the order of the file system. *)
Definition listdir `{Scandir} (m : gmap (list N) node) (d : str) : list str :=
  scandir_order m d (children m d).

End OS.

(** ** Dictionaries *)

Module Dict.

(** [d.get(k)]; [k in d] is [is_Some (get k d)] and [d[k]] its value. *)
Fixpoint get (k : str) (d : list (str * str)) : option str :=
  match d with
  | [] => None
  | (k', v) :: d' => if decide (k' = k) then Some v else get k d'
  end.

(** [d[k] = v]: an existing key keeps its position. *)
Fixpoint set (k v : str) (d : list (str * str)) : list (str * str) :=
  match d with
  | [] => [(k, v)]
  | (k', v') :: d' => if decide (k' = k) then (k, v) :: d' else (k', v') :: set k v d'
  end.

End Dict.

(** ** Text files: codecs and newlines *)

(** The decoders of Python's codec registry that the engine asks for by
    name.  Their tables are not part of the repository; a decoder fails
    with [UnicodeDecodeError] where it returns [None]. *)
Class Codecs := {
  utf8_decode : list byte → option (list N);
  gbk_decode : list byte → option (list N);
  gb2312_decode : list byte → option (list N);
}.

Inductive encoding := UTF8 | GBK | GB2312 | LATIN1.

Module Codec.

(** latin1 maps every byte to the code point of the same number. *)
Definition latin1_decode (b : list byte) : list N := Byte.to_N <$> b.

Definition decode `{Codecs} (e : encoding) (b : list byte) : option (list N) :=
  match e with
  | UTF8 => utf8_decode b
  | GBK => gbk_decode b
  | GB2312 => gb2312_decode b
  | LATIN1 => Some (latin1_decode b)
  end.

Definition byte_of (n : N) : byte := default x00 (Byte.of_N n).

(** UTF-8 encoding of one code point; surrogates cannot be encoded. *)
Definition utf8_encode_char (c : N) : option (list byte) :=
  if (c <? 0x80)%N then Some [byte_of c]
  else if (c <? 0x800)%N then
    Some [byte_of (0xC0 + c / 0x40); byte_of (0x80 + c mod 0x40)]%N
  else if ((0xD800 <=? c) && (c <=? 0xDFFF))%N then None
  else if (c <? 0x10000)%N then
    Some [byte_of (0xE0 + c / 0x1000); byte_of (0x80 + (c / 0x40) mod 0x40);
          byte_of (0x80 + c mod 0x40)]%N
  else if (c <? 0x110000)%N then
    Some [byte_of (0xF0 + c / 0x40000); byte_of (0x80 + (c / 0x1000) mod 0x40);
          byte_of (0x80 + (c / 0x40) mod 0x40); byte_of (0x80 + c mod 0x40)]%N
  else None.

Fixpoint utf8_encode (s : str) : option (list byte) :=
  match s with
  | [] => Some []
  | c :: s' =>
      match utf8_encode_char c, utf8_encode s' with
      | Some b, Some bs => Some (b ++ bs)
      | _, _ => None
      end
  end.

(** Reading in text mode turns ["\r\n"] and ["\r"] into ["\n"]. *)
Fixpoint universal_newlines (s : str) : str :=
  match s with
  | [] => []
  | c :: s' =>
      if bool_decide (c = 13%N) then
        10%N :: match s' with
                | [] => []
                | c' :: s'' =>
                    if bool_decide (c' = 10%N) then universal_newlines s''
                    else universal_newlines s'
                end
      else c :: universal_newlines s'
  end.

End Codec.

(** [with open(p, 'r', encoding=e) as f: f.read()] *)
Definition read_text `{Codecs} (m : gmap (list N) node) (p : str) (e : encoding)
  : exn + list N :=
  match OS.read_bytes m p with
  | inl ex => inl ex
  | inr b =>
      match Codec.decode e b with
      | Some s => inr (Codec.universal_newlines s)
      | None => inl UnicodeDecodeError
      end
  end.

(** [with open(p, 'w', encoding='utf-8') as f: f.write(s)].  The file is
    opened, hence truncated, before [s] is encoded. *)
Definition write_text (m : gmap (list N) node) (p : str) (s : str)
  : option exn * gmap (list N) node :=
  match OS.open_w m p with
  | inl ex => (Some ex, m)
  | inr m' =>
      match Codec.utf8_encode s with
      | Some b => (None, OS.store m' p b)
      | None => (Some UnicodeEncodeError, m')
      end
  end.

(** ** The HTML strategy *)

(** The classes of string nodes of a BeautifulSoup tree. *)
Inductive strclass :=
| NavigableString | Comment | CData | Stylesheet | Script | OtherString.

(** A BeautifulSoup tree: string nodes and tags with an attribute
    dictionary and contents. *)
#[warnings="-register-all"] Inductive html :=
| Str (cls : strclass) (s : list N)
| Tag (name : list N) (attrs : list (list N * list N)) (contents : list html).

(** [BeautifulSoup(content, 'html.parser')], giving the contents of the
    document object, and [str(soup)].  The library is not part of the
    repository. *)
Class Bs4 := {
  bs4_parse : list N → exn + list html;
  bs4_str : list html → exn + list N;
}.

Module Html.

(** Apply [f] to every tag, children first; [f] receives the tag's name,
    attributes, contents as they were and contents as rewritten, and
    returns the rewritten tag and a count. *)
Fixpoint visit (f : str → list (str * str) → list html → list html → html * nat)
  (h : html) : html * nat :=
  match h with
  | Str _ _ => (h, 0)
  | Tag name attrs cs =>
      let r := (fix go (l : list html) : list html * nat :=
                  match l with
                  | [] => ([], 0)
                  | x :: l' =>
                      let '(x', a) := visit f x in
                      let '(l'', b) := go l' in
                      (x' :: l'', a + b)
                  end) cs in
      let '(h', n) := f name attrs cs r.1 in
      (h', n + r.2)
  end.

Fixpoint visit_all (f : str → list (str * str) → list html → list html → html * nat)
  (l : list html) : list html * nat :=
  match l with
  | [] => ([], 0)
  | x :: l' =>
      let '(x', a) := visit f x in
      let '(l'', b) := visit_all f l' in
      (x' :: l'', a + b)
  end.

(** One attribute of an image: replaced when its value is a non-empty
    key of the mapping. *)
Definition replace_attr (url_mapping : list (str * str)) (name : str)
  (st : list (str * str) * nat) : list (str * str) * nat :=
  let '(attrs, replacements) := st in
  match Dict.get name attrs with
  | Some v =>
      if bool_decide (v ≠ []) then
        match Dict.get v url_mapping with
        | Some new_url => (Dict.set name new_url attrs, replacements + 1)
        | None => st
        end
      else st
  | None => st
  end.

(** The body of the loop over [soup.find_all('img')]. *)
Definition img_attrs (url_mapping : list (str * str)) (attrs : list (str * str))
  : list (str * str) * nat :=
  replace_attr url_mapping (py "data-src")
    (replace_attr url_mapping (py "src") (attrs, 0)).

Definition img_tag (url_mapping : list (str * str))
  (name : str) (attrs : list (str * str)) (_ cs' : list html) : html * nat :=
  if bool_decide (name = py "img") then
    let '(attrs', n) := img_attrs url_mapping attrs in (Tag name attrs' cs', n)
  else (Tag name attrs cs', 0).

(** The inner loop over the mapping for style sheets and style
    attributes: one count per pair found, whatever the number of
    occurrences. *)
Definition css_step (acc : str * nat) (entry : str * str) : str * nat :=
  let '(new_css, replacements) := acc in
  let '(old_url, new_url) := entry in
  if PyStr.contains old_url new_css then
    (PyStr.replace new_css old_url new_url, replacements + 1)
  else acc.

Definition css_replace (url_mapping : list (str * str)) (css : str) : str * nat :=
  fold_left css_step url_mapping (css, 0).

(** [tag.string]: the only child when it is a string, the [string] of
    the only child when it is a tag. *)
Fixpoint node_string (h : html) : option (strclass * str) :=
  match h with
  | Str c s => Some (c, s)
  | Tag _ _ cs =>
      match cs with
      | [x] => node_string x
      | _ => None
      end
  end.

Definition tag_string (cs : list html) : option (strclass * str) :=
  match cs with
  | [x] => node_string x
  | _ => None
  end.

End Html.

(** The loop over [soup.find_all(['style', 'link'])]: only [style] tags
    with a non-empty [string] are touched.  Assigning [tag.string] replaces
    the contents by one string node, of the class of the old one when no
    pair was found and a plain one otherwise.  Tags that this detaches
    were collected before and are processed all the same, so their counts
    are kept. *)
Definition style_tag (url_mapping : list (list N * list N))
  (name : list N) (attrs : list (list N * list N)) (cs cs' : list html) : html * nat :=
  if bool_decide (name = py "style") then
    match Html.tag_string cs with
    | Some (c, s) =>
        if bool_decide (s ≠ []) then
          let '(new_css, n) := Html.css_replace url_mapping s in
          (Tag name attrs [Str (match n with O => c | S _ => NavigableString end) new_css], n)
        else (Tag name attrs cs', 0)
    | None => (Tag name attrs cs', 0)
    end
  else (Tag name attrs cs', 0).

(** The loop over [soup.find_all(attrs={'style': True})]. *)
Definition style_attr (url_mapping : list (list N * list N))
  (name : list N) (attrs : list (list N * list N)) (_ cs' : list html) : html * nat :=
  match Dict.get (py "style") attrs with
  | Some style =>
      let '(new_style, n) := Html.css_replace url_mapping style in
      (Tag name
         (if bool_decide (new_style ≠ style)
          then Dict.set (py "style") new_style attrs else attrs) cs', n)
  | None => (Tag name attrs cs', 0)
  end.

(** The three loops of [_replace_urls_in_html] on the parsed tree. *)
Definition html_rewrite (url_mapping : list (list N * list N)) (soup : list html)
  : list html * nat :=
  let '(s1, n1) := Html.visit_all (Html.img_tag url_mapping) soup in
  let '(s2, n2) := Html.visit_all (style_tag url_mapping) s1 in
  let '(s3, n3) := Html.visit_all (style_attr url_mapping) s2 in
  (s3, n1 + n2 + n3).

(** [URLReplacer._replace_urls_in_html]: any exception of the parser or
    the serialiser falls back to the text strategy on the raw content. *)
Definition _replace_urls_in_html `{Bs4} (content : list N)
  (url_mapping : list (list N * list N)) : list N * nat :=
  match bs4_parse content with
  | inl _ => _replace_urls_in_text content url_mapping
  | inr soup =>
      let '(soup', replacements) := html_rewrite url_mapping soup in
      match bs4_str soup' with
      | inl _ => _replace_urls_in_text content url_mapping
      | inr new_content => (new_content, replacements)
      end
  end.

(** ** The Markdown strategy *)

(** Case mappings of the Unicode database: [str.lower()], and the folding
    under which [re.IGNORECASE] compares two characters. *)
Class Unicode := {
  str_lower : list N → list N;
  casefold : N → N;
}.

(** [re.sub] expands a replacement template [r'\1' + new_url + r'\2']
    whose [new_url] holds a backslash or starts with a digit by the escape
    rules of the [re] module, which may reject it. *)
Class ReTemplate := {
  re_template : list N → exn + (list N → list N → list N);
}.

Module Re.

(** The fragment of regular expressions the two patterns are made of. *)
Inductive regex :=
| Lit (s : list N)
| Star (greedy : bool) (cls : N → bool)
| Plus (cls : N → bool)
| Opt (cls : N → bool)
| Seq (r1 r2 : regex).

Section Matching.
Context `{Unicode} (ignorecase : bool) {A : Type}.

Definition char_eq (a b : N) : bool :=
  if ignorecase then bool_decide (casefold a = casefold b)
  else bool_decide (a = b).

Fixpoint lit (p s : str) (k : str → option A) : option A :=
  match p, s with
  | [], _ => k s
  | _ :: _, [] => None
  | a :: p', b :: s' => if char_eq a b then lit p' s' k else None
  end.

(** Backtracking over a repeated character class: the greedy form tries
    the longest run first, the lazy form the shortest. *)
Fixpoint star (greedy : bool) (cls : N → bool) (s : str) (k : str → option A)
  {struct s} : option A :=
  let more := match s with
              | [] => None
              | c :: s' => if cls c then star greedy cls s' k else None
              end in
  if greedy then match more with Some r => Some r | None => k s end
  else match k s with Some r => Some r | None => more end.

(** [matches r s k]: the first way, in the order a backtracking matcher
    tries them, to match [r] at the start of [s] so that [k] accepts the
    rest. *)
Fixpoint matches (r : regex) (s : str) (k : str → option A) : option A :=
  match r with
  | Lit p => lit p s k
  | Star g c => star g c s k
  | Plus c =>
      match s with
      | [] => None
      | a :: s' => if c a then star true c s' k else None
      end
  | Opt c =>
      match (match s with
             | [] => None
             | a :: s' => if c a then k s' else None
             end) with
      | Some r => Some r
      | None => k s
      end
  | Seq r1 r2 => matches r1 s (fun s' => matches r2 s' k)
  end.

End Matching.

(** A match of [(g1) old (g2)] at the start of [s]: the two groups and
    the length of the match. *)
Definition match_at `{Unicode} (ignorecase : bool) (g1 : regex) (old : str)
  (g2 : regex) (s : str) : option (str * str * nat) :=
  matches ignorecase g1 s (fun s1 =>
    matches ignorecase (Lit old) s1 (fun s2 =>
      matches ignorecase g2 s2 (fun s3 =>
        Some (take (length s - length s1) s,
              take (length s2 - length s3) s2,
              length s - length s3)))).

(** [re.findall]: the group tuples of the non-overlapping matches, found
    from the left.  [skip] counts the characters left of the last match.
    The patterns used here never match the empty string. *)
Fixpoint findall_from `{Unicode} (ignorecase : bool) (g1 : regex) (old : str)
  (g2 : regex) (s : str) (skip : nat) {struct s} : list (str * str) :=
  match skip with
  | S k =>
      match s with
      | [] => []
      | _ :: s' => findall_from ignorecase g1 old g2 s' k
      end
  | O =>
      match match_at ignorecase g1 old g2 s with
      | Some (a, b, len) =>
          (a, b) :: match s with
                    | [] => []
                    | _ :: s' => findall_from ignorecase g1 old g2 s' (len - 1)
                    end
      | None =>
          match s with
          | [] => []
          | _ :: s' => findall_from ignorecase g1 old g2 s' 0
          end
      end
  end.

Definition findall `{Unicode} (ignorecase : bool) (g1 : regex) (old : str)
  (g2 : regex) (s : str) : list (str * str) :=
  findall_from ignorecase g1 old g2 s 0.

(** [re.sub] with the expansion [repl] of the template. *)
Fixpoint sub_from `{Unicode} (ignorecase : bool) (g1 : regex) (old : str)
  (g2 : regex) (repl : str → str → str) (s : str) (skip : nat) {struct s} : str :=
  match skip with
  | S k =>
      match s with
      | [] => []
      | _ :: s' => sub_from ignorecase g1 old g2 repl s' k
      end
  | O =>
      match match_at ignorecase g1 old g2 s with
      | Some (a, b, len) =>
          repl a b ++ match s with
                      | [] => []
                      | c :: s' =>
                          match len with
                          | O => c :: sub_from ignorecase g1 old g2 repl s' 0
                          | S l => sub_from ignorecase g1 old g2 repl s' l
                          end
                      end
      | None =>
          match s with
          | [] => []
          | c :: s' => c :: sub_from ignorecase g1 old g2 repl s' 0
          end
      end
  end.

Definition sub `{Unicode} (ignorecase : bool) (g1 : regex) (old : str)
  (g2 : regex) (repl : str → str → str) (s : str) : str :=
  sub_from ignorecase g1 old g2 repl s 0.

Definition is_digit (c : N) : bool := ((48 <=? c) && (c <=? 57))%N.

(** A template [r'\1' + new_url + r'\2'] without escapes: [new_url] has no
    backslash and does not continue the group number. *)
Definition plain_template (new_url : str) : bool :=
  negb (bool_decide (92%N ∈ new_url)) &&
  match new_url with
  | [] => true
  | c :: _ => negb (is_digit c)
  end.

Definition template `{ReTemplate} (new_url : str) : exn + (str → str → str) :=
  if plain_template new_url then inr (fun a b => a ++ new_url ++ b)
  else re_template new_url.

End Re.

Definition not_newline (c : N) : bool := negb (bool_decide (c = 10%N)).
Definition not_gt (c : N) : bool := negb (bool_decide (c = 62%N)).
Definition quote (c : N) : bool := bool_decide (c = 34%N) || bool_decide (c = 39%N).

(** [(!\[.*?\]\()] and [(\))] *)
Definition md_open : Re.regex :=
  Re.Seq (Re.Lit (py "![")) (Re.Seq (Re.Star false not_newline) (Re.Lit (py "]("))).
Definition md_close : Re.regex := Re.Lit (py ")").

(** [(<img[^>]+src=["\']?)] and [(["\']?[^>]*>)] *)
Definition img_open : Re.regex :=
  Re.Seq (Re.Lit (py "<img"))
    (Re.Seq (Re.Plus not_gt) (Re.Seq (Re.Lit (py "src=")) (Re.Opt quote))).
Definition img_close : Re.regex :=
  Re.Seq (Re.Opt quote) (Re.Seq (Re.Star true not_gt) (Re.Lit (py ">"))).

(** One [re.findall] / [re.sub] pair of the Markdown loop. *)
Definition pattern_pass `{Unicode} `{ReTemplate} (ignorecase : bool)
  (g1 g2 : Re.regex) (old_url new_url : list N) (acc : list N * nat)
  : exn + (list N * nat) :=
  let '(new_content, replacements) := acc in
  let found := Re.findall ignorecase g1 old_url g2 new_content in
  match found with
  | [] => inr acc
  | _ :: _ =>
      match Re.template new_url with
      | inl e => inl e
      | inr repl =>
          inr (Re.sub ignorecase g1 old_url g2 repl new_content,
               replacements + length found)
      end
  end.

(** The plain substitution that ends the body of the Markdown loop; the
    count is taken from the working content. *)
Definition bare_pass (old_url new_url : list N) (acc : list N * nat) : list N * nat :=
  let '(new_content, replacements) := acc in
  if PyStr.contains old_url new_content then
    (PyStr.replace new_content old_url new_url,
     replacements + PyStr.count new_content old_url)
  else acc.

Definition markdown_step `{Unicode} `{ReTemplate} (acc : list N * nat)
  (entry : list N * list N) : exn + (list N * nat) :=
  let '(old_url, new_url) := entry in
  match pattern_pass false md_open md_close old_url new_url acc with
  | inl e => inl e
  | inr acc1 =>
      match pattern_pass true img_open img_close old_url new_url acc1 with
      | inl e => inl e
      | inr acc2 => inr (bare_pass old_url new_url acc2)
      end
  end.

Fixpoint markdown_loop `{Unicode} `{ReTemplate} (url_mapping : list (list N * list N))
  (acc : list N * nat) : exn + (list N * nat) :=
  match url_mapping with
  | [] => inr acc
  | entry :: rest =>
      match markdown_step acc entry with
      | inl e => inl e
      | inr acc' => markdown_loop rest acc'
      end
  end.

(** [URLReplacer._replace_urls_in_markdown]; an error of [re.sub] is not
    caught here. *)
Definition _replace_urls_in_markdown `{Unicode} `{ReTemplate} (content : list N)
  (url_mapping : list (list N * list N)) : exn + (list N * nat) :=
  markdown_loop url_mapping (content, 0).

(** ** The per-file orchestrator *)

(** The result dictionary of [replace_urls_in_file].  [error] holds the
    exception caught, of which the source stores the text [str(e)]. *)
Record result := mk_result {
  file_path : list N;
  output_path : list N;
  success : bool;
  replacements : nat;
  backup_path : option (list N);
  error : option exn;
}.

(** [result['backup_path'] = b], [result.update({'success': True,
    'replacements': n})] and [result['error'] = str(e)]. *)
Definition set_backup_path (b : list N) (r : result) : result :=
  mk_result r.(file_path) r.(output_path) r.(success) r.(replacements) (Some b) r.(error).

Definition set_success (n : nat) (r : result) : result :=
  mk_result r.(file_path) r.(output_path) true n r.(backup_path) r.(error).

Definition set_error (e : exn) (r : result) : result :=
  mk_result r.(file_path) r.(output_path) r.(success) r.(replacements) r.(backup_path)
    (Some e).

(** Steps read and write the file system and the result dictionary, and
    may raise. *)
Definition io (A : Type) : Type :=
  gmap (list N) node * result → (exn + A) * (gmap (list N) node * result).

Module IO.

Definition ret {A} (a : A) : io A := fun st => (inr a, st).

Definition bind {A B} (c : io A) (k : A → io B) : io B :=
  fun st =>
    match c st with
    | (inl e, st') => (inl e, st')
    | (inr a, st') => k a st'
    end.

Definition raise {A} (e : exn) : io A := fun st => (inl e, st).

(** A query of the file system. *)
Definition ask {A} (f : gmap (list N) node → A) : io A := fun st => (inr (f st.1), st).

(** A fallible query of the file system. *)
Definition try {A} (f : gmap (list N) node → exn + A) : io A := fun st => (f st.1, st).

(** A fallible update of the file system. *)
Definition os (f : gmap (list N) node → exn + gmap (list N) node) : io unit :=
  fun st =>
    match f st.1 with
    | inl e => (inl e, st)
    | inr m => (inr tt, (m, st.2))
    end.

(** An update of the result dictionary. *)
Definition update (f : result → result) : io unit := fun st => (inr tt, (st.1, f st.2)).

Definition lift {A} (r : exn + A) : io A := fun st => (r, st).

(** Writing a text file; a failure while encoding leaves the file as the
    opening left it. *)
Definition write (p s : list N) : io unit :=
  fun st =>
    match write_text st.1 p s with
    | (Some e, m) => (inl e, (m, st.2))
    | (None, m) => (inr tt, (m, st.2))
    end.

End IO.

#[global] Instance io_ret : MRet io := @IO.ret.
#[global] Instance io_bind : MBind io := fun A B k c => IO.bind c k.

(** [a or b] on an optional string: [None] and the empty string are false. *)
Definition py_or (a : option (list N)) (b : list N) : list N :=
  match a with
  | Some (c :: s) => c :: s
  | _ => b
  end.

(** The code points of the messages raised by the source. *)
Definition msg_missing : list N := [25991; 20214; 19981; 23384; 22312; 58; 32]%N.
Definition msg_empty_mapping : list N :=
  [85; 82; 76; 26144; 23556; 19981; 33021; 20026; 31354]%N.
Definition msg_undecodable : list N :=
  [26080; 27861; 35299; 30721; 25991; 20214; 20869; 23481]%N.
Definition msg_no_directory : list N := [30446; 24405; 19981; 23384; 22312; 58; 32]%N.
Definition msg_not_directory : list N := [36335; 24452; 19981; 26159; 30446; 24405; 58; 32]%N.

(** The fallback loop [for encoding in encodings]: [break] on the first
    encoding that decodes, [continue] on [UnicodeDecodeError]; any other
    exception leaves the loop.  The value is [content] after the loop. *)
Fixpoint try_encodings `{Codecs} (m : gmap (list N) node) (file_path : list N)
  (encodings : list encoding) : exn + option (list N) :=
  match encodings with
  | [] => inr None
  | encoding :: rest =>
      match read_text m file_path encoding with
      | inr content => inr (Some content)
      | inl UnicodeDecodeError => try_encodings m file_path rest
      | inl e => inl e
      end
  end.

(** The read step of [replace_urls_in_file]. *)
Definition read_content `{Codecs} (m : gmap (list N) node) (file_path : list N)
  : exn + list N :=
  match read_text m file_path UTF8 with
  | inl UnicodeDecodeError =>
      match try_encodings m file_path [GBK; GB2312; LATIN1] with
      | inl e => inl e
      | inr None => inl (ValueError msg_undecodable)
      | inr (Some content) => inr content
      end
  | r => r
  end.

Section Orchestrator.
Context `{Codecs} `{Bs4} `{Unicode} `{ReTemplate}.

(** The choice of the strategy by the lower-cased suffix. *)
Definition dispatch (file_path content : list N) (url_mapping : list (list N * list N))
  : exn + (list N * nat) :=
  let file_ext := str_lower (PyPath.suffix file_path) in
  if bool_decide (file_ext ∈ [py ".html"; py ".htm"]) then
    inr (_replace_urls_in_html content url_mapping)
  else if bool_decide (file_ext = py ".md") then
    _replace_urls_in_markdown content url_mapping
  else inr (_replace_urls_in_text content url_mapping).

(** The body of the [try] block. *)
Definition replace_body (file_path : list N) (url_mapping : list (list N * list N))
  (output_path : option (list N)) (backup : bool) : io unit :=
  found ← IO.ask (fun m => OS.path_exists m file_path);
  (if negb found then IO.raise (FileNotFoundError (msg_missing ++ file_path))
   else IO.ret tt);;
  (if bool_decide (url_mapping = []) then IO.raise (ValueError msg_empty_mapping)
   else IO.ret tt);;
  (if backup && bool_decide (output_path = None ∨ output_path = Some file_path) then
     let backup_path := file_path ++ py ".backup" in
     IO.os (fun m => OS.copy2 m file_path backup_path);;
     IO.update (set_backup_path backup_path)
   else IO.ret tt);;
  content ← IO.try (fun m => read_content m file_path);
  rewritten ← IO.lift (dispatch file_path content url_mapping);
  let '(new_content, n) := rewritten in
  let output_file := py_or output_path file_path in
  IO.os (fun m => OS.makedirs m (PyPath.dirname output_file));;
  IO.write output_file new_content;;
  IO.update (set_success n).

(** [URLReplacer.replace_urls_in_file]: the result dictionary and the file
    system it leaves. *)
Definition replace_urls_in_file (m : gmap (list N) node) (file_path : list N)
  (url_mapping : list (list N * list N)) (output_path : option (list N))
  (backup : bool) : result * gmap (list N) node :=
  let result0 := mk_result file_path (py_or output_path file_path) false 0 None None in
  match replace_body file_path url_mapping output_path backup (m, result0) with
  | (inr _, (m', r)) => (r, m')
  | (inl e, (m', r)) => (set_error e r, m')
  end.

End Orchestrator.

(** [URLReplacer.restore_from_backup]: [False] when there is no backup or
    the copy fails. *)
Definition restore_from_backup (m : gmap (list N) node) (file_path : list N)
  : bool * gmap (list N) node :=
  let backup_path := file_path ++ py ".backup" in
  if negb (OS.path_exists m backup_path) then (false, m)
  else
    match OS.copy2 m backup_path file_path with
    | inl _ => (false, m)
    | inr m' => (true, m')
    end.

(** ** The directory walker *)

Section Walker.
Context `{Codecs} `{Bs4} `{Unicode} `{ReTemplate} `{Scandir}.

Definition supported_formats : list (list N) :=
  [py ".txt"; py ".md"; py ".html"; py ".htm"].

Definition supported (file_path : list N) : bool :=
  bool_decide (str_lower (PyPath.suffix file_path) ∈ supported_formats).

(** [if output_directory:] *)
Definition given (output_directory : option (list N)) : option (list N) :=
  match output_directory with
  | Some (c :: s) => Some (c :: s)
  | _ => None
  end.

(** The loop [for file in files] for one directory [root] that [os.walk]
    yields. *)
Fixpoint walk_files (directory_path : list N) (url_mapping : list (list N * list N))
  (output_directory : option (list N)) (backup : bool) (root : list N)
  (files : list (list N)) (acc : list result * gmap (list N) node)
  : list result * gmap (list N) node :=
  match files with
  | [] => acc
  | file :: rest =>
      let file_path := PyPath.join root file in
      if supported file_path then
        let output_path :=
          match given output_directory with
          | Some out => Some (PyPath.join out (PyPath.relpath file_path directory_path))
          | None => None
          end in
        let '(r, m') := replace_urls_in_file acc.2 file_path url_mapping output_path backup in
        walk_files directory_path url_mapping output_directory backup root rest
          (acc.1 ++ [r], m')
      else
        walk_files directory_path url_mapping output_directory backup root rest acc
  end.

(** The descent of [os.walk] into the directories [ds] of a listing, in
    order; [walk_dir] walks one of them. *)
Fixpoint descend {A : Type} (walk_dir : list N → A → option A) (ds : list (list N))
  (a : A) : option A :=
  match ds with
  | [] => Some a
  | d :: ds' =>
      match walk_dir d a with
      | None => None
      | Some a' => descend walk_dir ds' a'
      end
  end.

(** [for root, dirs, files in os.walk(top)] with the loop body: a
    directory is listed when the walk reaches it, its files are processed,
    then the walk descends into the directories of the listing, in order.
    [fuel] bounds the depth of the descent. *)
Fixpoint walk (fuel : nat) (directory_path : list N) (url_mapping : list (list N * list N))
  (output_directory : option (list N)) (backup : bool) (top : list N)
  (acc : list result * gmap (list N) node)
  : option (list result * gmap (list N) node) :=
  match fuel with
  | O => None
  | S fuel' =>
      let entries := OS.listdir acc.2 top in
      let dirs := filter (fun n => OS.isdir acc.2 (PyPath.join top n) = true) entries in
      let files := filter (fun n => OS.isdir acc.2 (PyPath.join top n) = false) entries in
      let acc1 := walk_files directory_path url_mapping output_directory backup top files acc in
      descend (fun d a => walk fuel' directory_path url_mapping output_directory backup
                            (PyPath.join top d) a) dirs acc1
  end.

(** The loop [for file in os.listdir(directory_path)] of the
    non-recursive branch. *)
Fixpoint list_files (directory_path : list N) (url_mapping : list (list N * list N))
  (output_directory : option (list N)) (backup : bool)
  (files : list (list N)) (acc : list result * gmap (list N) node)
  : list result * gmap (list N) node :=
  match files with
  | [] => acc
  | file :: rest =>
      let file_path := PyPath.join directory_path file in
      if OS.isfile acc.2 file_path && supported file_path then
        let output_path :=
          match given output_directory with
          | Some out => Some (PyPath.join out file)
          | None => None
          end in
        let '(r, m') := replace_urls_in_file acc.2 file_path url_mapping output_path backup in
        list_files directory_path url_mapping output_directory backup rest (acc.1 ++ [r], m')
      else list_files directory_path url_mapping output_directory backup rest acc
  end.

(** [URLReplacer.replace_urls_in_directory]: [None] when [fuel] does not
    cover the depth of the tree; otherwise the exception raised for a
    missing directory, or the results and the file system left. *)
Definition replace_urls_in_directory (fuel : nat) (m : gmap (list N) node)
  (directory_path : list N) (url_mapping : list (list N * list N))
  (output_directory : option (list N)) (recursive backup : bool)
  : option (exn + list result * gmap (list N) node) :=
  if negb (OS.path_exists m directory_path) then
    Some (inl (FileNotFoundError (msg_no_directory ++ directory_path)))
  else if negb (OS.isdir m directory_path) then
    Some (inl (ValueError (msg_not_directory ++ directory_path)))
  else if recursive then
    inr <$> walk fuel directory_path url_mapping output_directory backup
              directory_path ([], m)
  else
    Some (inr (list_files directory_path url_mapping output_directory backup
                 (OS.listdir m directory_path) ([], m))).

End Walker.

(** ** Instances for worked examples *)

Module Fixture.

Definition is_ascii (b : byte) : bool := (Byte.to_N b <? 128)%N.

(** On ASCII bytes utf-8, gbk and gb2312 agree with latin1; this table
    knows nothing else. *)
Definition ascii_decode (b : list byte) : option (list N) :=
  if forallb is_ascii b then Some (Codec.latin1_decode b) else None.

Definition codecs : Codecs :=
  {| utf8_decode := ascii_decode; gbk_decode := ascii_decode;
     gb2312_decode := ascii_decode |}.

Definition lower_char (c : N) : N :=
  if ((65 <=? c) && (c <=? 90))%N then (c + 32)%N else c.

(** Case mapping of the ASCII letters only. *)
Definition unicode : Unicode :=
  {| str_lower := fmap lower_char; casefold := lower_char |}.

(** The expansion of [r'\1' + new_url + r'\2'] for a [new_url] that
    starts with a digit [c] followed by a character that is no digit: the
    group reference reads [\1c], a group the patterns do not have, and
    [re] rejects the template.  This table knows no other template and
    fails outside it. *)
Definition templates : ReTemplate :=
  {| re_template := fun new_url =>
       match new_url with
       | c :: c' :: _ =>
           if Re.is_digit c && negb (Re.is_digit c') then inl (ReError new_url)
           else inl (LibraryError 2)
       | _ => inl (LibraryError 2)
       end |}.

(** The document of one image, as it is read and as BeautifulSoup writes
    it: [str(soup)] closes the empty element with a slash. *)
Definition img_doc (src : list N) : list N :=
  py "<img src=" ++ [34%N] ++ src ++ [34%N; 62%N].

Definition img_doc_written (src : list N) : list N :=
  py "<img src=" ++ [34%N] ++ src ++ [34%N; 47%N; 62%N].

(** A value that the serialiser writes between double quotes as it is:
    it holds no quote, ampersand or angle bracket. *)
Definition plain_value (v : list N) : bool :=
  forallb (fun c => negb (bool_decide (c ∈ [34%N; 38%N; 39%N; 60%N; 62%N]))) v.

(** BeautifulSoup on the document of one image with the source [src]:
    the parser gives the tree of one [img] tag with the one attribute
    [src], the serialiser writes such a tree back.  This table knows no
    other document and fails outside it. *)
Definition bs4 (src : list N) : Bs4 :=
  {| bs4_parse := fun content =>
       if bool_decide (content = img_doc src) && plain_value src
       then inr [Tag (py "img") [(py "src", src)] []]
       else inl (LibraryError 0);
     bs4_str := fun soup =>
       match soup with
       | [Tag name [(k, v)] []] =>
           if bool_decide (name = py "img") && bool_decide (k = py "src") && plain_value v
           then inr (img_doc_written v)
           else inl (LibraryError 1)
       | _ => inl (LibraryError 1)
       end |}.

(** A file system that enumerates a directory in the order of its
    keys. *)
Definition scandir : Scandir :=
  {| scandir_order := fun _ _ names => names;
     scandir_order_perm := fun _ _ names => reflexivity names |}.

Definition ascii (s : string) : list byte :=
  Ascii.byte_of_ascii <$> String.list_ascii_of_string s.

End Fixture.

(** ** Vocabulary for the properties of the text strategy *)

(** The working content after one entry of the mapping. *)
Definition text_rewrite (acc : list N) (entry : list N * list N) : list N :=
  if PyStr.contains entry.1 acc then PyStr.replace acc entry.1 entry.2 else acc.

(** The content and the count the loop of the text strategy arrives at
    from the working content [acc]. *)
Fixpoint rewritten (acc : list N) (url_mapping : list (list N * list N)) : list N :=
  match url_mapping with
  | [] => acc
  | entry :: rest => rewritten (text_rewrite acc entry) rest
  end.

Fixpoint counted (content acc : list N) (url_mapping : list (list N * list N)) : nat :=
  match url_mapping with
  | [] => 0
  | entry :: rest =>
      (if PyStr.contains entry.1 acc then PyStr.count content entry.1 else 0)
      + counted content (text_rewrite acc entry) rest
  end.

(** Every key that occurs in [content] still occurs in the working
    content [acc] when its entry is reached. *)
Fixpoint present_at_turn (content acc : list N) (url_mapping : list (list N * list N))
  : Prop :=
  match url_mapping with
  | [] => True
  | entry :: rest =>
      (PyStr.contains entry.1 content = true → PyStr.contains entry.1 acc = true) ∧
      present_at_turn content (text_rewrite acc entry) rest
  end.

(** [cut_and_glued M s r]: [r] comes from [s] by taking the entries of [M]
    in order, cutting the working content at occurrences of the key so
    that no piece holds a further occurrence, and gluing the pieces with
    the value. *)
Inductive cut_and_glued : list (list N * list N) → list N → list N → Prop :=
| cg_nil s : cut_and_glued [] s s
| cg_cons old new M parts r :
    Forall (fun p => PyStr.contains old p = false) parts →
    cut_and_glued M (PyStr.join new parts) r →
    cut_and_glued ((old, new) :: M) (PyStr.join old parts) r.

(** No key of the mapping is a substring of the value of another key. *)
Definition keys_apart (url_mapping : list (list N * list N)) : bool :=
  forallb (fun e1 =>
    forallb (fun e2 => bool_decide (e1.1 = e2.1) || negb (PyStr.contains e1.1 e2.2))
      url_mapping) url_mapping.

(** No value of the mapping equals a key of the mapping. *)
Definition no_value_is_key (url_mapping : list (list N * list N)) : bool :=
  forallb (fun e1 => forallb (fun e2 => negb (bool_decide (e1.2 = e2.1))) url_mapping)
    url_mapping.

(** ** Worked inputs *)

Module Example.

Definition old_url : list N := py "http://a/1.jpg".
Definition new_url : list N := py "http://b/1.jpg".
Definition mapping : list (list N * list N) := [(old_url, new_url)].

(** A mapping as [json.load] yields it for the value "\ud800", a lone
    surrogate. *)
Definition surrogate_mapping : list (list N * list N) := [(py "x", [0xD800%N])].

(** A working directory that holds the file a.txt. *)
Definition one_file : gmap (list N) node :=
  {[ py "a.txt" := File (Fixture.ascii "x http://a/1.jpg") ]}.

(** The same, with a directory named a.txt.backup next to the file. *)
Definition shadowed : gmap (list N) node :=
  <[ py "a.txt.backup" := Dir ]> one_file.

(** The directory d with a.txt, b.md and sub/c.html; the latter holds
    the document of one image. *)
Definition tree : gmap (list N) node :=
  <[ py "d" := Dir ]>
  (<[ py "d/a.txt" := File (Fixture.ascii "x http://a/1.jpg") ]>
  (<[ py "d/b.md" := File (Fixture.ascii "![x](http://a/1.jpg)") ]>
  (<[ py "d/sub" := Dir ]>
  (<[ py "d/sub/c.html" := File (Byte.x3c :: Fixture.ascii "img src=" ++ Byte.x22
                                   :: Fixture.ascii "http://a/1.jpg" ++ [Byte.x22; Byte.x3e])
   ]> ∅)))).

(** The engine with the libraries of [Fixture]. *)
Definition replace_file :=
  @replace_urls_in_file Fixture.codecs (Fixture.bs4 old_url) Fixture.unicode
    Fixture.templates.

Definition replace_directory `{Scandir} :=
  @replace_urls_in_directory Fixture.codecs (Fixture.bs4 old_url) Fixture.unicode
    Fixture.templates _.

End Example.

(** ** Vocabulary for the properties of the HTML strategy *)

(** The attribute dictionaries of the image tags of a tree, in document
    order: what the loop over [soup.find_all('img')] visits. *)
Fixpoint imgs_of (h : html) : list (list (list N * list N)) :=
  match h with
  | Str _ _ => []
  | Tag name attrs cs =>
      (if bool_decide (name = py "img") then [attrs] else [])
      ++ (fix go (l : list html) : list (list (list N * list N)) :=
            match l with
            | [] => []
            | x :: l' => imgs_of x ++ go l'
            end) cs
  end.

Fixpoint imgs (l : list html) : list (list (list N * list N)) :=
  match l with
  | [] => []
  | x :: l' => imgs_of x ++ imgs l'
  end.

(** The attribute [name] of an image is replaced: it is present, not
    empty and equal to a key of the mapping. *)
Definition replaced (url_mapping attrs : list (list N * list N)) (name : list N) : bool :=
  match Dict.get name attrs with
  | Some v => bool_decide (v ≠ []) && bool_decide (is_Some (Dict.get v url_mapping))
  | None => false
  end.

(** ** Vocabulary for the properties of the Markdown strategy *)


(** ** Vocabulary for the properties of the directory walker *)

Definition same_kind (n n' : node) : Prop :=
  match n, n' with
  | File _, File _ => True
  | Dir, Dir => True
  | _, _ => False
  end.

(** Every entry of [m] is still there in [m'], a file as a file and a
    directory as a directory. *)
Definition keeps_entries (m m' : gmap (list N) node) : Prop :=
  ∀ q n, m !! q = Some n → ∃ n', m' !! q = Some n' ∧ same_kind n n'.

(** The paths of the files a directory run has processed, in the order
    of its results; [None] when the run raised or ran out of [fuel]. *)
Definition processed (run : option (exn + list result * gmap (list N) node))
  : option (list (list N)) :=
  match run with
  | Some (inr (rs, _)) => Some (file_path <$> rs)
  | _ => None
  end.

(** The outcome of each file of a directory run, in the order of its
    results. *)
Definition outcomes (run : option (exn + list result * gmap (list N) node))
  : option (list bool) :=
  match run with
  | Some (inr (rs, _)) => Some (success <$> rs)
  | _ => None
  end.

(** ** The report *)

(** [str(n)] for an integer [n >= 0]: its decimal digits. *)
Fixpoint digits (fuel n : nat) (acc : list N) : list N :=
  match fuel with
  | O => acc
  | S fuel' =>
      let acc' := (48 + N.of_nat (n `mod` 10))%N :: acc in
      if bool_decide (n `div` 10 = 0) then acc' else digits fuel' (n `div` 10) acc'
  end.

Definition str_of_nat (n : nat) : list N := digits (S n) n [].

(** The text [str(e)] that [replace_urls_in_file] stores for the exception
    it caught; Python's runtime builds it. *)
Class Runtime := {
  str_exn : exn → list N;
}.

(** ["=" * 50] and ["-" * 30] *)
Definition rule_double : list N := replicate 50 61%N.
Definition rule_single : list N := replicate 30 45%N.

(** The lines of one successful file: the file with its count, then its
    backup when [result['backup_path']] is neither [None] nor empty. *)
Definition success_lines (r : result) : list (list N) :=
  (py "  " ++ r.(file_path) ++ [32; 45; 62; 32; 26367; 25442; 32]%N
     ++ str_of_nat r.(replacements) ++ [32; 20010; 85; 82; 76]%N)
  :: match r.(backup_path) with
     | Some (c :: b) => [[32; 32; 32; 32; 22791; 20221; 58; 32]%N ++ c :: b]
     | _ => []
     end.

(** The line of one failed file; an error that is [None] prints as
    None. *)
Definition failure_line `{Runtime} (r : result) : list N :=
  py "  " ++ r.(file_path) ++ [32; 45; 32; 38169; 35823; 58; 32]%N
    ++ match r.(error) with
       | Some e => str_exn e
       | None => py "None"
       end.

(** The list [report] of [URLReplacer.create_replacement_report]. *)
Definition report_lines `{Runtime} (results : list result) : list (list N) :=
  let successful_files := filter (fun r => r.(success) = true) results in
  let failed_files := filter (fun r => r.(success) = false) results in
  let total_replacements := sum_list (replacements <$> successful_files) in
  [ rule_double;
    [85; 82; 76; 26367; 25442; 25253; 21578]%N;
    rule_double;
    [24635; 25991; 20214; 25968; 58; 32]%N ++ str_of_nat (length results);
    [25104; 21151; 22788; 29702; 58; 32]%N ++ str_of_nat (length successful_files);
    [22788; 29702; 22833; 36133; 58; 32]%N ++ str_of_nat (length failed_files);
    [24635; 26367; 25442; 27425; 25968; 58; 32]%N ++ str_of_nat total_replacements;
    [] ]
  ++ match successful_files with
     | [] => []
     | _ :: _ =>
         [ [25104; 21151; 22788; 29702; 30340; 25991; 20214; 58]%N; rule_single ]
         ++ (successful_files ≫= success_lines) ++ [ [] ]
     end
  ++ match failed_files with
     | [] => []
     | _ :: _ =>
         [ [22788; 29702; 22833; 36133; 30340; 25991; 20214; 58]%N; rule_single ]
         ++ (failure_line <$> failed_files) ++ [ [] ]
     end
  ++ [ rule_double ].


(** ** Validation of a mapping *)

(** A key or a value of a mapping as it may arrive at run time: a string
    or an object of another type. *)
Inductive pyvalue :=
| PyString (s : list N)
| PyOther (id : nat).

(** Neither [not v] nor [not isinstance(v, str)]. *)
Definition usable (v : pyvalue) : bool :=
  match v with
  | PyString (_ :: _) => true
  | _ => false
  end.

Definition pyvalue_eqb (a b : pyvalue) : bool :=
  match a, b with
  | PyString s, PyString t => bool_decide (s = t)
  | PyOther i, PyOther j => bool_decide (i = j)
  | _, _ => false
  end.

(** The dictionary [validate_url_mapping] returns. *)
Record validation := mk_validation {
  valid : bool;
  total_mappings : nat;
  valid_mappings : nat;
  invalid_mappings : list (pyvalue * pyvalue * list N);
  warnings : list (list N);
}.

Definition msg_invalid_old : list N := [21407; 22987; 85; 82; 76; 26080; 25928]%N.
Definition msg_invalid_new : list N := [26032; 85; 82; 76; 26080; 25928]%N.
Definition msg_same : list N :=
  [85; 82; 76; 30456; 21516; 65292; 26080; 38656; 26367; 25442; 58; 32]%N.

(** The body of the loop over [url_mapping.items()]. *)
Definition validate_step (result : validation) (entry : pyvalue * pyvalue) : validation :=
  let '(old_url, new_url) := entry in
  let invalid1 :=
    if negb (usable old_url)
    then result.(invalid_mappings) ++ [(old_url, new_url, msg_invalid_old)]
    else result.(invalid_mappings) in
  let invalid2 :=
    if negb (usable new_url)
    then invalid1 ++ [(old_url, new_url, msg_invalid_new)]
    else invalid1 in
  if usable old_url && usable new_url then
    mk_validation result.(valid) result.(total_mappings) (result.(valid_mappings) + 1)
      invalid2
      (match old_url with
       | PyString s =>
           if pyvalue_eqb old_url new_url
           then result.(warnings) ++ [msg_same ++ s]
           else result.(warnings)
       | PyOther _ => result.(warnings)
       end)
  else
    mk_validation result.(valid) result.(total_mappings) result.(valid_mappings)
      invalid2 result.(warnings).

(** [URLReplacer.validate_url_mapping] *)
Definition validate_url_mapping (url_mapping : list (pyvalue * pyvalue)) : validation :=
  let result :=
    fold_left validate_step url_mapping
      (mk_validation true (length url_mapping) 0 [] []) in
  match result.(invalid_mappings) with
  | [] => result
  | _ :: _ =>
      mk_validation false result.(total_mappings) result.(valid_mappings)
        result.(invalid_mappings) result.(warnings)
  end.

(** An entry that counts as valid: key and value are usable. *)
Definition both_usable (e : pyvalue * pyvalue) : bool := usable e.1 && usable e.2.

(** A [Dict[str, str]] as a mapping of run-time values. *)
Definition strings (url_mapping : list (list N * list N)) : list (pyvalue * pyvalue) :=
  (fun e => (PyString e.1, PyString e.2)) <$> url_mapping.

(** ** Removal of the backups *)

(** [s.endswith(suffix)] *)
Definition endswith (suffix s : list N) : bool :=
  bool_decide (length suffix ≤ length s)
  && bool_decide (drop (length s - length suffix) s = suffix).

(** [os.remove(p)]: only a regular file can be removed. *)
Definition os_remove (m : gmap (list N) node) (p : list N) : exn + gmap (list N) node :=
  match OS.stat m p with
  | Some (File _) => inr (delete p m)
  | Some Dir => inl (IsADirectoryError p)
  | None => inl (FileNotFoundError p)
  end.

(** A regular file is on the way to [d], or is [d] itself. *)
Definition under_file (m : gmap (list N) node) (d : list N) : bool :=
  OS.isfile m d || existsb (fun q => OS.isfile m q) (OS.prefixes [] d).

(** [os.listdir(d)] with its errors: a path that is, or leads through, a
    regular file is no directory; any other path that names nothing is
    not found. *)
Definition os_listdir `{Scandir} (m : gmap (list N) node) (d : list N)
  : exn + list (list N) :=
  match OS.stat m d with
  | Some Dir => inr (OS.listdir m d)
  | _ => if under_file m d then inl (NotADirectoryError d)
         else inl (FileNotFoundError d)
  end.

(** [try: os.remove(backup_path); cleaned_count += 1] with the exception
    caught and logged. *)
Definition remove_backup (backup_path : list N) (acc : nat * gmap (list N) node)
  : nat * gmap (list N) node :=
  match os_remove acc.2 backup_path with
  | inr m' => (acc.1 + 1, m')
  | inl _ => acc
  end.

(** The loop [for file in files] of the recursive branch, for one
    directory [root] of the walk. *)
Fixpoint cleanup_files (root : list N) (files : list (list N))
  (acc : nat * gmap (list N) node) : nat * gmap (list N) node :=
  match files with
  | [] => acc
  | file :: rest =>
      if endswith (py ".backup") file
      then cleanup_files root rest (remove_backup (PyPath.join root file) acc)
      else cleanup_files root rest acc
  end.

(** [for root, dirs, files in os.walk(top)] with the loop body of
    [cleanup_backups].  A [top] that cannot be listed yields nothing. *)
Fixpoint cleanup_walk `{Scandir} (fuel : nat) (top : list N)
  (acc : nat * gmap (list N) node)
  : option (nat * gmap (list N) node) :=
  match fuel with
  | O => None
  | S fuel' =>
      if negb (OS.isdir acc.2 top) then Some acc
      else
        let entries := OS.listdir acc.2 top in
        let dirs := filter (fun n => OS.isdir acc.2 (PyPath.join top n) = true) entries in
        let files := filter (fun n => OS.isdir acc.2 (PyPath.join top n) = false) entries in
        let acc1 := cleanup_files top files acc in
        descend (fun d a => cleanup_walk fuel' (PyPath.join top d) a) dirs acc1
  end.

(** The loop [for file in os.listdir(directory_path)] of the
    non-recursive branch. *)
Fixpoint cleanup_listed (directory_path : list N) (files : list (list N))
  (acc : nat * gmap (list N) node) : nat * gmap (list N) node :=
  match files with
  | [] => acc
  | file :: rest =>
      let backup_path := PyPath.join directory_path file in
      if endswith (py ".backup") file && OS.isfile acc.2 backup_path
      then cleanup_listed directory_path rest (remove_backup backup_path acc)
      else cleanup_listed directory_path rest acc
  end.

(** [URLReplacer.cleanup_backups]: the number of files removed, which the
    source logs, and the file system left; [None] when [fuel] does not
    cover the depth of the tree. *)
Definition cleanup_backups `{Scandir} (fuel : nat) (m : gmap (list N) node)
  (directory_path : list N) (recursive : bool)
  : option (exn + nat * gmap (list N) node) :=
  if recursive then inr <$> cleanup_walk fuel directory_path (0, m)
  else
    match os_listdir m directory_path with
    | inl e => Some (inl e)
    | inr files => Some (inr (cleanup_listed directory_path files (0, m)))
    end.

(** ** Vocabulary for the further properties *)

(** A tree without image tags, style tags and style attributes. *)
Fixpoint no_image_no_style (h : html) : bool :=
  match h with
  | Str _ _ => true
  | Tag name attrs cs =>
      negb (bool_decide (name = py "img")) && negb (bool_decide (name = py "style"))
      && negb (bool_decide (is_Some (Dict.get (py "style") attrs)))
      && forallb no_image_no_style cs
  end.

(** The run-time texts used in worked examples. *)
Definition plain_runtime : Runtime := {| str_exn := fun _ => py "error" |}.

(** From [m] to [m'] nothing has changed but that regular files whose
    path ends in .backup are gone. *)
Definition only_backups_removed (m m' : gmap (list N) node) : Prop :=
  ∀ k, m' !! k = m !! k ∨
       (m' !! k = None ∧ endswith (py ".backup") k = true ∧
        ∃ data, m !! k = Some (File data)).

(** The backups directly in directory [d]: the names of its listing that
    end in .backup and are regular files, as paths. *)
Definition backups_in `{Scandir} (m : gmap (list N) node) (d : list N)
  : list (list N) :=
  PyPath.join d <$>
    filter (fun f => (endswith (py ".backup") f && OS.isfile m (PyPath.join d f)) = true)
      (OS.listdir m d).

(** ** The caller in main.py *)

(** [ImageReplacementTool.replace_urls_in_documents] (src/main.py): an empty mapping
    and a path that is neither a file nor a directory give no result; a
    directory is always walked recursively. *)
Definition replace_urls_in_documents `{Codecs} `{Bs4} `{Unicode} `{ReTemplate} `{Scandir}
  (fuel : nat) (m : gmap (list N) node) (source_path : list N)
  (url_mapping : list (list N * list N)) (output_path : option (list N)) (backup : bool)
  : option (exn + list result * gmap (list N) node) :=
  if bool_decide (url_mapping = []) then Some (inr ([], m))
  else if OS.isfile m source_path then
    let '(result, m') := replace_urls_in_file m source_path url_mapping output_path backup in
    Some (inr ([result], m'))
  else if OS.isdir m source_path then
    replace_urls_in_directory fuel m source_path url_mapping output_path true backup
  else Some (inr ([], m)).

(** ** Vocabulary for the properties of the text strategy *)

(** A non-empty end of [x] is a beginning of [y]. *)
Fixpoint overlaps (x y : list N) : bool :=
  match x with
  | [] => false
  | _ :: x' => PyStr.startswith x y || overlaps x' y
  end.

(** [x] and [y] cannot meet in a text: neither occurs in the other, and
    no non-empty end of one is a beginning of the other.  Neither is then
    empty. *)
Definition apart (x y : list N) : bool :=
  negb (PyStr.contains x y) && negb (PyStr.contains y x)
  && negb (overlaps x y) && negb (overlaps y x).

(** No two of the strings can meet. *)
Fixpoint pairwise_apart (keys : list (list N)) : bool :=
  match keys with
  | [] => true
  | k :: rest => forallb (apart k) rest && pairwise_apart rest
  end.

(** No key of the mapping can meet a value of the mapping. *)
Definition keys_apart_from_values (url_mapping : list (list N * list N)) : bool :=
  forallb (fun k => forallb (apart k) url_mapping.*2) url_mapping.*1.

(** [out] is [s] with every occurrence of [old] replaced by [new], the
    occurrences taken from the left and not overlapping: [s] either holds
    no occurrence, or begins with a stretch [p] that ends where the first
    occurrence begins, so that [old] does not occur in [p] followed by all
    but the last character of [old]. *)
Inductive replaced_leftmost (old new : list N) : list N → list N → Prop :=
| replaced_none s :
    PyStr.contains old s = false → replaced_leftmost old new s s
| replaced_first p rest out :
    PyStr.contains old (p ++ removelast old) = false →
    replaced_leftmost old new rest out →
    replaced_leftmost old new (p ++ old ++ rest) (p ++ new ++ out).

(** [out] is what the entries of the mapping, taken in order, make of the
    content [c], each replacing its key in what the entries before it have
    left. *)
Inductive text_result : list (list N * list N) → list N → list N → Prop :=
| text_result_nil c : text_result [] c c
| text_result_cons old new rest c c' out :
    replaced_leftmost old new c c' →
    text_result rest c' out →
    text_result ((old, new) :: rest) c out.

(** ** Vocabulary for the steps of the orchestrator *)

(** The backup step: the copy is taken when a backup is asked for and
    the run is in place. *)
Definition backup_step (m : gmap (list N) node) (file_path : list N)
  (output_path : option (list N)) (backup : bool) : exn + gmap (list N) node :=
  if backup && bool_decide (output_path = None ∨ output_path = Some file_path)
  then OS.copy2 m file_path (file_path ++ py ".backup")
  else inr m.

(** ** Vocabulary for paths *)

(** The components of a path. *)
Fixpoint components (p : list N) : list (list N) :=
  match p with
  | [] => [[]]
  | a :: p' =>
      if bool_decide (a = slash) then [] :: components p'
      else match components p' with
           | c :: cs => (a :: c) :: cs
           | [] => [[a]]
           end
  end.

(** A relative path written in the one way there is to write it without
    links: no component is empty, "." or "..".  Two such paths that differ
    name different files. *)
Definition canonical (p : list N) : bool :=
  forallb (fun c => negb (bool_decide (c = [])) && negb (bool_decide (c = py "."))
                    && negb (bool_decide (c = py "..")))
    (components p).

(** ** Vocabulary for the Markdown strategy *)



(** ** Vocabulary for directory runs *)

(** [reached m top t]: the walk from the directory [top] comes to the
    directory [t], which is [top] or a directory of the listing of a
    directory the walk comes to. *)
Inductive reached `{Scandir} (m : gmap (list N) node) : list N → list N → Prop :=
| reached_top top : reached m top top
| reached_below top s t :
    s ∈ OS.listdir m top →
    OS.isdir m (PyPath.join top s) = true →
    reached m (PyPath.join top s) t →
    reached m top t.

(** [p] is a file with a supported suffix in a directory that the walk
    from [top] comes to. *)
Definition walk_file `{Unicode} `{Scandir} (m : gmap (list N) node) (top p : list N)
  : Prop :=
  ∃ t f, reached m top t ∧ f ∈ OS.listdir m t ∧
         OS.isdir m (PyPath.join t f) = false ∧
         supported (PyPath.join t f) = true ∧
         p = PyPath.join t f.

(** What a run on the empty mapping reports for a file. *)
Definition refused (r : result) : Prop :=
  r.(success) = false ∧ r.(replacements) = 0 ∧ r.(backup_path) = None ∧
  (r.(error) = Some (ValueError msg_empty_mapping) ∨
   r.(error) = Some (FileNotFoundError (msg_missing ++ r.(file_path)))).

(** * Properties *)

(** ** Python strings *)

Module PyStrFacts.
Import PyStr.

Lemma startswith_spec p s : startswith p s = true ↔ ∃ r, s = p ++ r.
Proof.
  revert s; induction p as [|a p IH]; intros s; simpl.
  - split; [intros _; by exists s | done].
  - destruct s as [|b s]; [split; [done | intros [r Hr]; done] |].
    destruct (decide (a = b)) as [->|Hne].
    + rewrite IH. split; [intros [r ->]; by exists r |].
      intros [r Hr]. exists r. by simplify_eq/=.
    + split; [done | intros [r Hr]; congruence].
Qed.

Lemma startswith_app p s r : startswith p s = true → startswith p (s ++ r) = true.
Proof.
  rewrite !startswith_spec. intros [t ->]. exists (t ++ r). by rewrite app_assoc.
Qed.

Lemma contains_nil_l s : contains [] s = true.
Proof. by destruct s. Qed.

Lemma contains_cons_false sub c s :
  contains sub (c :: s) = false → startswith sub (c :: s) = false ∧ contains sub s = false.
Proof. simpl. intros H. by apply orb_false_iff in H. Qed.

Lemma contains_false_startswith sub s : contains sub s = false → startswith sub s = false.
Proof. destruct s; simpl; intros H; by apply orb_false_iff in H as [? ?]. Qed.

(** Nothing is counted where nothing occurs. *)
Lemma count_from_absent sub s k : contains sub s = false → count_from sub s k = 0.
Proof.
  revert k; induction s as [|c s IH]; intros k Hno.
  - destruct k; simpl; [|done].
    by rewrite (contains_false_startswith _ _ Hno).
  - apply contains_cons_false in Hno as [Hs Hc].
    destruct k; cbn [count_from]; [rewrite Hs|]; by apply IH.
Qed.

Lemma count_present sub s : contains sub s = true → 0 < count s sub.
Proof.
  unfold count. induction s as [|c s IH]; cbn [count_from contains]; intros H.
  - apply orb_true_iff in H as [H|H]; [rewrite H; lia | done].
  - destruct (startswith sub (c :: s)); [lia|]. apply IH. by rewrite orb_false_l in H.
Qed.

(** [s.count(sub) == 0] exactly when [sub not in s]. *)
Lemma count_zero_iff s sub : count s sub = 0 ↔ contains sub s = false.
Proof.
  split.
  - intros H. destruct (contains sub s) eqn:E; [|done].
    apply count_present in E. lia.
  - apply count_from_absent.
Qed.

(** Nothing is replaced where nothing occurs. *)
Lemma replace_from_absent old new s : contains old s = false → replace_from old new s 0 = s.
Proof.
  induction s as [|c s IH]; intros Hno.
  - simpl. by rewrite (contains_false_startswith _ _ Hno).
  - apply contains_cons_false in Hno as [Hs Hc].
    cbn [replace_from]. rewrite Hs. f_equal. by apply IH.
Qed.

Lemma replace_absent s old new : contains old s = false → replace s old new = s.
Proof. apply replace_from_absent. Qed.

(** The characters of an occurrence are skipped. *)
Lemma replace_from_skip old new pre s :
  replace_from old new (pre ++ s) (length pre) = replace_from old new s 0.
Proof. induction pre as [|c pre IH]; [done|]. simpl. apply IH. Qed.

Lemma count_from_skip sub pre s :
  count_from sub (pre ++ s) (length pre) = count_from sub s 0.
Proof. induction pre as [|c pre IH]; [done|]. simpl. apply IH. Qed.

Lemma replace_from_occurrence o old new rest :
  replace_from (o :: old) new ((o :: old) ++ rest) 0
  = new ++ replace_from (o :: old) new rest 0.
Proof.
  assert (Hs : startswith (o :: old) (o :: old ++ rest) = true)
    by (apply startswith_spec; by exists rest).
  change ((o :: old) ++ rest) with (o :: old ++ rest). cbn [replace_from].
  rewrite Hs. f_equal. simpl. rewrite Nat.sub_0_r. apply replace_from_skip.
Qed.

Lemma count_from_occurrence o sub rest :
  count_from (o :: sub) ((o :: sub) ++ rest) 0 = S (count_from (o :: sub) rest 0).
Proof.
  assert (Hs : startswith (o :: sub) (o :: sub ++ rest) = true)
    by (apply startswith_spec; by exists rest).
  change ((o :: sub) ++ rest) with (o :: sub ++ rest). cbn [count_from].
  rewrite Hs. f_equal. simpl. rewrite Nat.sub_0_r. apply count_from_skip.
Qed.

Lemma join_cons sep p q ps : join sep (p :: q :: ps) = p ++ sep ++ join sep (q :: ps).
Proof. done. Qed.

(** For a non-empty [old], [s.replace(old, new)] is
    [new.join(s.split(old))]: [s] is cut at its occurrences of [old], found
    from the left, no piece holds a further occurrence, and the pieces
    are glued again with [new]; [s.count(old)] is the number of cuts. *)
Lemma replace_split_join o old new s :
  ∃ parts,
    s = join (o :: old) parts ∧
    replace s (o :: old) new = join new parts ∧
    length parts = S (count s (o :: old)) ∧
    Forall (fun p => contains (o :: old) p = false) parts.
Proof.
  unfold replace, count.
  remember (length s) as n eqn:Hn.
  revert s Hn. induction (lt_wf n) as [n _ IH]. intros s ->.
  destruct (startswith (o :: old) s) eqn:Hs.
  - apply startswith_spec in Hs as [rest ->].
    destruct (IH (length rest)) with (s := rest) as (ps & Hj & Hr & Hl & Hf);
      [rewrite length_app; simpl; lia | done |].
    exists ([] :: ps). destruct ps as [|q ps]; [done|].
    rewrite replace_from_occurrence, count_from_occurrence, !join_cons, <- Hj, Hr.
    split_and!; [done | done | simpl in *; lia |]. by constructor.
  - destruct s as [|c s].
    + exists [[]]. simpl. split_and!; [done | done | done |]. by constructor.
    + destruct (IH (length s)) with (s := s) as (ps & Hj & Hr & Hl & Hf);
        [simpl; lia | done |].
      destruct ps as [|q ps]; [done|].
      exists ((c :: q) :: ps). cbn [replace_from count_from]. rewrite Hs.
      assert (Hq : contains (o :: old) (c :: q) = false).
      { apply Forall_cons in Hf as [Hq _]. cbn [contains]. rewrite Hq, orb_false_r.
        destruct (startswith (o :: old) (c :: q)) eqn:E; [|done].
        destruct ps as [|q' ps].
        - simpl in Hj. subst q. congruence.
        - rewrite join_cons in Hj. rewrite Hj in Hs.
          apply (startswith_app _ _ ((o :: old) ++ join (o :: old) (q' :: ps))) in E.
          simpl in E, Hs. congruence. }
      split_and!.
      * destruct ps; simpl in *; congruence.
      * rewrite Hr. by destruct ps.
      * simpl in *. lia.
      * apply Forall_cons in Hf as [_ Hf]. by constructor.
Qed.

End PyStrFacts.

(** ** The text strategy *)

Module TextFacts.
Import PyStr PyStrFacts.

Lemma text_step_fst content acc n entry :
  (text_step content (acc, n) entry).1 = text_rewrite acc entry.
Proof. destruct entry as [k v]. unfold text_rewrite. simpl. by destruct (contains k acc). Qed.

Lemma text_step_snd content acc n entry :
  (text_step content (acc, n) entry).2
  = n + (if contains entry.1 acc then count content entry.1 else 0).
Proof. destruct entry as [k v]. simpl. destruct (contains k acc); simpl; lia. Qed.

Lemma text_fold content M acc n :
  fold_left (text_step content) M (acc, n)
  = (rewritten acc M, n + counted content acc M).
Proof.
  revert acc n. induction M as [|e M IH]; intros acc n; cbn [fold_left rewritten counted].
  - f_equal. lia.
  - rewrite (surjective_pairing (text_step content (acc, n) e)).
    rewrite text_step_fst, text_step_snd, IH. f_equal. by rewrite Nat.add_assoc.
Qed.

Lemma total_cons content e M :
  total_occurrences content (e :: M) = count content e.1 + total_occurrences content M.
Proof. done. Qed.

Lemma counted_le content acc M : counted content acc M ≤ total_occurrences content M.
Proof.
  revert acc. induction M as [|e M IH]; intros acc; [done|].
  rewrite total_cons. cbn [counted]. specialize (IH (text_rewrite acc e)).
  destruct (contains e.1 acc); lia.
Qed.

Lemma counted_exact content acc M :
  counted content acc M = total_occurrences content M ↔ present_at_turn content acc M.
Proof.
  revert acc. induction M as [|e M IH]; intros acc; [done|].
  pose proof (counted_le content (text_rewrite acc e) M) as Hle.
  rewrite total_cons. cbn [counted present_at_turn]. rewrite <- IH.
  destruct (contains e.1 acc) eqn:Ha.
  - split; [intros Heq; split; [done | lia] | intros [_ Heq]; lia].
  - split.
    + intros Heq. assert (count content e.1 = 0) as H0 by lia.
      apply count_zero_iff in H0. split; [congruence | lia].
    + intros [Hp Heq]. destruct (contains e.1 content) eqn:Hc.
      * by specialize (Hp eq_refl).
      * apply count_zero_iff in Hc. lia.
Qed.

Lemma rewritten_cut_and_glued M acc :
  Forall (fun e => e.1 ≠ []) M → cut_and_glued M acc (rewritten acc M).
Proof.
  revert acc. induction M as [|[old new] M IH]; intros acc Hne; [constructor|].
  apply Forall_cons in Hne as [Hold Hne]. simpl in Hold.
  destruct old as [|o old]; [done|]. cbn [rewritten].
  destruct (replace_split_join o old new acc) as (parts & Hj & Hr & _ & Hf).
  assert (text_rewrite acc (o :: old, new) = join new parts) as ->.
  { unfold text_rewrite. cbn [fst snd]. destruct (contains (o :: old) acc) eqn:Hc; [done|].
    by rewrite <- Hr, replace_absent. }
  rewrite Hj at 1. constructor; [done | by apply IH].
Qed.

(** Where no key occurs the loop changes nothing and counts nothing. *)
Lemma rewritten_absent R M :
  Forall (fun e => contains e.1 R = false) M → rewritten R M = R ∧ ∀ c, counted c R M = 0.
Proof.
  induction M as [|e M IH]; intros Hno; [done|].
  apply Forall_cons in Hno as [He Hno]. simpl. unfold text_rewrite. rewrite He.
  destruct (IH Hno) as [-> Hc]. split; [done|]. intros c. by rewrite Hc.
Qed.

Lemma counted_self_zero R M :
  counted R R M = 0 → Forall (fun e => contains e.1 R = false) M.
Proof.
  induction M as [|e M IH]; intros H0; [constructor|]. simpl in H0.
  destruct (contains e.1 R) eqn:He.
  - apply count_present in He. lia.
  - unfold text_rewrite in H0. rewrite He in H0. constructor; [done | apply IH; lia].
Qed.

End TextFacts.

(** ** Occurrences that cannot meet *)

Module OverlapFacts.
Import PyStr.

Lemma contains_intro sub a b : contains sub (a ++ sub ++ b) = true.
Proof.
  induction a as [|c a IH]; cbn [app contains].
  - destruct (contains sub (sub ++ b)) eqn:E; [done|].
    apply PyStrFacts.contains_false_startswith in E.
    assert (startswith sub (sub ++ b) = true) as Hs
      by (apply PyStrFacts.startswith_spec; by exists b).
    congruence.
  - by rewrite IH, orb_true_r.
Qed.

Lemma contains_elim sub s : contains sub s = true → ∃ a b, s = a ++ sub ++ b.
Proof.
  induction s as [|c s IH]; cbn [contains].
  - rewrite orb_false_r. intros [r Hr]%PyStrFacts.startswith_spec. by exists [], r.
  - intros [[r Hr]%PyStrFacts.startswith_spec|Hs]%orb_true_iff.
    + by exists [], r.
    + destruct (IH Hs) as (a & b & ->). by exists (c :: a), b.
Qed.

Lemma contains_app_l sub s r : contains sub s = true → contains sub (s ++ r) = true.
Proof.
  intros (a & b & ->)%contains_elim. rewrite <- !app_assoc. apply contains_intro.
Qed.

Lemma contains_app_r sub s r : contains sub s = true → contains sub (r ++ s) = true.
Proof.
  intros (a & b & ->)%contains_elim. rewrite app_assoc. apply contains_intro.
Qed.

Lemma contains_short sub s : length s < length sub → contains sub s = false.
Proof.
  intros Hl. destruct (contains sub s) eqn:Hc; [|done].
  apply contains_elim in Hc as (a & b & ->). rewrite !length_app in Hl. lia.
Qed.

Lemma startswith_app_inv x a b :
  startswith x (a ++ b) = true → length x ≤ length a → startswith x a = true.
Proof.
  revert a. induction x as [|c x IH]; intros a; [done|].
  destruct a as [|c' a]; cbn [length]; [lia|]. cbn [app startswith].
  case_decide; [|done]. intros Hs Hl. apply IH; [done|lia].
Qed.

Lemma removelast_snoc (x : list N) : x ≠ [] → ∃ z, x = removelast x ++ [z].
Proof.
  induction x as [|c x IH]; [done|]. intros _. destruct x as [|c' x].
  - by exists c.
  - destruct IH as [z Hz]; [done|]. exists z. cbn [removelast app] in *. by rewrite <- Hz.
Qed.

Lemma removelast_length (x : list N) : x ≠ [] → S (length (removelast x)) = length x.
Proof.
  intros [z Hz]%removelast_snoc. rewrite Hz at 2. rewrite length_app. cbn. lia.
Qed.

(** What [overlaps] and [apart] decide. *)
Lemma overlaps_false x y u t :
  overlaps x y = false → x = u ++ t → t ≠ [] → startswith t y = false.
Proof.
  revert x. induction u as [|c u IH]; intros x Ho -> Ht.
  - destruct t as [|c t]; [done|]. cbn [app overlaps] in Ho.
    by apply orb_false_iff in Ho as [? _].
  - cbn [app overlaps] in Ho. apply orb_false_iff in Ho as [_ Ho]. by eapply IH.
Qed.

Lemma apart_sym x y : apart x y = apart y x.
Proof. unfold apart. destruct (contains x y), (contains y x), (overlaps x y), (overlaps y x); done. Qed.

Lemma apart_nonempty x y : apart x y = true → x ≠ [] ∧ y ≠ [].
Proof.
  unfold apart. rewrite !andb_true_iff, !negb_true_iff. intros [[[H1 H2] _] _].
  split; intros ->; by rewrite PyStrFacts.contains_nil_l in *.
Qed.

Lemma apart_facts x y :
  apart x y = true →
  contains x y = false ∧ contains y x = false ∧ overlaps x y = false ∧ overlaps y x = false.
Proof. unfold apart. rewrite !andb_true_iff, !negb_true_iff. naive_solver. Qed.

(** A string that begins inside [v] and is apart from it. *)
Lemma begins_inside k v a t b y :
  apart k v = true → v = a ++ t → t ≠ [] → t ++ y = k ++ b → False.
Proof.
  intros (Hkv & Hvk & Hokv & Hovk)%apart_facts -> Ht Heq.
  apply app_eq_inv in Heq as [(z & -> & ->)|(z & -> & ->)].
  - (* [k] ends inside [v] *)
    by rewrite contains_intro in Hkv.
  - (* [k] goes on after [v] *)
    assert (startswith t (t ++ z) = true) as Hs
      by (apply PyStrFacts.startswith_spec; by exists z).
    by rewrite (overlaps_false _ _ a t Hovk) in Hs.
Qed.

(** An occurrence of [k] in a text around [v], where [k] and [v] cannot
    meet, lies before [v] or after it. *)
Lemma contains_around k x v y :
  apart k v = true →
  contains k (x ++ v ++ y) = true → contains k x = true ∨ contains k y = true.
Proof.
  intros Hap (a & b & Heq)%contains_elim.
  pose proof Hap as (Hkv & Hvk & Hokv & Hovk)%apart_facts.
  apply app_eq_inv in Heq as [(z & Hx & Hkb)|(z & Ha & Hvy)].
  - (* the occurrence begins in [x] *)
    apply app_eq_inv in Hkb as [(w & Hk & Hvy)|(w & Hz & Hb)].
    + (* and goes on after [x], by [w] *)
      destruct w as [|c w].
      * left. rewrite app_nil_r in Hk. rewrite Hx, <- Hk.
        rewrite <- (app_nil_r (a ++ k)), <- app_assoc. apply contains_intro.
      * exfalso. apply app_eq_inv in Hvy as [(u & Hv & Hb)|(u & Hw & Hy)].
        -- (* [w] ends in [v]: an end of [k] begins [v] *)
           assert (startswith (c :: w) v = true) as Hs
             by (apply PyStrFacts.startswith_spec; by exists u).
           by rewrite (overlaps_false k v z (c :: w) Hokv) in Hs.
        -- (* [w] goes on after [v]: [v] lies in [k] *)
           rewrite Hk, Hw in Hvk. by rewrite contains_intro in Hvk.
    + (* and ends in [x] *)
      left. rewrite Hx, Hz. apply contains_intro.
  - (* the occurrence begins at or after the beginning of [v] *)
    symmetry in Hvy. apply app_eq_inv in Hvy as [(w & Hz & Hy)|(w & Hv & Hkb)].
    + (* after [v] *)
      right. rewrite Hy. apply contains_intro.
    + destruct w as [|c w].
      * right. cbn [app] in Hkb. rewrite <- Hkb. rewrite <- (app_nil_l (k ++ b)).
        apply contains_intro.
      * exfalso. by eapply (begins_inside k v z (c :: w) b y).
Qed.

(** An occurrence in glued pieces lies in one piece when it cannot meet
    the glue. *)
Lemma contains_join_elim k sep parts :
  apart k sep = true →
  contains k (join sep parts) = true → ∃ p, p ∈ parts ∧ contains k p = true.
Proof.
  intros Hap. induction parts as [|p [|q ps] IH].
  - cbn. destruct (apart_nonempty _ _ Hap) as [Hk _]. by destruct k.
  - cbn. intros Hc. exists p. split; [by left|done].
  - rewrite PyStrFacts.join_cons. intros [Hc|Hc]%contains_around; [| |done].
    + exists p. split; [by left|done].
    + destruct (IH Hc) as (p' & Hin & Hp'). exists p'. split; [by right|done].
Qed.

Lemma contains_join_intro k sep parts p :
  p ∈ parts → contains k p = true → contains k (join sep parts) = true.
Proof.
  intros Hin Hp. induction parts as [|q [|q' ps] IH]; [by apply elem_of_nil in Hin| |].
  - apply list_elem_of_singleton in Hin as ->. done.
  - rewrite PyStrFacts.join_cons. apply elem_of_cons in Hin as [->|Hin].
    + by apply contains_app_l.
    + apply contains_app_r, contains_app_r. by apply IH.
Qed.

(** Replacing [old] keeps the occurrences of a string that cannot meet
    [old]. *)
Lemma replace_keeps k old new s :
  apart k old = true → contains k s = true → contains k (replace s old new) = true.
Proof.
  intros Hap Hc. destruct (apart_nonempty _ _ Hap) as [_ Hold].
  destruct old as [|o old]; [done|].
  destruct (PyStrFacts.replace_split_join o old new s) as (parts & Hs & -> & _ & _).
  rewrite Hs in Hc. apply contains_join_elim in Hc as (p & Hin & Hp); [|done].
  by eapply contains_join_intro.
Qed.

(** Gluing pieces that hold no occurrence of [k] with a string that [k]
    cannot meet gives a text without an occurrence of [k]. *)
Lemma join_free k new parts :
  apart k new = true →
  Forall (fun p => contains k p = false) parts →
  contains k (join new parts) = false.
Proof.
  intros Hap Hparts. destruct (contains k (join new parts)) eqn:Hc; [|done].
  apply contains_join_elim in Hc as (p & Hin & Hp); [|done].
  rewrite Forall_forall in Hparts. by rewrite (Hparts p Hin) in Hp.
Qed.

(** The leftmost occurrence: the text before it, followed by all but
    the last character of [old], holds no occurrence. *)
Lemma replace_first_occurrence o old new s :
  contains (o :: old) s = true →
  ∃ p rest,
    s = p ++ (o :: old) ++ rest ∧
    contains (o :: old) (p ++ removelast (o :: old)) = false ∧
    replace s (o :: old) new = p ++ new ++ replace rest (o :: old) new.
Proof.
  unfold replace. induction s as [|c s IH]; [done|].
  destruct (startswith (o :: old) (c :: s)) eqn:Hs.
  - intros _. apply PyStrFacts.startswith_spec in Hs as [rest Hrest].
    exists [], rest. rewrite Hrest, PyStrFacts.replace_from_occurrence.
    split_and!; [done| |done]. apply contains_short.
    rewrite <- (removelast_length (o :: old)) by done. cbn [app]. lia.
  - cbn [contains]. rewrite Hs. cbn [orb]. intros Hc.
    destruct (IH Hc) as (p & rest & -> & Hfree & Hrep).
    exists (c :: p), rest. cbn [replace_from]. rewrite Hs, Hrep.
    split_and!; [done| |done]. cbn [app contains]. rewrite Hfree, orb_false_r.
    destruct (startswith (o :: old) (c :: p ++ removelast (o :: old))) eqn:E; [|done].
    destruct (removelast_snoc (o :: old)) as [z Hz]; [done|].
    apply (PyStrFacts.startswith_app _ _ ([z] ++ rest)) in E.
    assert (Heq : (c :: p ++ removelast (o :: old)) ++ [z] ++ rest
                  = c :: p ++ (o :: old) ++ rest).
    { rewrite <- app_comm_cons. f_equal. rewrite <- app_assoc. f_equal.
      rewrite (app_assoc _ [z]). by rewrite <- Hz. }
    rewrite Heq in E. congruence.
Qed.

(** Through a stretch in which no occurrence begins the replacement
    copies the text. *)
Lemma replace_through o old new p rest :
  contains (o :: old) (p ++ removelast (o :: old)) = false →
  replace (p ++ (o :: old) ++ rest) (o :: old) new
  = p ++ new ++ replace rest (o :: old) new.
Proof.
  unfold replace. induction p as [|c p IH]; intros Hfree.
  - change ([] ++ (o :: old) ++ rest) with ((o :: old) ++ rest).
    by rewrite PyStrFacts.replace_from_occurrence.
  - cbn [app contains] in Hfree. apply orb_false_iff in Hfree as [Hs Hfree].
    change ((c :: p) ++ (o :: old) ++ rest)
      with (c :: (p ++ (o :: old) ++ rest)).
    cbn [replace_from].
    assert (startswith (o :: old) (c :: p ++ (o :: old) ++ rest) = false) as ->.
    { destruct (startswith (o :: old) (c :: p ++ (o :: old) ++ rest)) eqn:E; [|done].
      destruct (removelast_snoc (o :: old)) as [z Hz]; [done|].
      assert (Heq : c :: p ++ (o :: old) ++ rest
                    = (c :: p ++ removelast (o :: old)) ++ [z] ++ rest).
      { replace ((o :: old) ++ rest)
          with (removelast (o :: old) ++ [z] ++ rest)
          by (rewrite (app_assoc _ [z]); by rewrite <- Hz).
        cbn [app]. by rewrite <- app_assoc. }
      rewrite Heq in E. apply startswith_app_inv in E.
      - congruence.
      - pose proof (removelast_length (o :: old) ltac:(done)).
        cbn [app length] in *. rewrite length_app. lia. }
    by rewrite IH.
Qed.

End OverlapFacts.

Module ResultFacts.
Import PyStr.

(** What the loop body makes of the working content is the replacement
    of the occurrences taken from the left. *)
Lemma text_rewrite_leftmost old new s :
  old ≠ [] → replaced_leftmost old new s (text_rewrite s (old, new)).
Proof.
  intros Hold. destruct old as [|o old]; [done|]. clear Hold.
  remember (length s) as n eqn:Hn. revert s Hn.
  induction n as [n IH] using lt_wf_ind. intros s ->.
  unfold text_rewrite. cbn [fst snd].
  destruct (contains (o :: old) s) eqn:Hc; [|by constructor].
  destruct (OverlapFacts.replace_first_occurrence o old new s Hc)
    as (p & rest & -> & Hfree & ->).
  constructor; [done|].
  specialize (IH (length rest)). unfold text_rewrite in IH. cbn [fst snd] in IH.
  assert (Hr : replaced_leftmost (o :: old) new rest
                 (if contains (o :: old) rest then replace rest (o :: old) new else rest)).
  { apply IH; [|done]. rewrite !length_app. cbn. lia. }
  destruct (contains (o :: old) rest) eqn:Hcr; [done|].
  by rewrite PyStrFacts.replace_absent.
Qed.

(** The replacement from the left has one result, the one of the loop
    body. *)
Lemma leftmost_unique old new s out :
  old ≠ [] → replaced_leftmost old new s out → out = text_rewrite s (old, new).
Proof.
  intros Hold Hr. destruct old as [|o old]; [done|]. clear Hold.
  unfold text_rewrite. cbn [fst snd].
  induction Hr as [s Hs|p rest out Hfree Hr IH].
  - by rewrite Hs.
  - rewrite OverlapFacts.contains_intro, OverlapFacts.replace_through by done.
    rewrite IH. destruct (contains (o :: old) rest) eqn:Hc; [done|].
    by rewrite PyStrFacts.replace_absent.
Qed.

Lemma rewritten_text_result M c :
  Forall (fun e => e.1 ≠ []) M → text_result M c (rewritten c M).
Proof.
  intros HM. revert c. induction HM as [|[old new] M Hold _ IH]; intros c.
  - constructor.
  - cbn [rewritten]. econstructor; [|apply IH]. by apply text_rewrite_leftmost.
Qed.

Lemma text_result_unique M c out :
  Forall (fun e => e.1 ≠ []) M → text_result M c out → out = rewritten c M.
Proof.
  intros HM Hr. induction Hr as [c|old new rest c c' out Hl _ IH]; [done|].
  apply Forall_cons in HM as [Hold HM]. cbn [rewritten].
  apply leftmost_unique in Hl as ->; [|done]. by apply IH.
Qed.

(** Keys that cannot meet stay where they are until their turn. *)
Lemma apart_present content M acc :
  pairwise_apart M.*1 = true →
  Forall (fun e => contains e.1 content = true → contains e.1 acc = true) M →
  present_at_turn content acc M.
Proof.
  revert acc. induction M as [|[k v] M IH]; intros acc Hap Hacc; [done|].
  cbn [fmap list_fmap fst pairwise_apart] in Hap.
  apply andb_true_iff in Hap as [Hk Hap]. apply Forall_cons in Hacc as [Hkacc Hacc].
  split; [done|]. apply IH; [done|].
  rewrite forallb_forall in Hk. apply Forall_forall. intros [k' v'] Hin Hc.
  rewrite Forall_forall in Hacc. specialize (Hacc _ Hin Hc). cbn [fst] in *.
  unfold text_rewrite. cbn [fst snd]. destruct (contains k acc); [|done].
  apply OverlapFacts.replace_keeps; [|done].
  rewrite OverlapFacts.apart_sym. apply Hk. apply list_elem_of_In.
  apply list_elem_of_fmap. by exists (k', v').
Qed.

(** After the loop the text holds no key, when no key can meet a
    value. *)
Lemma rewritten_free M acc (settled : list (list N)) :
  Forall (fun k => Forall (fun e => apart k e.2 = true) M) (settled ++ M.*1) →
  Forall (fun k => contains k acc = false) settled →
  Forall (fun k => contains k (rewritten acc M) = false) (settled ++ M.*1).
Proof.
  revert acc settled. induction M as [|[old new] M IH]; intros acc settled Hap Hset.
  - cbn. by rewrite app_nil_r.
  - assert (Hap' : Forall (fun k => Forall (fun e => apart k e.2 = true)
                                         ((old, new) :: M))
                            ((settled ++ [old]) ++ M.*1))
      by (rewrite <- app_assoc; exact Hap).
    clear Hap. rename Hap' into Hap.
    change (settled ++ ((old, new) :: M).*1) with (settled ++ [old] ++ M.*1).
    rewrite app_assoc. cbn [rewritten].
    apply IH.
    + eapply Forall_impl; [exact Hap|]. intros k Hk. by apply Forall_cons in Hk as [_ ?].
    + assert (Hold : Forall (fun e => apart old e.2 = true) ((old, new) :: M)).
      { rewrite Forall_app in Hap. destruct Hap as [Hap _].
        rewrite Forall_app in Hap. destruct Hap as [_ Hap].
        by inversion Hap. }
      apply Forall_cons in Hold as [Hon _]. cbn [snd] in Hon.
      destruct (OverlapFacts.apart_nonempty _ _ Hon) as [Hne _].
      destruct old as [|o old]; [done|].
      unfold text_rewrite. cbn [fst snd].
      destruct (contains (o :: old) acc) eqn:Hc.
      * destruct (PyStrFacts.replace_split_join o old new acc)
          as (parts & Hacc & -> & _ & Hparts).
        apply Forall_app. split.
        -- apply Forall_forall. intros k Hin. apply OverlapFacts.join_free.
           ++ rewrite Forall_app in Hap. destruct Hap as [Hap _].
              rewrite Forall_app in Hap. destruct Hap as [Hap _].
              rewrite Forall_forall in Hap. specialize (Hap k Hin).
              by apply Forall_cons in Hap as [? _].
           ++ apply Forall_forall. intros p Hp.
              rewrite Forall_forall in Hset. specialize (Hset k Hin).
              destruct (contains k p) eqn:Hkp; [|done].
              rewrite Hacc in Hset.
              by rewrite (OverlapFacts.contains_join_intro k (o :: old) parts p) in Hset.
        -- apply Forall_singleton. by apply OverlapFacts.join_free.
      * apply Forall_app. split; [done|]. by apply Forall_singleton.
Qed.

(** No key is left in the text, when no key can meet a value. *)
Lemma keys_absent M acc :
  keys_apart_from_values M = true →
  Forall (fun e => contains e.1 (rewritten acc M) = false) M.
Proof.
  intros Hap. unfold keys_apart_from_values in Hap.
  rewrite forallb_forall in Hap.
  assert (Hs : Forall (fun k => contains k (rewritten acc M) = false) ([] ++ M.*1)).
  { apply rewritten_free; [|constructor]. cbn [app].
    apply Forall_forall. intros k Hk. apply Forall_forall. intros e He.
    apply list_elem_of_In in Hk. specialize (Hap k Hk).
    rewrite forallb_forall in Hap. apply Hap. apply list_elem_of_In.
    apply list_elem_of_fmap. by exists e. }
  cbn [app] in Hs. by apply Forall_fmap in Hs.
Qed.

End ResultFacts.

(** C1, as it holds.  For every content and every mapping with non-empty
    keys, the text strategy returns the one content obtained by taking the
    entries in iteration order and replacing, in what the entries before
    have left, every occurrence of the key by its value, the occurrences
    taken from the left and not overlapping.  The count it returns never
    exceeds the total number of occurrences of all keys in the original
    content, and it equals that total when no two keys can meet in a text
    (neither occurs in the other, and no non-empty end of one is a
    beginning of the other).  When moreover no key can meet a value, no key
    occurs in the returned content. *)
Theorem text_strategy_content_and_count (content : list N)
  (url_mapping : list (list N * list N))
  (Hkeys : Forall (fun e => e.1 ≠ []) url_mapping) :
  text_result url_mapping content (_replace_urls_in_text content url_mapping).1 ∧
  (∀ out, text_result url_mapping content out →
          out = (_replace_urls_in_text content url_mapping).1) ∧
  (_replace_urls_in_text content url_mapping).2 ≤ total_occurrences content url_mapping ∧
  (pairwise_apart url_mapping.*1 = true →
   (_replace_urls_in_text content url_mapping).2 = total_occurrences content url_mapping) ∧
  (keys_apart_from_values url_mapping = true →
   Forall (fun e => PyStr.contains e.1 (_replace_urls_in_text content url_mapping).1 = false)
     url_mapping).
Proof.
  unfold _replace_urls_in_text. rewrite TextFacts.text_fold. cbn [fst snd].
  split_and!.
  - by apply ResultFacts.rewritten_text_result.
  - intros out. by apply ResultFacts.text_result_unique.
  - apply TextFacts.counted_le.
  - intros Hap. apply TextFacts.counted_exact.
    apply ResultFacts.apart_present; [done|]. by apply Forall_forall.
  - intros Hap. by apply ResultFacts.keys_absent.
Qed.

Lemma text_strategy_content_and_count_witness :
  let content := py "see http://a/1.jpg and http://a/2.jpg" in
  let url_mapping := [(py "http://a/1.jpg", py "http://b/1.jpg");
                      (py "http://a/2.jpg", py "http://b/2.jpg")] in
  pairwise_apart url_mapping.*1 = true ∧
  keys_apart_from_values url_mapping = true ∧
  text_result url_mapping content (py "see http://b/1.jpg and http://b/2.jpg") ∧
  _replace_urls_in_text content url_mapping
  = (py "see http://b/1.jpg and http://b/2.jpg", 2) ∧
  total_occurrences content url_mapping = 2.
Proof.
  intros content url_mapping.
  assert (Hkeys : Forall (fun e => e.1 ≠ []) url_mapping)
    by (repeat constructor; discriminate).
  destruct (text_strategy_content_and_count content url_mapping Hkeys)
    as (Hres & _ & _ & Hcount & _).
  split_and!; [reflexivity | reflexivity | exact Hres | reflexivity | reflexivity].
Defined.

(** C1 as stated fails: the keys "ab" and "bc" are no substrings of each
    other's values, both occur in "abc", yet replacing "ab" destroys the
    occurrence of "bc": the count is 1, not 2, and "bc" is not replaced by
    its value. *)
Lemma text_strategy_overlap_counterexample :
  let content := py "abc" in
  let url_mapping := [(py "ab", py "X"); (py "bc", py "Y")] in
  NoDup url_mapping.*1 ∧ keys_apart url_mapping = true ∧
  PyStr.contains (py "bc") content = true ∧
  _replace_urls_in_text content url_mapping = (py "Xc", 1) ∧
  total_occurrences content url_mapping = 2 ∧
  ¬ ((_replace_urls_in_text content url_mapping).2 = total_occurrences content url_mapping).
Proof.
  split_and!; [| done | done | done | done | vm_compute; lia].
  apply NoDup_cons. split; [|apply NoDup_singleton].
  intros Hin. apply list_elem_of_singleton in Hin. discriminate.
Qed.

(** C5, as it holds.  When no key of the mapping can meet a value of the
    mapping (neither occurs in the other, and no non-empty end of one is a
    beginning of the other), no key occurs in the content the text
    strategy returns, and a second pass over that content returns it
    unchanged with the count 0. *)
Theorem text_strategy_second_pass (content : list N)
  (url_mapping : list (list N * list N))
  (Hapart : keys_apart_from_values url_mapping = true) :
  Forall (fun e => PyStr.contains e.1 (_replace_urls_in_text content url_mapping).1 = false)
    url_mapping ∧
  _replace_urls_in_text (_replace_urls_in_text content url_mapping).1 url_mapping
  = ((_replace_urls_in_text content url_mapping).1, 0).
Proof.
  assert (Hno : Forall (fun e => PyStr.contains e.1
                                   (_replace_urls_in_text content url_mapping).1 = false)
                  url_mapping).
  { unfold _replace_urls_in_text. rewrite TextFacts.text_fold. cbn [fst snd].
    by apply ResultFacts.keys_absent. }
  split; [done|].
  unfold _replace_urls_in_text at 1. rewrite TextFacts.text_fold.
  destruct (TextFacts.rewritten_absent _ _ Hno) as [-> ->]. done.
Qed.

Lemma text_strategy_second_pass_witness :
  let content := py "see http://a/1.jpg and http://a/2.jpg" in
  let url_mapping := [(py "http://a/1.jpg", py "http://b/1.jpg");
                      (py "http://a/2.jpg", py "http://b/2.jpg")] in
  keys_apart_from_values url_mapping = true ∧
  (_replace_urls_in_text content url_mapping).1
  = py "see http://b/1.jpg and http://b/2.jpg" ∧
  _replace_urls_in_text (_replace_urls_in_text content url_mapping).1 url_mapping
  = ((_replace_urls_in_text content url_mapping).1, 0).
Proof.
  intros content url_mapping.
  split_and!; [reflexivity | reflexivity |].
  apply (text_strategy_second_pass content url_mapping). reflexivity.
Defined.

(** C5 as stated fails: in the mapping a -> aa no value equals a key, yet
    the second pass finds the key in the values written by the first and
    replaces again, counting 2. *)
Lemma text_strategy_twice_counterexample :
  let url_mapping := [(py "a", py "aa")] in
  no_value_is_key url_mapping = true ∧
  _replace_urls_in_text (py "a") url_mapping = (py "aa", 1) ∧
  _replace_urls_in_text (py "aa") url_mapping = (py "aaaa", 2) ∧
  ¬ ((_replace_urls_in_text (py "aa") url_mapping).1 = py "aa" ∧
     (_replace_urls_in_text (py "aa") url_mapping).2 = 0).
Proof. split_and!; [done | done | done |]. intros [_ H]. vm_compute in H. discriminate. Qed.

(** ** The read step *)

Section ReadFacts.
Context `{Codecs}.

Lemma read_text_latin1 m p data :
  OS.read_bytes m p = inr data →
  read_text m p LATIN1 = inr (Codec.universal_newlines (Codec.latin1_decode data)).
Proof. unfold read_text. by intros ->. Qed.

Lemma read_text_error m p e enc :
  OS.read_bytes m p = inl e → read_text m p enc = inl e.
Proof. unfold read_text. by intros ->. Qed.

Lemma read_bytes_error m p e :
  OS.read_bytes m p = inl e → e = IsADirectoryError p ∨ e = FileNotFoundError p.
Proof. unfold OS.read_bytes. repeat case_match; naive_solver. Qed.

Lemma read_bytes_not_decode_error m p : OS.read_bytes m p ≠ inl UnicodeDecodeError.
Proof. intros Hr. destruct (read_bytes_error _ _ _ Hr); done. Qed.

(** A fallback sequence that ends with latin1 never leaves the loop with
    [content] still [None]. *)
Lemma try_encodings_latin1 m p encodings :
  try_encodings m p (encodings ++ [LATIN1]) ≠ inr None.
Proof.
  induction encodings as [|enc encodings IH]; simpl.
  - unfold read_text. destruct (OS.read_bytes m p) as [e|data] eqn:Hr; simpl.
    + destruct e; try done. by apply read_bytes_not_decode_error in Hr.
    + done.
  - destruct (read_text m p enc) as [e|c]; [|done]. by destruct e.
Qed.

End ReadFacts.

(** C10.  Whatever the decoders for utf-8, gbk and gb2312 do, the read
    step never raises the error of undecodable content: the fallback
    sequence ends with latin1, which decodes every byte sequence, so
    [content] is not [None] after the loop, and for every existing
    regular file the read step yields a decoded string. *)
Theorem undecodable_branch_unreachable `{Codecs} (m : gmap (list N) node)
  (file_path : list N) :
  (∀ encodings, try_encodings m file_path (encodings ++ [LATIN1]) ≠ inr None) ∧
  read_content m file_path ≠ inl (ValueError msg_undecodable) ∧
  (∀ data, OS.stat m file_path = Some (File data) →
           ∃ content, read_content m file_path = inr content).
Proof.
  split_and!.
  - apply try_encodings_latin1.
  - unfold read_content.
    pose proof (try_encodings_latin1 m file_path [GBK; GB2312]) as Hl.
    unfold read_text at 1. destruct (OS.read_bytes m file_path) as [e|data] eqn:Hr.
    + apply read_bytes_error in Hr as [-> | ->]; done.
    + destruct (Codec.decode UTF8 data); [done|].
      destruct (try_encodings m file_path [GBK; GB2312; LATIN1]) as [e|[c|]] eqn:Ht;
        [|done|done].
      intros [= ->]. revert Ht. cbn [try_encodings]. unfold read_text. rewrite Hr.
      cbn [Codec.decode].
      by destruct (gbk_decode data), (gb2312_decode data).
  - intros data Hst. unfold read_content, read_text at 1, OS.read_bytes. rewrite Hst.
    destruct (Codec.decode UTF8 data); [by eexists|].
    cbn [try_encodings]. unfold read_text, OS.read_bytes. rewrite Hst. cbn [Codec.decode].
    destruct (gbk_decode data); [by eexists|].
    destruct (gb2312_decode data); by eexists.
Qed.

(** ** The file system *)

Module OSFacts.
Import OS.

Lemma stat_lookup (m : gmap (list N) node) p :
  p ≠ [] → PyPath.all_slash p = false → stat m p = m !! p.
Proof.
  intros Hne Hs. unfold stat. rewrite bool_decide_eq_false_2 by done. by rewrite Hs.
Qed.

Lemma stat_file (m : gmap (list N) node) p data :
  stat m p = Some (File data) →
  p ≠ [] ∧ PyPath.all_slash p = false ∧ m !! p = Some (File data).
Proof. unfold stat. repeat case_match; try done. by case_bool_decide. Qed.

Lemma isfile_stat (m : gmap (list N) node) p :
  isfile m p = true ↔ ∃ data, stat m p = Some (File data).
Proof. unfold isfile. repeat case_match; naive_solver. Qed.

Lemma isdir_stat (m : gmap (list N) node) p : isdir m p = true ↔ stat m p = Some Dir.
Proof. unfold isdir. repeat case_match; naive_solver. Qed.

Lemma path_exists_stat (m : gmap (list N) node) p :
  path_exists m p = true ↔ is_Some (stat m p).
Proof. unfold path_exists. apply bool_decide_eq_true. Qed.

(** Opening for writing touches one key, which then holds an empty
    file. *)
Lemma open_w_inr (m m' : gmap (list N) node) p :
  open_w m p = inr m' →
  m' = <[p := File []]> m ∧ p ≠ [] ∧ PyPath.all_slash p = false ∧ m !! p ≠ Some Dir.
Proof.
  unfold open_w. destruct (stat m p) as [[data|]|] eqn:Hst; [| done |].
  - intros [= <-]. apply stat_file in Hst as (? & ? & Hl). by rewrite Hl.
  - case_match eqn:Hc; [|done]. intros [= <-].
    apply andb_true_iff in Hc as [Hne _]. apply bool_decide_eq_true in Hne.
    unfold stat in Hst. rewrite bool_decide_eq_false_2 in Hst by done.
    destruct (PyPath.all_slash p); [done|]. by rewrite Hst.
Qed.

Lemma open_w_inl (m : gmap (list N) node) p e : open_w m p = inl e → e ≠ UnicodeEncodeError.
Proof. unfold open_w. repeat case_match; naive_solver. Qed.

(** A successful copy reads a regular file and writes its bytes to the
    target, a different path. *)
Lemma copy2_inr (m m' : gmap (list N) node) src dst :
  copy2 m src dst = inr m' →
  ∃ data, stat m src = Some (File data) ∧
          copy2_target m src dst ≠ src ∧
          m !! copy2_target m src dst ≠ Some Dir ∧
          m' = <[copy2_target m src dst := File data]> m.
Proof.
  unfold copy2, read_bytes, store.
  destruct (stat m src) as [[data|]|] eqn:Hst; repeat case_match; try done.
  intros [= <-]. exists data.
  match goal with H : open_w _ _ = inr _ |- _ => apply open_w_inr in H as (-> & _ & _ & ?) end.
  split_and!; [done | | done | by rewrite insert_insert_eq].
  intros Heq.
  match goal with H : _ && _ = false |- _ => apply andb_false_iff in H as [H|H] end.
  - by apply bool_decide_eq_false in H.
  - assert (path_exists m src = true) by (apply path_exists_stat; by rewrite Hst).
    congruence.
Qed.

Lemma prefixes_proper acc d q :
  q ∈ prefixes acc d → (q ≠ [] ∧ PyPath.all_slash q = false) ∨ q = acc ++ d.
Proof.
  revert acc. induction d as [|c d IH]; intros acc; simpl.
  - intros ->%list_elem_of_singleton. right. by rewrite app_nil_r.
  - rewrite elem_of_app. intros [Hq|Hq].
    + case_match eqn:Hc; [|by apply not_elem_of_nil in Hq].
      apply list_elem_of_singleton in Hq as ->.
      apply andb_true_iff in Hc as [Hc Hne]. apply andb_true_iff in Hc as [_ Hs].
      left. split; [|by apply negb_true_iff in Hs].
      apply negb_true_iff, bool_decide_eq_false in Hne. done.
    + apply IH in Hq as [?| ->]; [by left|]. right. by rewrite <- app_assoc.
Qed.

(** [os.makedirs] leaves every regular file as it is and creates no
    regular file. *)
Lemma makedirs_files (m m' : gmap (list N) node) d q data :
  makedirs m d = inr m' → (m' !! q = Some (File data) ↔ m !! q = Some (File data)).
Proof.
  unfold makedirs. case_match eqn:Hd; [by intros [= <-]|].
  apply orb_false_iff in Hd as [Hne Hs]. apply bool_decide_eq_false in Hne.
  destruct (list_find _ _) as [[i x]|] eqn:Hfind; [done|]. intros [= <-].
  apply list_find_None in Hfind.
  assert (Hps : Forall (fun x => x ≠ [] ∧ PyPath.all_slash x = false) (prefixes [] d)).
  { apply Forall_forall. intros x Hx. apply prefixes_proper in Hx as [?| ->]; done. }
  revert Hfind Hps. generalize (prefixes [] d). intros ps.
  assert (Hinv : ∀ mm, (∀ k v, mm !! k = Some (File v) ↔ m !! k = Some (File v)) →
    Forall (λ x, ¬ isfile m x = true) ps →
    Forall (λ x, x ≠ [] ∧ PyPath.all_slash x = false) ps →
    (foldl (λ m' q0, if isdir m' q0 then m' else <[q0:=Dir]> m') mm ps !! q
       = Some (File data) ↔ m !! q = Some (File data))).
  { induction ps as [|x ps IHps]; intros mm Hmm Hnf Hpr; [apply Hmm|].
    apply Forall_cons in Hnf as [Hx Hnf]. apply Forall_cons in Hpr as [[Hx1 Hx2] Hpr].
    simpl. apply IHps; [|done|done].
    destruct (isdir mm x); [done|]. intros k v.
    destruct (decide (x = k)) as [->|Hk].
    - rewrite lookup_insert_eq. split; [done|]. intros Hf. exfalso. apply Hx.
      apply isfile_stat. exists v. by rewrite stat_lookup.
    - by rewrite lookup_insert_ne. }
  intros Hnf Hps. by apply Hinv.
Qed.

(** Writing a text file: on success the target holds the encoded text; a
    failure of the encoder leaves it empty; a failure to open leaves the
    file system as it was. *)
Lemma write_text_cases (m m' : gmap (list N) node) p s oe :
  write_text m p s = (oe, m') →
  (∃ b, oe = None ∧ Codec.utf8_encode s = Some b ∧ m' = <[p := File b]> m ∧
        m !! p ≠ Some Dir) ∨
  (oe = Some UnicodeEncodeError ∧ Codec.utf8_encode s = None ∧ m' = <[p := File []]> m ∧
   m !! p ≠ Some Dir) ∨
  (∃ e, oe = Some e ∧ e ≠ UnicodeEncodeError ∧ m' = m).
Proof.
  unfold write_text, store. destruct (open_w m p) as [e|m1] eqn:Ho.
  - intros [= <- <-]. right; right. exists e. split_and!; try done. by eapply open_w_inl.
  - apply open_w_inr in Ho as (-> & ? & ? & ?).
    destruct (Codec.utf8_encode s) as [b|]; intros [= <- <-].
    + left. exists b. by rewrite insert_insert_eq.
    + right; left. done.
Qed.

Lemma backup_path_proper (p : list N) :
  p ++ py ".backup" ≠ p ∧ p ++ py ".backup" ≠ [] ∧ PyPath.all_slash (p ++ py ".backup") = false.
Proof.
  split_and!.
  - intros Heq. apply (f_equal length) in Heq. rewrite length_app in Heq.
    simpl in Heq. lia.
  - by destruct p.
  - unfold PyPath.all_slash. rewrite forallb_app. apply andb_false_iff. by right.
Qed.

End OSFacts.

(** ** The orchestrator *)

Ltac bool_facts :=
  repeat match goal with
  | H : negb _ = true |- _ => apply negb_true_iff in H
  | H : negb _ = false |- _ => apply negb_false_iff in H
  | H : bool_decide _ = true |- _ => apply bool_decide_eq_true in H
  | H : bool_decide _ = false |- _ => apply bool_decide_eq_false in H
  | H : _ && _ = true |- _ => apply andb_true_iff in H as [? ?]
  end.

Section OrchestratorFacts.
Context `{Codecs} `{Bs4} `{Unicode} `{ReTemplate}.

(** The stages of [replace_urls_in_file] written out. *)
Lemma replace_urls_in_file_stages m file_path url_mapping output_path backup :
  replace_urls_in_file m file_path url_mapping output_path backup =
  let r0 := mk_result file_path (py_or output_path file_path) false 0 None None in
  let output_file := py_or output_path file_path in
  let backup_path := file_path ++ py ".backup" in
  if negb (OS.path_exists m file_path) then
    (set_error (FileNotFoundError (msg_missing ++ file_path)) r0, m)
  else if bool_decide (url_mapping = []) then
    (set_error (ValueError msg_empty_mapping) r0, m)
  else
    match (if backup && bool_decide (output_path = None ∨ output_path = Some file_path)
           then match OS.copy2 m file_path backup_path with
                | inl e => inl e
                | inr m1 => inr (set_backup_path backup_path r0, m1)
                end
           else inr (r0, m)) with
    | inl e => (set_error e r0, m)
    | inr (r1, m1) =>
        match read_content m1 file_path with
        | inl e => (set_error e r1, m1)
        | inr content =>
            match dispatch file_path content url_mapping with
            | inl e => (set_error e r1, m1)
            | inr (new_content, n) =>
                match OS.makedirs m1 (PyPath.dirname output_file) with
                | inl e => (set_error e r1, m1)
                | inr m2 =>
                    match write_text m2 output_file new_content with
                    | (Some e, m3) => (set_error e r1, m3)
                    | (None, m3) => (set_success n r1, m3)
                    end
                end
            end
        end
    end.
Proof.
  unfold replace_urls_in_file, replace_body, mbind, io_bind, IO.bind, IO.ask, IO.raise,
    IO.ret, IO.os, IO.try, IO.lift, IO.write, IO.update.
  cbn [fst snd].
  destruct (OS.path_exists m file_path); cbn [negb]; [|done].
  case_bool_decide; [done|].
  destruct (backup && bool_decide (output_path = None ∨ output_path = Some file_path)).
  - cbn [fst snd]. destruct (OS.copy2 m file_path (file_path ++ py ".backup")); [done|].
    cbn [fst snd]. destruct (read_content _ file_path); [done|].
    destruct (dispatch file_path _ url_mapping) as [?|[? ?]]; [done|].
    cbn [fst snd]. destruct (OS.makedirs _ _); [done|]. cbn [fst snd].
    by destruct (write_text _ _ _) as [[?|] ?].
  - cbn [fst snd]. destruct (read_content _ file_path); [done|].
    destruct (dispatch file_path _ url_mapping) as [?|[? ?]]; [done|].
    cbn [fst snd]. destruct (OS.makedirs _ _); [done|]. cbn [fst snd].
    by destruct (write_text _ _ _) as [[?|] ?].
Qed.

(** The steps that follow the backup, one by one. *)
Lemma steps_after_backup (m1 : gmap (list N) node) (r1 : result) (p : list N)
    (url_mapping : list (list N * list N)) (output_file : list N) (r : result)
    (m' : gmap (list N) node) :
  r1.(success) = false →
  match read_content m1 p with
  | inl e => (set_error e r1, m1)
  | inr content =>
      match dispatch p content url_mapping with
      | inl e => (set_error e r1, m1)
      | inr (new_content, n) =>
          match OS.makedirs m1 (PyPath.dirname output_file) with
          | inl e => (set_error e r1, m1)
          | inr m2 =>
              match write_text m2 output_file new_content with
              | (Some e, m3) => (set_error e r1, m3)
              | (None, m3) => (set_success n r1, m3)
              end
          end
      end
  end = (r, m') →
  (∀ m1' e, @inr exn _ m1 = inr m1' → read_content m1' p = inl e →
     r.(success) = false ∧ r.(error) = Some e ∧ m' = m1') ∧
  (∀ m1' content e, @inr exn _ m1 = inr m1' → read_content m1' p = inr content →
     dispatch p content url_mapping = inl e →
     r.(success) = false ∧ r.(error) = Some e ∧ m' = m1') ∧
  (∀ m1' content new_content n e, @inr exn _ m1 = inr m1' →
     read_content m1' p = inr content →
     dispatch p content url_mapping = inr (new_content, n) →
     OS.makedirs m1' (PyPath.dirname output_file) = inl e →
     r.(success) = false ∧ r.(error) = Some e ∧ m' = m1') ∧
  (∀ m1' content new_content n m2 e m3, @inr exn _ m1 = inr m1' →
     read_content m1' p = inr content →
     dispatch p content url_mapping = inr (new_content, n) →
     OS.makedirs m1' (PyPath.dirname output_file) = inr m2 →
     write_text m2 output_file new_content = (Some e, m3) →
     r.(success) = false ∧ r.(error) = Some e ∧ m' = m3) ∧
  (r.(success) = true ↔
   ∃ m1' content new_content n m2,
     @inr exn _ m1 = inr m1' ∧
     read_content m1' p = inr content ∧
     dispatch p content url_mapping = inr (new_content, n) ∧
     OS.makedirs m1' (PyPath.dirname output_file) = inr m2 ∧
     write_text m2 output_file new_content = (None, m') ∧
     r.(replacements) = n).
Proof.
  intros Hr1 Hrun.
  destruct (read_content m1 p) as [e1|content] eqn:Hread.
  { simplify_eq/=. split_and!; try (intros; simplify_eq/=; split_and?; first [done | congruence]).
    split; [congruence|]. intros (? & ? & ? & ? & ? & ? & ? & ? & ? & ? & ?). simplify_eq/=; congruence. }
  destruct (dispatch p content url_mapping) as [e2|[new_content n]] eqn:Hd.
  { simplify_eq/=. split_and!; try (intros; simplify_eq/=; split_and?; first [done | congruence]).
    split; [congruence|]. intros (? & ? & ? & ? & ? & ? & ? & ? & ? & ? & ?). simplify_eq/=; congruence. }
  destruct (OS.makedirs m1 (PyPath.dirname output_file)) as [e3|m2] eqn:Hmk.
  { simplify_eq/=. split_and!; try (intros; simplify_eq/=; split_and?; first [done | congruence]).
    split; [congruence|]. intros (? & ? & ? & ? & ? & ? & ? & ? & ? & ? & ?). simplify_eq/=; congruence. }
  destruct (write_text m2 output_file new_content) as [[e4|] m3] eqn:Hw.
  { simplify_eq/=. split_and!; try (intros; simplify_eq/=; split_and?; first [done | congruence]).
    split; [congruence|]. intros (? & ? & ? & ? & ? & ? & ? & ? & ? & ? & ?). simplify_eq/=; congruence. }
  simplify_eq/=. split_and!; try (intros; simplify_eq/=; split_and?; first [done | congruence]).
  split; [|done]. intros _. by exists m1, content, new_content, n, m2.
Qed.

End OrchestratorFacts.


(** C3.  [replace_urls_in_file] always returns a result and raises
    nothing: for a path that does not exist the result is a failure
    carrying the FileNotFoundError, for an existing path and an empty
    mapping a failure carrying the ValueError; past these checks, an
    exception raised by the backup copy, by reading the file, by the
    strategy that transforms the content, by creating the output
    directory or by writing the output gives a result with success false
    that carries this exception as its error; a result has success false
    exactly when it has an error, and success true exactly when every
    step went through. *)
Theorem per_file_error_containment `{Codecs} `{Bs4} `{Unicode} `{ReTemplate}
  (m : gmap (list N) node) (p : list N) (url_mapping : list (list N * list N))
  (output : option (list N)) (backup : bool) :
  ∃ r m', replace_urls_in_file m p url_mapping output backup = (r, m') ∧
    (OS.path_exists m p = false →
       r.(success) = false ∧ m' = m ∧
       r.(error) = Some (FileNotFoundError (msg_missing ++ p))) ∧
    (OS.path_exists m p = true → url_mapping = [] →
       r.(success) = false ∧ m' = m ∧ r.(error) = Some (ValueError msg_empty_mapping)) ∧
    (r.(success) = false ↔ ∃ e, r.(error) = Some e) ∧
    (OS.path_exists m p = true → url_mapping ≠ [] →
       (∀ e, backup_step m p output backup = inl e →
          r.(success) = false ∧ r.(error) = Some e ∧ m' = m) ∧
       (∀ m1 e, backup_step m p output backup = inr m1 →
          read_content m1 p = inl e →
          r.(success) = false ∧ r.(error) = Some e ∧ m' = m1) ∧
       (∀ m1 content e, backup_step m p output backup = inr m1 →
          read_content m1 p = inr content →
          dispatch p content url_mapping = inl e →
          r.(success) = false ∧ r.(error) = Some e ∧ m' = m1) ∧
       (∀ m1 content new_content n e, backup_step m p output backup = inr m1 →
          read_content m1 p = inr content →
          dispatch p content url_mapping = inr (new_content, n) →
          OS.makedirs m1 (PyPath.dirname (py_or output p)) = inl e →
          r.(success) = false ∧ r.(error) = Some e ∧ m' = m1) ∧
       (∀ m1 content new_content n m2 e m3, backup_step m p output backup = inr m1 →
          read_content m1 p = inr content →
          dispatch p content url_mapping = inr (new_content, n) →
          OS.makedirs m1 (PyPath.dirname (py_or output p)) = inr m2 →
          write_text m2 (py_or output p) new_content = (Some e, m3) →
          r.(success) = false ∧ r.(error) = Some e ∧ m' = m3) ∧
       (r.(success) = true ↔
        ∃ m1 content new_content n m2,
          backup_step m p output backup = inr m1 ∧
          read_content m1 p = inr content ∧
          dispatch p content url_mapping = inr (new_content, n) ∧
          OS.makedirs m1 (PyPath.dirname (py_or output p)) = inr m2 ∧
          write_text m2 (py_or output p) new_content = (None, m') ∧
          r.(replacements) = n)).
Proof.
  destruct (replace_urls_in_file m p url_mapping output backup) as [r m'] eqn:Hrun.
  exists r, m'. split; [done|].
  rewrite replace_urls_in_file_stages in Hrun. cbv zeta in Hrun.
  split_and!.
  - intros Hex. rewrite Hex in Hrun. by simplify_eq/=.
  - intros Hex ->. rewrite Hex in Hrun. by simplify_eq/=.
  - repeat case_match; simplify_eq/=; (split; [eauto | done]) || (split; [done | by intros [? ?]]).
  - intros Hex Hne. rewrite Hex in Hrun. cbn [negb] in Hrun.
    rewrite bool_decide_eq_false_2 in Hrun by done.
    unfold backup_step.
    destruct (backup && bool_decide (output = None ∨ output = Some p)).
    + destruct (OS.copy2 m p (p ++ py ".backup")) as [e0|m0].
      * simplify_eq/=. split_and!; try (intros; simplify_eq/=; split_and?; first [done | congruence]).
        split; [done|]. intros (? & ? & ? & ? & ? & ? & _). simplify_eq/=.
      * split; [done|].
        eapply (steps_after_backup m0 _ p url_mapping (py_or output p) r m');
          [|exact Hrun]. done.
    + split; [done|].
      eapply (steps_after_backup m _ p url_mapping (py_or output p) r m');
        [|exact Hrun]. done.
Qed.

Section FailureFacts.
Context `{Codecs} `{Bs4} `{Unicode} `{ReTemplate}.


End FailureFacts.




(** ** Backup and restore *)

(** Restoring over a regular file from a backup that is a regular
    file. *)
Lemma restore_from_backup_ok (m : gmap (list N) node) p data b :
  OS.stat m (p ++ py ".backup") = Some (File data) →
  OS.stat m p = Some (File b) →
  restore_from_backup m p = (true, <[p := File data]> m).
Proof.
  intros Hb Hp. unfold restore_from_backup.
  assert (OS.path_exists m (p ++ py ".backup") = true) as ->
    by (apply OSFacts.path_exists_stat; by rewrite Hb).
  cbn [negb]. unfold OS.copy2, OS.copy2_target, OS.isdir, OS.read_bytes, OS.open_w, OS.store.
  rewrite Hp, Hb.
  rewrite bool_decide_eq_false_2; [|intros Heq; symmetry in Heq;
                                     by apply OSFacts.backup_path_proper in Heq].
  cbn [andb]. rewrite Hp. by rewrite insert_insert_eq.
Qed.

(** C2, as it holds.  Provided the name of the backup, the path followed
    by ".backup", is not that of an existing directory: after a
    successful in-place replacement with backup, [restore_from_backup]
    returns true and the file holds the bytes it held before the
    replacement; a second call returns true again and changes nothing. *)
Theorem backup_restore_round_trip `{Codecs} `{Bs4} `{Unicode} `{ReTemplate}
  (m : gmap (list N) node) (p : list N) (url_mapping : list (list N * list N))
  (r : result) (m1 : gmap (list N) node)
  (Hrun : replace_urls_in_file m p url_mapping None true = (r, m1))
  (Hok : r.(success) = true)
  (Hfree : OS.isdir m (p ++ py ".backup") = false) :
  url_mapping ≠ [] ∧
  ∃ data m2,
    OS.stat m p = Some (File data) ∧
    restore_from_backup m1 p = (true, m2) ∧
    OS.stat m2 p = Some (File data) ∧
    restore_from_backup m2 p = (true, m2).
Proof.
  rewrite replace_urls_in_file_stages in Hrun. cbv zeta in Hrun.
  destruct (negb (OS.path_exists m p)); [by simplify_eq/=|].
  case_bool_decide as HM; [by simplify_eq/=|]. split; [done|].
  rewrite bool_decide_eq_true_2 in Hrun by by left. cbn [andb] in Hrun.
  destruct (OS.copy2 m p (p ++ py ".backup")) as [e|ma] eqn:Hcp; [by simplify_eq/=|].
  apply OSFacts.copy2_inr in Hcp as (data & Hst & _ & _ & ->).
  unfold OS.copy2_target in Hrun. rewrite Hfree in Hrun.
  destruct (read_content _ p) as [e|content]; [by simplify_eq/=|].
  destruct (dispatch p content url_mapping) as [e|[new_content n]]; [by simplify_eq/=|].
  destruct (OS.makedirs _ _) as [e|mb] eqn:Hmk; [by simplify_eq/=|].
  destruct (write_text mb _ new_content) as [[e|] mc] eqn:Hw; [by simplify_eq/=|].
  apply OSFacts.write_text_cases in Hw as [(b & _ & _ & -> & _)|[(? & _)|(? & ? & _)]];
    [|done|done].
  simplify_eq/=.
  destruct (OSFacts.stat_file _ _ _ Hst) as (Hp1 & Hp2 & Hlp).
  destruct (OSFacts.backup_path_proper p) as (Hb0 & Hb1 & Hb2).
  set (m1 := <[p := File b]> mb).
  assert (Hbk : ∀ mm, mm !! (p ++ py ".backup") = Some (File data) →
                      OS.stat mm (p ++ py ".backup") = Some (File data)).
  { intros mm Hmm. by rewrite OSFacts.stat_lookup. }
  assert (Hm1b : m1 !! (p ++ py ".backup") = Some (File data)).
  { unfold m1. rewrite lookup_insert_ne by done.
    apply (OSFacts.makedirs_files _ _ _ _ _ Hmk). by rewrite lookup_insert_eq. }
  exists data, (<[p := File data]> m1). split_and!.
  - done.
  - apply (restore_from_backup_ok _ _ _ b); [by apply Hbk|].
    rewrite OSFacts.stat_lookup by done. unfold m1. by rewrite lookup_insert_eq.
  - rewrite OSFacts.stat_lookup by done. by rewrite lookup_insert_eq.
  - rewrite (restore_from_backup_ok _ _ data data).
    + by rewrite insert_insert_eq.
    + apply Hbk. by rewrite lookup_insert_ne.
    + rewrite OSFacts.stat_lookup by done. by rewrite lookup_insert_eq.
Qed.

Lemma backup_restore_round_trip_witness :
  let run := Example.replace_file Example.one_file (py "a.txt") Example.mapping None true in
  Example.mapping ≠ [] ∧
  ∃ data m2,
    OS.stat Example.one_file (py "a.txt") = Some (File data) ∧
    restore_from_backup run.2 (py "a.txt") = (true, m2) ∧
    OS.stat m2 (py "a.txt") = Some (File data) ∧
    restore_from_backup m2 (py "a.txt") = (true, m2).
Proof.
  intros run.
  apply (@backup_restore_round_trip Fixture.codecs (Fixture.bs4 Example.old_url)
           Fixture.unicode Fixture.templates Example.one_file (py "a.txt")
           Example.mapping run.1 run.2).
  - apply surjective_pairing.
  - vm_compute. reflexivity.
  - vm_compute. reflexivity.
Defined.

(** C2 as stated fails where a directory has the name of the backup:
    [shutil.copy2] then puts the copy inside that directory, the
    replacement succeeds and reports the directory as the backup, and
    [restore_from_backup], asked to copy a directory, returns false and
    leaves the rewritten file. *)
Lemma restore_shadowed_counterexample :
  let run := Example.replace_file Example.shadowed (py "a.txt") Example.mapping None true in
  run.1.(success) = true ∧
  run.1.(backup_path) = Some (py "a.txt.backup") ∧
  Example.shadowed !! py "a.txt" = Some (File (Fixture.ascii "x http://a/1.jpg")) ∧
  run.2 !! py "a.txt" = Some (File (Fixture.ascii "x http://b/1.jpg")) ∧
  run.2 !! py "a.txt.backup/a.txt" = Some (File (Fixture.ascii "x http://a/1.jpg")) ∧
  (restore_from_backup run.2 (py "a.txt")).1 = false ∧
  (restore_from_backup run.2 (py "a.txt")).2 !! py "a.txt"
    = Some (File (Fixture.ascii "x http://b/1.jpg")).
Proof. split_and!; by vm_compute. Qed.

(** ** The HTML strategy *)

Module DictFacts.
Import Dict.

Lemma get_set k k' v d : get k (set k' v d) = if decide (k' = k) then Some v else get k d.
Proof.
  induction d as [|[a b] d IH]; simpl.
  - by destruct (decide (k' = k)).
  - destruct (decide (a = k')) as [->|Ha]; simpl.
    + by destruct (decide (k' = k)).
    + destruct (decide (a = k)) as [->|Hk]; [|done].
      by rewrite decide_False by congruence.
Qed.

(** Lookup is by equality with a key. *)
Lemma get_Some k v d : get k d = Some v → (k, v) ∈ d.
Proof.
  induction d as [|[a b] d IH]; simpl; [done|].
  destruct (decide (a = k)) as [->|_].
  - intros [= ->]. left.
  - intros Hg. right. by apply IH.
Qed.

Lemma get_None k d : get k d = None ↔ k ∉ d.*1.
Proof.
  induction d as [|[a b] d IH]; simpl.
  - split; [intros _; apply not_elem_of_nil | done].
  - rewrite not_elem_of_cons. destruct (decide (a = k)) as [->|Hk].
    + split; [done | by intros [? _]].
    + rewrite IH. split; [by intros ?; split; [congruence|] | by intros [_ ?]].
Qed.

End DictFacts.

Module HtmlFacts.
Import Html.

(** Induction over trees, with the hypothesis for every child of a tag. *)
Lemma html_tree_ind (P : html → Prop)
  (HStr : ∀ c s, P (Str c s))
  (HTag : ∀ name attrs cs, Forall P cs → P (Tag name attrs cs)) :
  ∀ h, P h.
Proof.
  fix IH 1. intros [c s|name attrs cs]; [apply HStr|].
  apply HTag. induction cs as [|x l IHl]; constructor; [apply IH | apply IHl].
Qed.

Lemma visit_Tag f name attrs cs :
  visit f (Tag name attrs cs)
  = let r := visit_all f cs in
    let '(h', n) := f name attrs cs r.1 in (h', n + r.2).
Proof.
  cbn [visit].
  assert (Heq : ∀ l, (fix go (l : list html) : list html * nat :=
                        match l with
                        | [] => ([], 0)
                        | x :: l' =>
                            let '(x', a) := visit f x in
                            let '(l'', b) := go l' in (x' :: l'', a + b)
                        end) l = visit_all f l).
  { induction l as [|x l IH]; [done|]. cbn [visit_all]. by rewrite IH. }
  by rewrite Heq.
Qed.

Lemma imgs_of_Tag name attrs cs :
  imgs_of (Tag name attrs cs)
  = (if bool_decide (name = py "img") then [attrs] else []) ++ imgs cs.
Proof.
  reflexivity.
Qed.

Lemma replace_attr_other M name k st :
  k ≠ name → Dict.get k (replace_attr M name st).1 = Dict.get k st.1.
Proof.
  intros Hk. destruct st as [attrs n]. unfold replace_attr.
  repeat case_match; simplify_eq/=; try done.
  rewrite DictFacts.get_set. by rewrite decide_False by done.
Qed.

Lemma replace_attr_self M name attrs n v :
  Dict.get name attrs = Some v →
  Dict.get name (replace_attr M name (attrs, n)).1
  = Some (if bool_decide (v ≠ []) then default v (Dict.get v M) else v).
Proof.
  intros Hv. unfold replace_attr. rewrite Hv.
  case_bool_decide; [|done]. destruct (Dict.get v M) as [new|]; [|done].
  cbn [fst default]. rewrite DictFacts.get_set. by rewrite decide_True.
Qed.

Lemma replace_attr_count M name attrs n :
  (replace_attr M name (attrs, n)).2 = n + (if replaced M attrs name then 1 else 0).
Proof.
  unfold replace_attr, replaced. destruct (Dict.get name attrs) as [v|]; [|simpl; lia].
  case_bool_decide; [|simpl; lia].
  destruct (Dict.get v M); simpl; lia.
Qed.

Lemma src_ne_data_src : py "src" ≠ py "data-src".
Proof. done. Qed.

(** The loop over the images rewrites the attribute dictionaries of the
    image tags, one by one, and adds up their counts. *)
Lemma img_loop_tree M h :
  imgs_of (visit (img_tag M) h).1 = (fun a => (img_attrs M a).1) <$> imgs_of h ∧
  (visit (img_tag M) h).2 = sum_list ((fun a => (img_attrs M a).2) <$> imgs_of h).
Proof.
  induction h as [c s|name attrs cs IH] using html_tree_ind; [done|].
  assert (Hall : imgs (visit_all (img_tag M) cs).1
                 = (fun a => (img_attrs M a).1) <$> imgs cs ∧
                 (visit_all (img_tag M) cs).2
                 = sum_list ((fun a => (img_attrs M a).2) <$> imgs cs)).
  { induction IH as [|x l [Hx1 Hx2] _ [IH1 IH2]]; [done|].
    cbn [visit_all]. destruct (visit (img_tag M) x) as [x' a].
    destruct (visit_all (img_tag M) l) as [l' b]. cbn [fst snd imgs] in *.
    rewrite !fmap_app, sum_list_with_app, Hx1, IH1, Hx2, IH2. done. }
  destruct Hall as [Hall1 Hall2].
  rewrite visit_Tag, imgs_of_Tag. cbv zeta.
  generalize dependent (visit_all (img_tag M) cs). intros r Hall1 Hall2.
  unfold img_tag. case_bool_decide as Hname.
  - destruct (img_attrs M attrs) as [attrs' n] eqn:Hattrs. cbn [fst snd].
    rewrite imgs_of_Tag, bool_decide_eq_true_2 by done.
    rewrite Hall1, Hall2. cbn [app fmap list_fmap sum_list]. by rewrite Hattrs.
  - cbn [fst snd]. rewrite imgs_of_Tag, bool_decide_eq_false_2 by done.
    by rewrite Hall1, Hall2.
Qed.

Lemma img_loop M soup :
  imgs (visit_all (img_tag M) soup).1 = (fun a => (img_attrs M a).1) <$> imgs soup ∧
  (visit_all (img_tag M) soup).2 = sum_list ((fun a => (img_attrs M a).2) <$> imgs soup).
Proof.
  induction soup as [|x l [IH1 IH2]]; [done|].
  destruct (img_loop_tree M x) as [Hx1 Hx2].
  cbn [visit_all]. destruct (visit (img_tag M) x) as [x' a].
  destruct (visit_all (img_tag M) l) as [l' b]. cbn [fst snd imgs] in *.
  by rewrite !fmap_app, sum_list_with_app, Hx1, IH1, Hx2, IH2.
Qed.

End HtmlFacts.

(** C4, as it holds.  In the tree that the parser returns, the loop over
    the images replaces the src and the data-src attribute of an image by
    the value of the mapping exactly when the attribute is not empty and
    equal to a key; an attribute that is no key stays as it is, whatever
    keys it contains, and so does every other attribute; every replaced
    attribute counts 1, per image and over the whole document.  The
    strategy returns the serialisation of the rewritten tree with the
    count of the three loops.  For the tree of one image with src
    http://a/1.jpg and the mapping of that URL to http://b/1.jpg, the
    rewritten tree is the image with src http://b/1.jpg and the count is
    1; BeautifulSoup writes this tree as the image tag closed by a slash,
    and that text, with the count 1, is what the strategy returns for the
    document of the image tag. *)
Theorem html_strategy_image_attributes `{Bs4} (url_mapping : list (list N * list N)) :
  (∀ attrs name v,
     name ∈ [py "src"; py "data-src"] → Dict.get name attrs = Some v →
     Dict.get name (Html.img_attrs url_mapping attrs).1
     = Some (if bool_decide (v ≠ []) then default v (Dict.get v url_mapping) else v)) ∧
  (∀ attrs name v,
     name ∈ [py "src"; py "data-src"] → Dict.get name attrs = Some v →
     v ∉ url_mapping.*1 →
     Dict.get name (Html.img_attrs url_mapping attrs).1 = Some v) ∧
  (∀ attrs k,
     k ∉ [py "src"; py "data-src"] →
     Dict.get k (Html.img_attrs url_mapping attrs).1 = Dict.get k attrs) ∧
  (∀ attrs,
     (Html.img_attrs url_mapping attrs).2
     = length (filter (fun name => replaced url_mapping attrs name = true)
                 [py "src"; py "data-src"])) ∧
  (∀ soup,
     imgs (Html.visit_all (Html.img_tag url_mapping) soup).1
     = (fun a => (Html.img_attrs url_mapping a).1) <$> imgs soup ∧
     (Html.visit_all (Html.img_tag url_mapping) soup).2
     = sum_list ((fun a => (Html.img_attrs url_mapping a).2) <$> imgs soup)) ∧
  (∀ content soup out,
     bs4_parse content = inr soup →
     bs4_str (html_rewrite url_mapping soup).1 = inr out →
     _replace_urls_in_html content url_mapping = (out, (html_rewrite url_mapping soup).2)) ∧
  html_rewrite Example.mapping [Tag (py "img") [(py "src", Example.old_url)] []]
  = ([Tag (py "img") [(py "src", Example.new_url)] []], 1) ∧
  @_replace_urls_in_html (Fixture.bs4 Example.old_url)
    (Fixture.img_doc Example.old_url) Example.mapping
  = (Fixture.img_doc_written Example.new_url, 1).
Proof.
  assert (Hself : ∀ attrs name v,
    name ∈ [py "src"; py "data-src"] → Dict.get name attrs = Some v →
    Dict.get name (Html.img_attrs url_mapping attrs).1
    = Some (if bool_decide (v ≠ []) then default v (Dict.get v url_mapping) else v)).
  { intros attrs name v Hname Hv. unfold Html.img_attrs.
    apply elem_of_cons in Hname as [->|Hname].
    - rewrite HtmlFacts.replace_attr_other by done.
      by apply HtmlFacts.replace_attr_self.
    - apply list_elem_of_singleton in Hname as ->.
      destruct (Html.replace_attr url_mapping (py "src") (attrs, 0)) as [attrs1 n1] eqn:H1.
      apply HtmlFacts.replace_attr_self.
      change attrs1 with (attrs1, n1).1. rewrite <- H1.
      by rewrite HtmlFacts.replace_attr_other. }
  split_and!.
  - done.
  - intros attrs name v Hname Hv Hkey. rewrite (Hself _ _ _ Hname Hv).
    apply DictFacts.get_None in Hkey. rewrite Hkey. by case_bool_decide.
  - intros attrs k Hk. unfold Html.img_attrs.
    apply not_elem_of_cons in Hk as [Hk1 Hk2]. apply not_elem_of_cons in Hk2 as [Hk2 _].
    by rewrite !HtmlFacts.replace_attr_other.
  - intros attrs. unfold Html.img_attrs.
    pose proof (HtmlFacts.replace_attr_count url_mapping (py "src") attrs 0) as Hc1.
    assert (Ho : replaced url_mapping
                   (Html.replace_attr url_mapping (py "src") (attrs, 0)).1 (py "data-src")
                 = replaced url_mapping attrs (py "data-src")).
    { unfold replaced. by rewrite HtmlFacts.replace_attr_other. }
    destruct (Html.replace_attr url_mapping (py "src") (attrs, 0)) as [attrs1 n1].
    cbn [fst snd] in Hc1, Ho. rewrite HtmlFacts.replace_attr_count, Ho, Hc1.
    rewrite !filter_cons, filter_nil.
    destruct (replaced url_mapping attrs (py "src")),
      (replaced url_mapping attrs (py "data-src")); by repeat case_decide.
  - apply HtmlFacts.img_loop.
  - intros content soup out Hparse Hstr. unfold _replace_urls_in_html.
    rewrite Hparse. destruct (html_rewrite url_mapping soup) as [soup' n].
    cbn [fst snd] in *. by rewrite Hstr.
  - by vm_compute.
  - by vm_compute.
Qed.

(** C4 as stated fails in its instance: for the document of the image tag
    with src http://a/1.jpg the strategy returns the tag closed by a
    slash, a text of 28 characters in which the tag as the claim writes
    it, closed without a slash, does not occur. *)
Lemma html_strategy_serialisation_counterexample :
  let result := @_replace_urls_in_html (Fixture.bs4 Example.old_url)
                  (Fixture.img_doc Example.old_url) Example.mapping in
  Fixture.img_doc Example.old_url
  = py "<img src=" ++ [34%N] ++ py "http://a/1.jpg" ++ [34%N] ++ py ">" ∧
  result.1 = py "<img src=" ++ [34%N] ++ py "http://b/1.jpg" ++ [34%N] ++ py "/>" ∧
  result.2 = 1 ∧
  PyStr.contains (py "<img src=" ++ [34%N] ++ py "http://b/1.jpg" ++ [34%N] ++ py ">")
    result.1 = false.
Proof. by vm_compute. Qed.

(** ** The Markdown strategy *)

Section MarkdownFacts.
Context `{Unicode} `{ReTemplate}.








(** The pattern for embedded images starts with "<": it matches nowhere
    in a text none of whose characters folds like "<". *)
Lemma findall_img_none old s skip :
  Forall (fun c => Re.char_eq true 60%N c = false) s →
  Re.findall_from true img_open old img_close s skip = [].
Proof.
  intros Hs. revert skip. induction Hs as [|c s Hc Hs IH]; intros skip.
  - by destruct skip.
  - destruct skip; cbn [Re.findall_from]; [|apply IH].
    assert (Re.match_at true img_open old img_close (c :: s) = None) as ->; [|apply IH].
    unfold Re.match_at, img_open. cbn [Re.matches]. change (py "<img") with (60%N :: py "img").
    cbn [Re.lit]. by rewrite Hc.
Qed.

End MarkdownFacts.

(** On ASCII texts the matcher needs to know the case folding of the
    ASCII characters only. *)
Section AsciiFacts.
Context `{U : Unicode}.
Hypothesis Hfold : ∀ c, (c < 128)%N → casefold c = Fixture.lower_char c.











End AsciiFacts.




(** ** The directory walker *)

Module KindFacts.
Import OS.

Lemma keeps_entries_refl m : keeps_entries m m.
Proof. intros q n Hq. exists n. split; [done | by destruct n]. Qed.

Lemma keeps_entries_trans m1 m2 m3 :
  keeps_entries m1 m2 → keeps_entries m2 m3 → keeps_entries m1 m3.
Proof.
  intros H12 H23 q n Hq. destruct (H12 q n Hq) as (n2 & Hq2 & Hk2).
  destruct (H23 q n2 Hq2) as (n3 & Hq3 & Hk3). exists n3. split; [done|].
  by destruct n, n2, n3.
Qed.

Lemma keeps_entries_insert_file (m : gmap (list N) node) p data :
  m !! p ≠ Some Dir → keeps_entries m (<[p := File data]> m).
Proof.
  intros Hp q n Hq. destruct (decide (p = q)) as [->|Hne].
  - rewrite lookup_insert_eq. exists (File data). split; [done|]. by destruct n.
  - rewrite lookup_insert_ne by done. exists n. split; [done | by destruct n].
Qed.

(** [os.makedirs] leaves every entry as it is. *)
Lemma makedirs_keeps (m m' : gmap (list N) node) d :
  makedirs m d = inr m' → ∀ q n, m !! q = Some n → m' !! q = Some n.
Proof.
  unfold makedirs. case_match eqn:Hd; [by intros [= <-]|].
  apply orb_false_iff in Hd as [Hne Hs]. apply bool_decide_eq_false in Hne.
  destruct (list_find _ _) as [[i x]|] eqn:Hfind; [done|]. intros [= <-].
  apply list_find_None in Hfind.
  assert (Hps : Forall (fun x => x ≠ [] ∧ PyPath.all_slash x = false) (prefixes [] d)).
  { apply Forall_forall. intros x Hx. apply OSFacts.prefixes_proper in Hx as [?| ->]; done. }
  revert Hfind Hps. generalize (prefixes [] d). intros ps Hnf Hpr.
  assert (Hinv : ∀ mm, (∀ q n, m !! q = Some n → mm !! q = Some n) →
    ∀ q n, m !! q = Some n →
      foldl (λ m' q0, if isdir m' q0 then m' else <[q0:=Dir]> m') mm ps !! q = Some n).
  { induction ps as [|x ps IHps]; intros mm Hmm; [done|].
    apply Forall_cons in Hnf as [Hx Hnf]. apply Forall_cons in Hpr as [[Hx1 Hx2] Hpr].
    cbn [foldl]. apply IHps; [done | done |].
    destruct (isdir mm x) eqn:Hdir; [done|]. intros k v Hk.
    destruct (decide (x = k)) as [->|Hxk]; [|rewrite lookup_insert_ne by done; by apply Hmm].
    exfalso. destruct v as [data|].
    - apply Hx. apply OSFacts.isfile_stat. exists data. by rewrite OSFacts.stat_lookup.
    - apply Hmm in Hk. unfold isdir in Hdir. rewrite OSFacts.stat_lookup, Hk in Hdir by done.
      done. }
  by apply Hinv.
Qed.

Lemma makedirs_keeps_entries (m m' : gmap (list N) node) d :
  makedirs m d = inr m' → keeps_entries m m'.
Proof.
  intros Hmk q n Hq. exists n. split; [by eapply makedirs_keeps | by destruct n].
Qed.

Lemma write_text_keeps (m m' : gmap (list N) node) p s oe :
  write_text m p s = (oe, m') → keeps_entries m m'.
Proof.
  intros Hw.
  apply OSFacts.write_text_cases in Hw as [(b & _ & _ & -> & ?)|[(_ & _ & -> & ?)|(e & _ & _ & ->)]].
  - by apply keeps_entries_insert_file.
  - by apply keeps_entries_insert_file.
  - apply keeps_entries_refl.
Qed.

(** An entry that exists keeps its kind. *)
Lemma keeps_isfile m m' q :
  keeps_entries m m' → is_Some (m !! q) → isfile m' q = isfile m q.
Proof.
  intros Hk [n Hq]. destruct (Hk q n Hq) as (n' & Hq' & Hkind).
  unfold isfile, stat. repeat case_match; simplify_eq/=; done.
Qed.

End KindFacts.

Section WalkerFacts.
Context `{Codecs} `{Bs4} `{Unicode} `{ReTemplate} `{Scandir}.

Lemma replace_file_path m p url_mapping output backup :
  (replace_urls_in_file m p url_mapping output backup).1.(file_path) = p.
Proof.
  rewrite replace_urls_in_file_stages. cbv zeta.
  repeat case_match; simplify_eq/=; done.
Qed.

(** Whatever its outcome, [replace_urls_in_file] keeps every entry of the
    file system, a file as a file and a directory as a directory. *)
Lemma replace_keeps_entries m p url_mapping output backup :
  keeps_entries m (replace_urls_in_file m p url_mapping output backup).2.
Proof.
  rewrite replace_urls_in_file_stages. cbv zeta.
  assert (Htail : ∀ m1 r1, keeps_entries m1
    (match read_content m1 p with
     | inl e => (set_error e r1, m1)
     | inr content =>
         match dispatch p content url_mapping with
         | inl e => (set_error e r1, m1)
         | inr (new_content, n) =>
             match OS.makedirs m1 (PyPath.dirname (py_or output p)) with
             | inl e => (set_error e r1, m1)
             | inr m2 =>
                 match write_text m2 (py_or output p) new_content with
                 | (Some e, m3) => (set_error e r1, m3)
                 | (None, m3) => (set_success n r1, m3)
                 end
             end
         end
     end).2).
  { intros m1 r1.
    destruct (read_content m1 p); [apply KindFacts.keeps_entries_refl|].
    destruct (dispatch p _ url_mapping) as [?|[? ?]]; [apply KindFacts.keeps_entries_refl|].
    destruct (OS.makedirs m1 _) as [?|m2] eqn:Hmk; [apply KindFacts.keeps_entries_refl|].
    apply KindFacts.makedirs_keeps_entries in Hmk.
    destruct (write_text m2 _ _) as [oe m3] eqn:Hw.
    apply KindFacts.write_text_keeps in Hw.
    destruct oe; by eapply KindFacts.keeps_entries_trans. }
  destruct (negb (OS.path_exists m p)); [apply KindFacts.keeps_entries_refl|].
  case_bool_decide; [apply KindFacts.keeps_entries_refl|].
  destruct (backup && bool_decide (output = None ∨ output = Some p)); [|apply Htail].
  destruct (OS.copy2 m p (p ++ py ".backup")) as [e|m1] eqn:Hcp;
    [apply KindFacts.keeps_entries_refl|].
  apply OSFacts.copy2_inr in Hcp as (data & _ & _ & Hnd & ->).
  eapply KindFacts.keeps_entries_trans; [|apply Htail].
  by apply KindFacts.keeps_entries_insert_file.
Qed.

(** The loop over the files of one directory of the walk: every file of
    the listing with a supported suffix gets a result, in the order of
    the listing, whatever the outcomes before it. *)
Lemma walk_files_paths directory_path url_mapping output_directory backup root files acc :
  file_path <$> (walk_files directory_path url_mapping output_directory backup root
                   files acc).1
  = (file_path <$> acc.1)
    ++ (PyPath.join root <$> filter (fun f => supported (PyPath.join root f) = true) files).
Proof.
  revert acc. induction files as [|f files IH]; intros acc; cbn [walk_files].
  - by rewrite filter_nil, app_nil_r.
  - rewrite filter_cons. destruct (supported (PyPath.join root f)) eqn:Hs.
    + rewrite decide_True by done.
      pose proof (replace_file_path acc.2 (PyPath.join root f) url_mapping
        match given output_directory with
        | Some out =>
            Some (PyPath.join out (PyPath.relpath (PyPath.join root f) directory_path))
        | None => None
        end backup) as Hfp.
      destruct (replace_urls_in_file _ _ _ _ _) as [r m']. rewrite IH. cbn [fst snd] in *.
      rewrite fmap_app. cbn [fmap list_fmap]. rewrite Hfp, <- app_assoc. done.
    + rewrite decide_False by done. apply IH.
Qed.

End WalkerFacts.

Module ListingFacts.

Lemma join_child d f :
  f ≠ [] → slash ∉ f → PyPath.join d f = PyPath.join d [] ++ f.
Proof.
  intros Hne Hslash. unfold PyPath.join.
  destruct f as [|c f]; [done|]. apply not_elem_of_cons in Hslash as [Hc _].
  cbn [PyStr.startswith]. rewrite decide_False by done.
  destruct (bool_decide (d = []) || PyPath.ends_with_slash d).
  - by rewrite app_nil_r.
  - by rewrite <- app_assoc.
Qed.

Lemma child_name_join d k f : OS.child_name d k = Some f → k = PyPath.join d f.
Proof.
  unfold OS.child_name. destruct (PyStr.startswith _ k) eqn:Hs; [|done].
  apply PyStrFacts.startswith_spec in Hs as [r ->].
  pose proof (drop_app_length (PyPath.join d []) r) as Hd. revert Hd.
  generalize (drop (length (PyPath.join d [])) (PyPath.join d [] ++ r)). intros n ->.
  destruct (bool_decide (r ≠ []) && negb (bool_decide (slash ∈ r))) eqn:Hc; [|done].
  intros [= ->]. apply andb_true_iff in Hc as [Hne Hsl].
  apply bool_decide_eq_true in Hne. apply negb_true_iff, bool_decide_eq_false in Hsl.
  by rewrite (join_child d f).
Qed.

(** The names [os.listdir] returns are those of entries of the file
    system. *)
Lemma children_exist (m : gmap (list N) node) d f :
  f ∈ OS.children m d → is_Some (m !! PyPath.join d f).
Proof.
  unfold OS.children. rewrite list_elem_of_omap. intros ([k v] & Hkv & Hc).
  apply elem_of_map_to_list in Hkv. apply child_name_join in Hc as <-. by exists v.
Qed.

(** A listing holds the names of the entries of the directory, in the
    order of the file system. *)
Lemma listdir_children `{Scandir} (m : gmap (list N) node) d :
  OS.listdir m d ≡ₚ OS.children m d.
Proof. apply scandir_order_perm. Qed.

Lemma listdir_exists `{Scandir} (m : gmap (list N) node) d f :
  f ∈ OS.listdir m d → is_Some (m !! PyPath.join d f).
Proof. rewrite listdir_children. apply children_exist. Qed.

End ListingFacts.

Section DirectoryFacts.
Context `{Codecs} `{Bs4} `{Unicode} `{ReTemplate} `{Scandir}.

(** The loop of the non-recursive branch: every name of the listing that
    is a regular file with a supported suffix gets a result, in the order
    of the listing, whatever the outcomes before it. *)
Lemma list_files_paths (m0 : gmap (list N) node) d url_mapping output_directory backup
  files acc :
  keeps_entries m0 acc.2 →
  (∀ f, f ∈ files → is_Some (m0 !! PyPath.join d f)) →
  file_path <$> (list_files d url_mapping output_directory backup files acc).1
  = (file_path <$> acc.1)
    ++ (PyPath.join d <$>
          filter (fun f => OS.isfile m0 (PyPath.join d f) && supported (PyPath.join d f) = true)
            files).
Proof.
  revert acc. induction files as [|f files IH]; intros acc Hkeep Hex; cbn [list_files].
  - by rewrite filter_nil, app_nil_r.
  - rewrite filter_cons.
    rewrite (KindFacts.keeps_isfile m0 acc.2) by (try done; apply Hex; left).
    assert (Hex' : ∀ f0, f0 ∈ files → is_Some (m0 !! PyPath.join d f0))
      by (intros f0 Hf0; apply Hex; by right).
    destruct (OS.isfile m0 (PyPath.join d f) && supported (PyPath.join d f)) eqn:Hs.
    + rewrite decide_True by done.
      pose proof (replace_file_path acc.2 (PyPath.join d f) url_mapping
        match given output_directory with
        | Some out => Some (PyPath.join out f)
        | None => None
        end backup) as Hfp.
      pose proof (replace_keeps_entries acc.2 (PyPath.join d f) url_mapping
        match given output_directory with
        | Some out => Some (PyPath.join out f)
        | None => None
        end backup) as Hk.
      destruct (replace_urls_in_file _ _ _ _ _) as [r m']. cbn [fst snd] in *.
      rewrite IH; [| by eapply KindFacts.keeps_entries_trans | done]. cbn [fst snd].
      rewrite fmap_app. cbn [fmap list_fmap]. by rewrite Hfp, <- app_assoc.
    + rewrite decide_False by done. by apply IH.
Qed.

Lemma walk_supported fuel directory_path url_mapping output_directory backup top acc res :
  Forall (fun p => supported p = true) (file_path <$> acc.1) →
  walk fuel directory_path url_mapping output_directory backup top acc = Some res →
  Forall (fun p => supported p = true) (file_path <$> res.1).
Proof.
  revert top acc res. induction fuel as [|fuel IH]; intros top acc res Hacc; [done|].
  cbn [walk].
  set (files := filter (λ n, OS.isdir acc.2 (PyPath.join top n) = false) _).
  generalize (filter (λ n, OS.isdir acc.2 (PyPath.join top n) = true)
                (OS.listdir acc.2 top)). intros dirs.
  assert (Hacc1 : Forall (fun p => supported p = true)
    (file_path <$> (walk_files directory_path url_mapping output_directory backup top
                      files acc).1)).
  { rewrite walk_files_paths. apply Forall_app. split; [done|].
    apply Forall_fmap, Forall_forall. intros f Hf.
    by apply list_elem_of_filter in Hf as [Hf _]. }
  revert Hacc1. generalize (walk_files directory_path url_mapping output_directory backup
                              top files acc). clear Hacc.
  induction dirs as [|d dirs IHd]; intros a Ha; cbn [descend].
  - by intros [= <-].
  - destruct (walk fuel _ _ _ _ (PyPath.join top d) a) as [a'|] eqn:Hw; [|done].
    apply IHd. by eapply IH.
Qed.

(** More fuel does not change what a walk returns. *)
Lemma walk_more_fuel fuel directory_path url_mapping output_directory backup top acc res :
  walk fuel directory_path url_mapping output_directory backup top acc = Some res →
  walk (S fuel) directory_path url_mapping output_directory backup top acc = Some res.
Proof.
  revert top acc res. induction fuel as [|fuel IH]; intros top acc res; [done|].
  change (walk (S (S fuel)) directory_path url_mapping output_directory backup top acc)
    with (descend (fun d a => walk (S fuel) directory_path url_mapping output_directory
                                backup (PyPath.join top d) a)
            (filter (λ n, OS.isdir acc.2 (PyPath.join top n) = true) (OS.listdir acc.2 top))
            (walk_files directory_path url_mapping output_directory backup top
               (filter (λ n, OS.isdir acc.2 (PyPath.join top n) = false)
                  (OS.listdir acc.2 top)) acc)).
  change (walk (S fuel) directory_path url_mapping output_directory backup top acc)
    with (descend (fun d a => walk fuel directory_path url_mapping output_directory
                                backup (PyPath.join top d) a)
            (filter (λ n, OS.isdir acc.2 (PyPath.join top n) = true) (OS.listdir acc.2 top))
            (walk_files directory_path url_mapping output_directory backup top
               (filter (λ n, OS.isdir acc.2 (PyPath.join top n) = false)
                  (OS.listdir acc.2 top)) acc)).
  generalize (walk_files directory_path url_mapping output_directory backup top
               (filter (λ n, OS.isdir acc.2 (PyPath.join top n) = false)
                  (OS.listdir acc.2 top)) acc).
  generalize (filter (λ n, OS.isdir acc.2 (PyPath.join top n) = true)
                (OS.listdir acc.2 top)).
  intros ds. induction ds as [|d ds IHd]; intros a; cbn [descend]; [done|].
  destruct (walk fuel _ _ _ _ (PyPath.join top d) a) as [a'|] eqn:Hw; [|done].
  rewrite (IH _ _ _ Hw). apply IHd.
Qed.

(** A descent keeps the results it starts from and adds to them, when
    the walk of each directory does. *)
Lemma descend_extends (walk_dir : list N → list result * gmap (list N) node →
                                  option (list result * gmap (list N) node)) ds a res :
  (∀ d a a', walk_dir d a = Some a' →
     ∃ rest, file_path <$> a'.1 = (file_path <$> a.1) ++ rest) →
  descend walk_dir ds a = Some res →
  ∃ rest, file_path <$> res.1 = (file_path <$> a.1) ++ rest.
Proof.
  intros Hdir. revert a. induction ds as [|d ds IH]; intros a; cbn [descend].
  - intros [= <-]. exists []. by rewrite app_nil_r.
  - destruct (walk_dir d a) as [a'|] eqn:Hw; [|done].
    apply Hdir in Hw as [rest Hrest]. intros [rest' Hrest']%IH.
    exists (rest ++ rest'). by rewrite Hrest', Hrest, <- app_assoc.
Qed.

(** The results of a walk start with the results it starts from, then
    have one result for each file of the listing of its top directory
    that has a supported suffix, in the order of the listing, whatever the
    outcomes of these files. *)
Lemma walk_top_files fuel directory_path url_mapping output_directory backup top acc res :
  walk fuel directory_path url_mapping output_directory backup top acc = Some res →
  ∃ rest,
    file_path <$> res.1
    = (file_path <$> acc.1)
      ++ (PyPath.join top <$>
            filter (fun f => supported (PyPath.join top f) = true)
              (filter (fun f => OS.isdir acc.2 (PyPath.join top f) = false)
                 (OS.listdir acc.2 top)))
      ++ rest.
Proof.
  revert top acc res. induction fuel as [|fuel IH]; intros top acc res; [done|].
  cbn [walk]. intros Hd. apply descend_extends in Hd as [rest Hrest].
  - exists rest. by rewrite Hrest, walk_files_paths, <- app_assoc.
  - intros d a a' Hw. apply IH in Hw as [rest Hrest]. eexists. exact Hrest.
Qed.

(** More fuel does not change what a directory run returns. *)
Lemma replace_urls_in_directory_more_fuel fuel n m directory_path url_mapping
  output_directory recursive backup out :
  replace_urls_in_directory fuel m directory_path url_mapping output_directory recursive
    backup = Some out →
  replace_urls_in_directory (n + fuel) m directory_path url_mapping output_directory
    recursive backup = Some out.
Proof.
  intros Hrun. induction n as [|n IH]; [done|]. revert IH.
  change (S n + fuel) with (S (n + fuel)). generalize (n + fuel). clear Hrun.
  intros k. unfold replace_urls_in_directory.
  destruct (negb (OS.path_exists m directory_path)); [done|].
  destruct (negb (OS.isdir m directory_path)); [done|].
  destruct recursive; [|done].
  destruct (walk k _ _ _ _ _ _) as [res|] eqn:Hw; [|done].
  by rewrite (walk_more_fuel _ _ _ _ _ _ _ _ Hw).
Qed.

End DirectoryFacts.

(** ** The walk over the example directory *)

Section ExampleWalk.
Context `{Scandir}.

Lemma walk_unfold `{Codecs} `{Bs4} `{Unicode} `{ReTemplate} (fuel : nat) (dp : list N)
    (M : list (list N * list N)) (od : option (list N)) (b : bool) (top : list N)
    (acc : list result * gmap (list N) node) :
  walk (S fuel) dp M od b top acc =
  descend (fun d a => walk fuel dp M od b (PyPath.join top d) a)
    (filter (fun n => OS.isdir acc.2 (PyPath.join top n) = true) (OS.listdir acc.2 top))
    (walk_files dp M od b top
       (filter (fun n => OS.isdir acc.2 (PyPath.join top n) = false) (OS.listdir acc.2 top))
       acc).
Proof. reflexivity. Qed.

Lemma example_top_files :
  filter (fun n => OS.isdir Example.tree (PyPath.join (py "d") n) = false)
    (OS.listdir Example.tree (py "d")) ≡ₚ [py "a.txt"; py "b.md"].
Proof. by rewrite (ListingFacts.listdir_children Example.tree (py "d")). Qed.

Lemma example_top_dirs :
  filter (fun n => OS.isdir Example.tree (PyPath.join (py "d") n) = true)
    (OS.listdir Example.tree (py "d")) = [py "sub"].
Proof.
  apply Permutation_singleton_r.
  by rewrite (ListingFacts.listdir_children Example.tree (py "d")).
Qed.

Lemma listing_filter_nil (m : gmap (list N) node) (d : list N) (P : list N → Prop)
    `{∀ x, Decision (P x)} :
  filter P (OS.children m d) = [] → filter P (OS.listdir m d) = [].
Proof.
  intros Hc. apply Permutation_nil_r.
  by rewrite (ListingFacts.listdir_children m d), Hc.
Qed.

Lemma listing_filter_singleton (m : gmap (list N) node) (d : list N) (P : list N → Prop)
    `{∀ x, Decision (P x)} (x : list N) :
  filter P (OS.children m d) = [x] → filter P (OS.listdir m d) = [x].
Proof.
  intros Hc. apply Permutation_singleton_r.
  by rewrite (ListingFacts.listdir_children m d), Hc.
Qed.

Lemma example_walk (url_mapping : list (list N * list N)) fuel :
  url_mapping = Example.mapping ∨ url_mapping = Example.surrogate_mapping →
  ∃ top rs m',
    top = filter (fun n => OS.isdir Example.tree (PyPath.join (py "d") n) = false)
            (OS.listdir Example.tree (py "d")) ∧
    (top = [py "a.txt"; py "b.md"] ∨ top = [py "b.md"; py "a.txt"]) ∧
    Example.replace_directory (fuel + 2) Example.tree (py "d") url_mapping None true true
    = Some (inr (rs, m')) ∧
    file_path <$> rs = (PyPath.join (py "d") <$> top) ++ [py "d/sub/c.html"] ∧
    success <$> rs = ((fun _ => bool_decide (url_mapping = Example.mapping)) <$> top) ++ [true].
Proof.
  intros HM.
  pose proof example_top_files as Hfiles. symmetry in Hfiles.
  apply Permutation_length_2_inv in Hfiles.
  cut (∃ rs m',
    Example.replace_directory 2 Example.tree (py "d") url_mapping None true true
    = Some (inr (rs, m')) ∧
    file_path <$> rs
    = (PyPath.join (py "d") <$>
         filter (fun n => OS.isdir Example.tree (PyPath.join (py "d") n) = false)
           (OS.listdir Example.tree (py "d"))) ++ [py "d/sub/c.html"] ∧
    success <$> rs
    = ((fun _ => bool_decide (url_mapping = Example.mapping)) <$>
         filter (fun n => OS.isdir Example.tree (PyPath.join (py "d") n) = false)
           (OS.listdir Example.tree (py "d"))) ++ [true]).
  { intros (rs & m' & Hrun & Hp & Hs). eexists _, rs, m'.
    split; [reflexivity|]. split; [done|]. split; [|done].
    by apply (replace_urls_in_directory_more_fuel 2 fuel). }
  unfold Example.replace_directory, replace_urls_in_directory.
  assert (OS.path_exists Example.tree (py "d") = true) as -> by done.
  assert (OS.isdir Example.tree (py "d") = true) as -> by done.
  cbn [negb]. rewrite walk_unfold. cbn [snd]. rewrite example_top_dirs.
  cbn [descend].
  destruct Hfiles as [-> | ->], HM as [-> | ->].
  all: rewrite walk_unfold.
  all: rewrite listing_filter_nil by (vm_compute; reflexivity).
  all: rewrite (listing_filter_singleton _ _ _ (py "c.html")) by (vm_compute; reflexivity).
  all: cbn [descend fmap option_fmap option_map].
  all: match goal with
       | |- ∃ rs m', Some (inr ?w) = _ ∧ _ =>
           exists w.1, w.2; split; [by rewrite <- surjective_pairing|]
       end.
  all: split; vm_compute; reflexivity.
Qed.
End ExampleWalk.

(** The files of a non-recursive run. *)
Lemma non_recursive_paths `{Codecs} `{Bs4} `{Unicode} `{ReTemplate} `{Scandir}
    (n : nat) (m : gmap (list N) node) (directory_path : list N)
    (url_mapping : list (list N * list N)) (output_directory : option (list N))
    (backup : bool) :
  OS.isdir m directory_path = true →
  processed (replace_urls_in_directory n m directory_path url_mapping
               output_directory false backup)
  = Some (PyPath.join directory_path <$>
            filter (fun f => OS.isfile m (PyPath.join directory_path f)
                             && supported (PyPath.join directory_path f) = true)
              (OS.listdir m directory_path)).
Proof.
  intros Hdir. unfold replace_urls_in_directory.
  pose proof Hdir as Hex. apply OSFacts.isdir_stat in Hex.
  assert (Hpe : OS.path_exists m directory_path = true)
    by (apply OSFacts.path_exists_stat; eauto).
  rewrite Hpe, Hdir. cbn [negb processed].
  pose proof (list_files_paths m directory_path url_mapping output_directory backup
                (OS.listdir m directory_path) ([], m)) as Hp.
  destruct (list_files _ _ _ _ _ _) as [rs m']. cbn [fst snd] in Hp.
  rewrite Hp; [done| apply KindFacts.keeps_entries_refl |].
  intros f. apply ListingFacts.listdir_exists.
Qed.

(** C7, as it holds.  Over the directory d that holds exactly a.txt, b.md
    and sub/c.html, whatever the order in which the file system lists a
    directory: the recursive run returns three results, first those for
    d/a.txt and d/b.md in the order of the listing of d, then the one for
    d/sub/c.html; the non-recursive run returns two results, for d/a.txt
    and d/b.md in the order of the listing (not one).  With a mapping
    whose replacement cannot be encoded, the first two files fail and the
    third is still processed.  In general, the non-recursive run over a
    directory returns one result for each name of the listing that is a
    regular file with a suffix among .txt, .md, .html and .htm, in the
    order of the listing and whatever the outcomes; every result of a
    recursive run is for a file with such a suffix, and its results start
    with one result for each such file of the listing of the top
    directory, in the order of the listing. *)
Theorem directory_walk `{Codecs} `{Bs4} `{Unicode} `{ReTemplate} `{Scandir} :
  (∀ n, ∃ top,
       top = PyPath.join (py "d") <$>
               filter (fun f => OS.isdir Example.tree (PyPath.join (py "d") f) = false)
                 (OS.listdir Example.tree (py "d")) ∧
       top ≡ₚ [py "d/a.txt"; py "d/b.md"] ∧
       processed (Example.replace_directory (n + 2) Example.tree (py "d") Example.mapping
                    None true true)
       = Some (top ++ [py "d/sub/c.html"]))
  ∧ (∀ n, ∃ top,
         top ≡ₚ [py "d/a.txt"; py "d/b.md"] ∧
         processed (Example.replace_directory n Example.tree (py "d") Example.mapping
                      None false true)
         = Some top)
  ∧ (∀ n, outcomes (Example.replace_directory (n + 2) Example.tree (py "d")
                      Example.surrogate_mapping None true true)
          = Some [false; false; true])
  ∧ (∀ n m directory_path url_mapping output_directory backup,
       OS.isdir m directory_path = true →
       processed (replace_urls_in_directory n m directory_path url_mapping
                    output_directory false backup)
       = Some (PyPath.join directory_path <$>
                 filter (fun f => OS.isfile m (PyPath.join directory_path f)
                                  && supported (PyPath.join directory_path f) = true)
                   (OS.listdir m directory_path)))
  ∧ (∀ n m directory_path url_mapping output_directory backup rs m',
       replace_urls_in_directory n m directory_path url_mapping output_directory true
         backup = Some (inr (rs, m')) →
       Forall (fun r => supported (file_path r) = true) rs
       ∧ ∃ rest,
           file_path <$> rs
           = (PyPath.join directory_path <$>
                filter (fun f => supported (PyPath.join directory_path f) = true)
                  (filter (fun f => OS.isdir m (PyPath.join directory_path f) = false)
                     (OS.listdir m directory_path)))
             ++ rest).
Proof.
  split_and!.
  - intros n.
    destruct (example_walk Example.mapping n) as (top & rs & m' & -> & Htop & -> & Hp & _);
      [by left|].
    eexists. split; [reflexivity|]. split; [|cbn [processed]; by rewrite Hp].
    destruct Htop as [-> | ->]; [done|]. apply perm_swap.
  - intros n. eexists.
    split; [|unfold Example.replace_directory; by apply non_recursive_paths].
    rewrite (ListingFacts.listdir_children Example.tree (py "d")). done.
  - intros n.
    destruct (example_walk Example.surrogate_mapping n)
      as (top & rs & m' & _ & Htop & -> & _ & Hs); [by right|].
    cbn [outcomes]. rewrite Hs. by destruct Htop as [-> | ->].
  - intros. by apply non_recursive_paths.
  - intros n m d url_mapping output_directory backup rs m'.
    unfold replace_urls_in_directory.
    destruct (negb (OS.path_exists m d)); [done|].
    destruct (negb (OS.isdir m d)); [done|].
    destruct (walk n _ _ _ _ _ _) as [res|] eqn:Hw; [|done].
    cbn. intros [= ->]. split.
    + apply walk_supported in Hw; [|by apply Forall_nil].
      by apply Forall_fmap in Hw.
    + apply walk_top_files in Hw as [rest Hrest]. by exists rest.
Qed.

(** C7 as stated fails: over the directory d that holds a.txt, b.md and
    sub/c.html, the non-recursive run returns two results, those for
    d/a.txt and d/b.md, not one. *)
Lemma directory_walk_top_level_counterexample :
  ∃ rs m',
    @Example.replace_directory Fixture.scandir 0 Example.tree (py "d") Example.mapping
      None false true
    = Some (inr (rs, m'))
    ∧ file_path <$> rs ≡ₚ [py "d/a.txt"; py "d/b.md"]
    ∧ length rs = 2
    ∧ length rs ≠ 1.
Proof.
  eexists _, _. split; [vm_compute; reflexivity|]. split; [reflexivity|].
  split; [reflexivity|]. cbn. lia.
Qed.

(** * Further properties *)

(** ** The orchestrator: what a run leaves behind *)

Section RunFacts.
Context `{Codecs} `{Bs4} `{Unicode} `{ReTemplate}.

(** The read step looks only at what the path names. *)
Lemma read_content_stat (m m' : gmap (list N) node) p :
  OS.stat m' p = OS.stat m p → read_content m' p = read_content m p.
Proof.
  intros Hst. unfold read_content.
  assert (Hrt : ∀ e, read_text m' p e = read_text m p e).
  { intros e. unfold read_text, OS.read_bytes. by rewrite Hst. }
  rewrite Hrt. cbn [try_encodings]. by rewrite !Hrt.
Qed.

(** A read that succeeds has read a regular file. *)
Lemma read_content_file (m : gmap (list N) node) p content :
  read_content m p = inr content → ∃ data, OS.stat m p = Some (File data).
Proof.
  unfold read_content, read_text at 1, OS.read_bytes.
  destruct (OS.stat m p) as [[data|]|]; [by eexists|done|done].
Qed.

(** The stages after the backup change no regular file but the output
    file. *)
Lemma tail_files (m1 : gmap (list N) node) (r1 : result) p url_mapping output_file r m' :
  match read_content m1 p with
  | inl e => (set_error e r1, m1)
  | inr content =>
      match dispatch p content url_mapping with
      | inl e => (set_error e r1, m1)
      | inr (new_content, n) =>
          match OS.makedirs m1 (PyPath.dirname output_file) with
          | inl e => (set_error e r1, m1)
          | inr m2 =>
              match write_text m2 output_file new_content with
              | (Some e, m3) => (set_error e r1, m3)
              | (None, m3) => (set_success n r1, m3)
              end
          end
      end
  end = (r, m') →
  r.(backup_path) = r1.(backup_path) ∧
  ∀ q data, q ≠ output_file →
    (m' !! q = Some (File data) ↔ m1 !! q = Some (File data)).
Proof.
  intros Hrun.
  destruct (read_content m1 p) as [e|content]; [by simplify_eq/=|].
  destruct (dispatch p content url_mapping) as [e|[new_content n]]; [by simplify_eq/=|].
  destruct (OS.makedirs m1 (PyPath.dirname output_file)) as [e|m2] eqn:Hmk;
    [by simplify_eq/=|].
  assert (Hm3 : ∀ m3 q data, q ≠ output_file →
    (m3 = m2 ∨ ∃ b, m3 = <[output_file := File b]> m2) →
    (m3 !! q = Some (File data) ↔ m1 !! q = Some (File data))).
  { intros m3 q data Hq [->|[b ->]]; [|rewrite lookup_insert_ne by done];
      apply (OSFacts.makedirs_files _ _ _ q data Hmk). }
  destruct (write_text m2 output_file new_content) as [oe m3] eqn:Hw.
  apply OSFacts.write_text_cases in Hw
    as [(b & -> & _ & -> & _)|[(-> & _ & -> & _)|(e' & -> & _ & ->)]];
    simplify_eq/=; (split; [done|]); intros q data Hq; apply Hm3; eauto.
Qed.

End RunFacts.

(** X1.  An output path that is the empty string counts as given when the
    backup is decided and as missing when the output file is chosen:
    the run overwrites the source and takes no backup, whatever [backup]
    says. *)
Theorem empty_output_path_overwrites_without_backup
  `{Codecs} `{Bs4} `{Unicode} `{ReTemplate}
  (m : gmap (list N) node) (p : list N) (url_mapping : list (list N * list N))
  (backup : bool) :
  replace_urls_in_file m p url_mapping (Some []) backup
  = replace_urls_in_file m p url_mapping None false
  ∧ (replace_urls_in_file m p url_mapping (Some []) backup).1.(backup_path) = None
  ∧ (replace_urls_in_file m p url_mapping (Some []) backup).1.(output_path) = p.
Proof.
  assert (Heq : replace_urls_in_file m p url_mapping (Some []) backup
                = replace_urls_in_file m p url_mapping None false).
  { rewrite !replace_urls_in_file_stages. cbv zeta. cbn [py_or andb].
    destruct (OS.path_exists m p) eqn:Hex; cbn [negb]; [|done].
    assert (p ≠ []) by (intros ->; by vm_compute in Hex).
    rewrite (bool_decide_eq_false_2 (Some [] = None ∨ Some [] = Some p))
      by (intros [?|?]; congruence).
    by rewrite andb_false_r. }
  split; [done|]. rewrite Heq, replace_urls_in_file_stages. cbv zeta. cbn [py_or andb].
  repeat case_match; simplify_eq/=; done.
Qed.

(** What a successful run has read and written. *)
Lemma run_success `{Codecs} `{Bs4} `{Unicode} `{ReTemplate}
  (m : gmap (list N) node) (p : list N) (url_mapping : list (list N * list N))
  (output : option (list N)) (backup : bool) (r : result) (m' : gmap (list N) node)
  (Hrun : replace_urls_in_file m p url_mapping output backup = (r, m'))
  (Hok : r.(success) = true) :
  url_mapping ≠ [] ∧
  ∃ data content new_content encoded,
    OS.stat m p = Some (File data) ∧
    read_content m p = inr content ∧
    dispatch p content url_mapping = inr (new_content, r.(replacements)) ∧
    Codec.utf8_encode new_content = Some encoded ∧
    m' !! py_or output p = Some (File encoded).
Proof.
  rewrite replace_urls_in_file_stages in Hrun. cbv zeta in Hrun.
  destruct (negb (OS.path_exists m p)); [by simplify_eq/=|].
  case_bool_decide as HM; [by simplify_eq/=|]. split; [done|].
  assert (Htail : ∀ r1 m1, OS.stat m1 p = OS.stat m p →
    match read_content m1 p with
    | inl e => (set_error e r1, m1)
    | inr content =>
        match dispatch p content url_mapping with
        | inl e => (set_error e r1, m1)
        | inr (new_content, n) =>
            match OS.makedirs m1 (PyPath.dirname (py_or output p)) with
            | inl e => (set_error e r1, m1)
            | inr m2 =>
                match write_text m2 (py_or output p) new_content with
                | (Some e, m3) => (set_error e r1, m3)
                | (None, m3) => (set_success n r1, m3)
                end
            end
        end
    end = (r, m') → r1.(success) = false →
    ∃ data content new_content encoded,
      OS.stat m p = Some (File data) ∧
      read_content m p = inr content ∧
      dispatch p content url_mapping = inr (new_content, r.(replacements)) ∧
      Codec.utf8_encode new_content = Some encoded ∧
      m' !! py_or output p = Some (File encoded)).
  { intros r1 m1 Hst Ht Hr1. rewrite (read_content_stat m m1) in Ht by done.
    destruct (read_content m p) as [e|content] eqn:Hread; [simplify_eq/=; congruence|].
    destruct (read_content_file _ _ _ Hread) as [data Hdata].
    destruct (dispatch p content url_mapping) as [e|[new_content n]] eqn:Hd;
      [simplify_eq/=; congruence|].
    destruct (OS.makedirs m1 _) as [e|m2]; [simplify_eq/=; congruence|].
    destruct (write_text m2 _ new_content) as [oe m3] eqn:Hw.
    apply OSFacts.write_text_cases in Hw
      as [(b & -> & Henc & -> & _)|[(-> & _)|(e' & -> & _)]];
      [|simplify_eq/=; congruence|simplify_eq/=; congruence].
    simplify_eq/=. exists data, content, new_content, b.
    split_and!; [done..|]. by rewrite lookup_insert_eq. }
  destruct (backup && bool_decide (output = None ∨ output = Some p)).
  - destruct (OS.copy2 m p (p ++ py ".backup")) as [e|m1] eqn:Hcp; [by simplify_eq/=|].
    apply OSFacts.copy2_inr in Hcp as (data & Hst & Hne & _ & ->).
    eapply Htail; [|exact Hrun|done].
    destruct (OSFacts.stat_file _ _ _ Hst) as (Hp1 & Hp2 & Hlp).
    rewrite !OSFacts.stat_lookup by done. by rewrite lookup_insert_ne.
  - by eapply Htail.
Qed.

(** X2.  A successful run has read a regular file, and the output file holds
    the UTF-8 encoding of what the strategy of the file's suffix made of
    its decoded content; the count of the result is the strategy's. *)
Theorem success_writes_rewritten_content `{Codecs} `{Bs4} `{Unicode} `{ReTemplate}
  (m : gmap (list N) node) (p : list N) (url_mapping : list (list N * list N))
  (output : option (list N)) (backup : bool) (r : result) (m' : gmap (list N) node)
  (Hrun : replace_urls_in_file m p url_mapping output backup = (r, m'))
  (Hok : r.(success) = true) :
  url_mapping ≠ [] ∧
  ∃ data content new_content encoded,
    OS.stat m p = Some (File data) ∧
    read_content m p = inr content ∧
    dispatch p content url_mapping = inr (new_content, r.(replacements)) ∧
    Codec.utf8_encode new_content = Some encoded ∧
    m' !! py_or output p = Some (File encoded).
Proof. by eapply run_success. Qed.

Lemma success_writes_rewritten_content_witness :
  let run := Example.replace_file Example.one_file (py "a.txt") Example.mapping None true in
  Example.mapping ≠ [] ∧
  ∃ data content new_content encoded,
    OS.stat Example.one_file (py "a.txt") = Some (File data) ∧
    @read_content Fixture.codecs Example.one_file (py "a.txt") = inr content ∧
    @dispatch (Fixture.bs4 Example.old_url) Fixture.unicode Fixture.templates
      (py "a.txt") content Example.mapping = inr (new_content, run.1.(replacements)) ∧
    Codec.utf8_encode new_content = Some encoded ∧
    run.2 !! py_or None (py "a.txt") = Some (File encoded).
Proof.
  intros run.
  apply (@success_writes_rewritten_content Fixture.codecs (Fixture.bs4 Example.old_url)
           Fixture.unicode Fixture.templates Example.one_file (py "a.txt")
           Example.mapping None true run.1 run.2).
  - apply surjective_pairing.
  - vm_compute. reflexivity.
Defined.

(** X3.  A run that writes to an output path that names another file than
    the source takes no backup and leaves the source and every other
    regular file but the output file as they were.  The two paths are
    relative paths without empty components, "." and "..": two such paths
    name the same file only when they are equal, whereas a.txt and
    ./a.txt name one file, which such a run overwrites. *)
Theorem separate_output_leaves_source `{Codecs} `{Bs4} `{Unicode} `{ReTemplate}
  (m : gmap (list N) node) (p o : list N) (url_mapping : list (list N * list N))
  (backup : bool)
  (Hp : canonical p = true) (Ho : canonical o = true) (Hop : o ≠ p) :
  let run := replace_urls_in_file m p url_mapping (Some o) backup in
  run.1.(backup_path) = None ∧
  run.1.(output_path) = o ∧
  (∀ data, m !! p = Some (File data) → run.2 !! p = Some (File data)) ∧
  ∀ q data, q ≠ o → (run.2 !! q = Some (File data) ↔ m !! q = Some (File data)).
Proof.
  intros run. unfold run. rewrite replace_urls_in_file_stages. cbv zeta.
  assert (Hne : o ≠ []) by (intros ->; done).
  assert (Hpy : py_or (Some o) p = o) by by destruct o.
  rewrite Hpy.
  assert (Hsplit : ∀ (r : result) (m' : gmap (list N) node),
    (r.(backup_path) = None ∧ r.(output_path) = o ∧
     ∀ q data, q ≠ o → (m' !! q = Some (File data) ↔ m !! q = Some (File data))) →
    r.(backup_path) = None ∧ r.(output_path) = o ∧
    (∀ data, m !! p = Some (File data) → m' !! p = Some (File data)) ∧
    ∀ q data, q ≠ o → (m' !! q = Some (File data) ↔ m !! q = Some (File data))).
  { intros r m' (Hb & Hout & Hfiles). split_and!; [done | done | | done].
    intros data Hdata. apply Hfiles; [congruence | done]. }
  destruct (negb (OS.path_exists m p)); [by apply Hsplit|].
  case_bool_decide; [by apply Hsplit|].
  rewrite (bool_decide_eq_false_2 (Some o = None ∨ Some o = Some p))
    by (intros [?|?]; congruence).
  rewrite andb_false_r.
  match goal with
  | |- context [match ?t with inl _ => _ | inr _ => _ end] =>
      destruct t as [e|content] eqn:Hread
  end; [by apply Hsplit|].
  pose proof (tail_files m (mk_result p o false 0 None None) p url_mapping o) as Ht.
  rewrite Hread in Ht.
  match type of Ht with
  | ∀ r m', ?t = _ → _ => destruct t as [r m'] eqn:Hrun
  end.
  destruct (Ht r m' eq_refl) as [Hb Hfiles]. cbn [fst snd].
  apply Hsplit. split_and!; [done| |done].
  clear -Hrun. repeat case_match; by simplify_eq/=.
Qed.

Lemma separate_output_leaves_source_witness :
  let run := Example.replace_file Example.one_file (py "a.txt") Example.mapping
               (Some (py "out/b.txt")) true in
  run.1.(backup_path) = None ∧
  run.1.(output_path) = py "out/b.txt" ∧
  (∀ data, Example.one_file !! py "a.txt" = Some (File data) →
           run.2 !! py "a.txt" = Some (File data)) ∧
  ∀ q data, q ≠ py "out/b.txt" →
    (run.2 !! q = Some (File data) ↔ Example.one_file !! q = Some (File data)).
Proof.
  apply (@separate_output_leaves_source Fixture.codecs (Fixture.bs4 Example.old_url)
           Fixture.unicode Fixture.templates Example.one_file (py "a.txt")
           (py "out/b.txt") Example.mapping true); by vm_compute.
Defined.

(** Where the backup named by a result is and what it holds. *)
Lemma run_backup `{Codecs} `{Bs4} `{Unicode} `{ReTemplate}
  (m : gmap (list N) node) (p b : list N) (url_mapping : list (list N * list N))
  (output : option (list N)) (backup : bool) (r : result) (m' : gmap (list N) node)
  (Hrun : replace_urls_in_file m p url_mapping output backup = (r, m'))
  (Hb : r.(backup_path) = Some b) :
  backup = true ∧ b = p ++ py ".backup" ∧ py_or output p = p ∧
  ∃ data,
    OS.stat m p = Some (File data) ∧
    m' !! OS.copy2_target m p b = Some (File data).
Proof.
  rewrite replace_urls_in_file_stages in Hrun. cbv zeta in Hrun.
  destruct (negb (OS.path_exists m p)); [by simplify_eq/=|].
  case_bool_decide; [by simplify_eq/=|].
  destruct (backup && bool_decide (output = None ∨ output = Some p)) eqn:Hbk.
  - apply andb_true_iff in Hbk as [-> Hout%bool_decide_eq_true].
    destruct (OS.copy2 m p (p ++ py ".backup")) as [e|m1] eqn:Hcp; [by simplify_eq/=|].
    apply OSFacts.copy2_inr in Hcp as (data & Hst & Hne & _ & ->).
    assert (Hpy : py_or output p = p).
    { destruct Hout as [->| ->]; [done|]. by destruct p. }
    apply tail_files in Hrun as [Hbp Hfiles]. cbn in Hbp.
    rewrite Hb in Hbp. injection Hbp as ->.
    split_and!; [done..|]. exists data. split; [done|].
    apply Hfiles; [by rewrite Hpy|]. by rewrite lookup_insert_eq.
  - apply tail_files in Hrun as [Hbp _]. cbn in Hbp. congruence.
Qed.

(** X4.  Whenever the result names a backup, successful or not, the backup is
    the path followed by .backup and the copy holds the bytes the source
    held before the run: at that path, or inside it under the source's
    base name when it is a directory. *)
Theorem named_backup_holds_original `{Codecs} `{Bs4} `{Unicode} `{ReTemplate}
  (m : gmap (list N) node) (p b : list N) (url_mapping : list (list N * list N))
  (output : option (list N)) (backup : bool) (r : result) (m' : gmap (list N) node)
  (Hrun : replace_urls_in_file m p url_mapping output backup = (r, m'))
  (Hb : r.(backup_path) = Some b) :
  backup = true ∧ b = p ++ py ".backup" ∧ py_or output p = p ∧
  ∃ data,
    OS.stat m p = Some (File data) ∧
    m' !! OS.copy2_target m p b = Some (File data).
Proof. by eapply run_backup. Qed.

Lemma named_backup_holds_original_witness :
  let run := Example.replace_file Example.one_file (py "a.txt")
               Example.surrogate_mapping None true in
  true = true ∧ py "a.txt.backup" = py "a.txt" ++ py ".backup" ∧
  py_or None (py "a.txt") = py "a.txt" ∧
  ∃ data,
    OS.stat Example.one_file (py "a.txt") = Some (File data) ∧
    run.2 !! OS.copy2_target Example.one_file (py "a.txt") (py "a.txt.backup")
    = Some (File data).
Proof.
  intros run.
  apply (@named_backup_holds_original Fixture.codecs (Fixture.bs4 Example.old_url)
           Fixture.unicode Fixture.templates Example.one_file (py "a.txt")
           (py "a.txt.backup") Example.surrogate_mapping None true run.1 run.2).
  - apply surjective_pairing.
  - vm_compute. reflexivity.
Defined.

(** ** Restoring *)


(** ** The text strategy at its edges *)

Module EdgeFacts.
Import PyStr.

(** Replacing a string by itself changes nothing. *)
Lemma replace_same k s : replace s k k = s.
Proof.
  unfold replace. destruct k as [|o old].
  - induction s as [|c s IH]; [done|]. cbn. by rewrite IH.
  - remember (length s) as n eqn:Hn. revert s Hn.
    induction n as [n IH] using lt_wf_ind. intros s ->.
    destruct (startswith (o :: old) s) eqn:Hs.
    + apply PyStrFacts.startswith_spec in Hs as [rest ->].
      rewrite PyStrFacts.replace_from_occurrence.
      rewrite (IH (length rest)); [done| |done].
      rewrite length_app. cbn. lia.
    + destruct s as [|c s]; [done|]. cbn [replace_from]. rewrite Hs.
      by rewrite (IH (length s)); [|cbn; lia|].
Qed.

(** With the empty string as [old], [new] goes before every character
    and at the end. *)
Lemma replace_empty new s :
  replace s [] new = new ++ concat ((fun c => c :: new) <$> s).
Proof.
  unfold replace. induction s as [|c s IH]; [done|].
  cbn [replace_from startswith]. by rewrite IH.
Qed.

Lemma count_empty s : count s [] = S (length s).
Proof.
  unfold count. induction s as [|c s IH]; [done|].
  cbn [count_from startswith length]. cbn. by rewrite IH.
Qed.

End EdgeFacts.

(** X6.  Entries that map a URL to itself, those [validate_url_mapping] warns
    about, leave the content as it is and are counted all the same: the
    count is the number of occurrences of the keys. *)
Theorem identity_entries_counted_without_change (content : list N)
  (url_mapping : list (list N * list N))
  (Hsame : Forall (fun e => e.1 = e.2) url_mapping) :
  _replace_urls_in_text content url_mapping
  = (content, total_occurrences content url_mapping).
Proof.
  unfold _replace_urls_in_text. rewrite TextFacts.text_fold. cbn [Nat.add].
  induction Hsame as [|[k v] M Hk _ IH]; [done|]. cbn in Hk. subst v.
  cbn [rewritten counted text_rewrite fst snd]. rewrite TextFacts.total_cons. cbn [fst].
  assert (Hr : (if PyStr.contains k content then PyStr.replace content k k else content)
               = content).
  { destruct (PyStr.contains k content); [apply EdgeFacts.replace_same|done]. }
  revert IH. unfold text_rewrite. cbn [fst snd]. rewrite Hr. intros [= IH1 IH2].
  rewrite IH1, IH2. f_equal. f_equal.
  destruct (PyStr.contains k content) eqn:Hc; [done|].
  symmetry. by apply PyStrFacts.count_zero_iff.
Qed.

Lemma identity_entries_counted_without_change_witness :
  _replace_urls_in_text (py "x http://a/1.jpg http://a/1.jpg")
    [(Example.old_url, Example.old_url)]
  = (py "x http://a/1.jpg http://a/1.jpg",
     total_occurrences (py "x http://a/1.jpg http://a/1.jpg")
       [(Example.old_url, Example.old_url)]).
Proof.
  apply identity_entries_counted_without_change.
  repeat constructor.
Defined.

(** X7.  An entry whose key is the empty string is not refused: the text
    strategy puts its value before every character of the content and at
    the end, and counts one more than the content has characters. *)
Theorem empty_key_inserted_everywhere (content new_url : list N) :
  _replace_urls_in_text content [([], new_url)]
  = (new_url ++ concat ((fun c => c :: new_url) <$> content), S (length content)).
Proof.
  unfold _replace_urls_in_text. cbn [fold_left text_step].
  rewrite PyStrFacts.contains_nil_l.
  by rewrite EdgeFacts.replace_empty, EdgeFacts.count_empty.
Qed.

(** ** The HTML strategy beyond the images *)

Module CssFacts.




End CssFacts.


Module PlainFacts.
Import Html.

Lemma visit_all_plain f soup :
  Forall (fun h => visit f h = (h, 0)) soup → visit_all f soup = (soup, 0).
Proof.
  induction 1 as [|h soup Hh _ IH]; [done|]. cbn [visit_all]. by rewrite Hh, IH.
Qed.

(** A tag function that leaves tags other than images, style sheets and
    tags with a style attribute alone leaves a tree without them
    alone. *)
Lemma visit_plain (f : list N → list (list N * list N) → list html → list html → html * nat) :
  (∀ name attrs cs cs',
     name ≠ py "img" → name ≠ py "style" → Dict.get (py "style") attrs = None →
     f name attrs cs cs' = (Tag name attrs cs', 0)) →
  ∀ h, no_image_no_style h = true → visit f h = (h, 0).
Proof.
  intros Hf h. induction h as [c s|name attrs cs IH] using HtmlFacts.html_tree_ind; [done|].
  cbn [no_image_no_style]. rewrite !andb_true_iff, !negb_true_iff, !bool_decide_eq_false.
  intros [[[Himg Hstyle] Hattr] Hcs]. rewrite HtmlFacts.visit_Tag.
  rewrite (visit_all_plain f cs).
  - cbn [fst snd]. rewrite Hf; [done..|].
    destruct (Dict.get (py "style") attrs); [|done]. by destruct Hattr.
  - rewrite forallb_forall in Hcs. rewrite Forall_forall in IH. apply Forall_forall.
    intros x Hx. apply IH; [done|]. apply Hcs. by apply list_elem_of_In.
Qed.

End PlainFacts.

(** X9.  The HTML strategy rewrites images, style sheets and style attributes
    and nothing else: a tree without them, whatever mapped URLs its
    links, scripts and texts hold, comes back unchanged with count 0. *)
Theorem html_without_images_and_styles_unchanged (url_mapping : list (list N * list N))
  (soup : list html)
  (Hplain : forallb no_image_no_style soup = true) :
  html_rewrite url_mapping soup = (soup, 0).
Proof.
  assert (Hall : ∀ f, (∀ h, no_image_no_style h = true → Html.visit f h = (h, 0)) →
                      Html.visit_all f soup = (soup, 0)).
  { intros f Hf. apply PlainFacts.visit_all_plain. apply Forall_forall. intros h Hh.
    apply Hf. rewrite forallb_forall in Hplain. apply Hplain. by apply list_elem_of_In. }
  unfold html_rewrite.
  rewrite (Hall (Html.img_tag url_mapping)).
  2:{ apply PlainFacts.visit_plain. intros name attrs cs cs' Himg _ _.
      unfold Html.img_tag. by rewrite bool_decide_eq_false_2. }
  rewrite (Hall (style_tag url_mapping)).
  2:{ apply PlainFacts.visit_plain. intros name attrs cs cs' _ Hstyle _.
      unfold style_tag. by rewrite bool_decide_eq_false_2. }
  rewrite (Hall (style_attr url_mapping)).
  2:{ apply PlainFacts.visit_plain. intros name attrs cs cs' _ _ Hattr.
      unfold style_attr. by rewrite Hattr. }
  done.
Qed.

Lemma html_without_images_and_styles_unchanged_witness :
  html_rewrite Example.mapping
    [Tag (py "a") [(py "href", Example.old_url)] [Str NavigableString Example.old_url]]
  = ([Tag (py "a") [(py "href", Example.old_url)] [Str NavigableString Example.old_url]], 0).
Proof.
  apply html_without_images_and_styles_unchanged. vm_compute. reflexivity.
Defined.

(** ** Reading *)

Module NewlineFacts.

Lemma universal_newlines_no_cr s : 13%N ∉ Codec.universal_newlines s.
Proof.
  remember (length s) as n eqn:Hn. revert s Hn.
  induction n as [n IH] using lt_wf_ind. intros s ->.
  destruct s as [|c s]; [apply not_elem_of_nil|]. cbn [Codec.universal_newlines].
  case_bool_decide as Hc.
  - apply not_elem_of_cons. split; [done|].
    destruct s as [|c' s]; [apply not_elem_of_nil|].
    case_bool_decide; (eapply IH; [|done]); cbn; lia.
  - apply not_elem_of_cons. split; [done|]. eapply IH; [|done]. cbn. lia.
Qed.

Lemma contains_elem_of k s c : PyStr.contains k s = true → c ∈ k → c ∈ s.
Proof.
  induction s as [|a s IH]; cbn [PyStr.contains].
  - rewrite orb_false_r. intros [r Hr]%PyStrFacts.startswith_spec.
    destruct k; [by intros ?%elem_of_nil|done].
  - intros [[r ->]%PyStrFacts.startswith_spec|Hs]%orb_true_iff Hc.
    + apply elem_of_app. by left.
    + right. by apply IH.
Qed.

End NewlineFacts.

(** X10.  The content the read step hands to the strategies holds no carriage
    return, whatever the file holds and whichever encoding decoded it:
    reading in text mode has turned the line ends into line feeds.  A key
    with a carriage return is therefore never found in it. *)
Theorem decoded_content_has_no_carriage_return `{Codecs} (m : gmap (list N) node)
  (p content : list N)
  (Hread : read_content m p = inr content) :
  (13%N ∉ content) ∧
  ∀ old_url new_url, 13%N ∈ old_url →
    _replace_urls_in_text content [(old_url, new_url)] = (content, 0).
Proof.
  assert (Hcr : 13%N ∉ content).
  { assert (Hrt : ∀ e c, read_text m p e = inr c → 13%N ∉ c).
    { intros e c. unfold read_text. destruct (OS.read_bytes m p); [done|].
      destruct (Codec.decode e l); [|done]. intros [= <-].
      apply NewlineFacts.universal_newlines_no_cr. }
    revert Hread. unfold read_content.
    destruct (read_text m p UTF8) as [e|c] eqn:H8; [|intros [= <-]; by eapply Hrt].
    destruct e; try done. cbn [try_encodings].
    destruct (read_text m p GBK) as [e|c] eqn:Hg; [|intros [= <-]; by eapply Hrt].
    destruct e; try done.
    destruct (read_text m p GB2312) as [e|c] eqn:Hb; [|intros [= <-]; by eapply Hrt].
    destruct e; try done.
    destruct (read_text m p LATIN1) as [e|c] eqn:Hl; [|intros [= <-]; by eapply Hrt].
    by destruct e. }
  split; [done|]. intros old_url new_url Hold. unfold _replace_urls_in_text.
  cbn [fold_left text_step].
  destruct (PyStr.contains old_url content) eqn:Hc; [|done].
  destruct Hcr. by eapply NewlineFacts.contains_elem_of.
Qed.

Lemma decoded_content_has_no_carriage_return_witness :
  (13%N ∉ Codec.universal_newlines
             (Codec.latin1_decode (Fixture.ascii "x http://a/1.jpg"))) ∧
  ∀ old_url new_url, 13%N ∈ old_url →
    _replace_urls_in_text
      (Codec.universal_newlines (Codec.latin1_decode (Fixture.ascii "x http://a/1.jpg")))
      [(old_url, new_url)]
    = (Codec.universal_newlines (Codec.latin1_decode (Fixture.ascii "x http://a/1.jpg")), 0).
Proof.
  apply (@decoded_content_has_no_carriage_return Fixture.codecs Example.one_file (py "a.txt")).
  vm_compute. reflexivity.
Defined.

(** ** Validation of a mapping *)

Module ValidateFacts.

(** What one entry adds to the dictionary. *)
Lemma validate_step_fields r e :
  let r' := validate_step r e in
  r'.(valid) = r.(valid) ∧
  r'.(total_mappings) = r.(total_mappings) ∧
  r'.(valid_mappings) = r.(valid_mappings) + (if both_usable e then 1 else 0) ∧
  length r'.(invalid_mappings)
  = length r.(invalid_mappings) + (if usable e.1 then 0 else 1)
    + (if usable e.2 then 0 else 1) ∧
  length r'.(warnings)
  = length r.(warnings) + (if usable e.1 && pyvalue_eqb e.1 e.2 then 1 else 0).
Proof.
  destruct e as [old new]. unfold both_usable. cbn [fst snd validate_step].
  destruct old as [[|c s]|i], new as [[|c' s']|i']; cbn [usable negb andb pyvalue_eqb];
    try case_bool_decide;
    cbn [valid total_mappings valid_mappings invalid_mappings warnings];
    rewrite ?length_app; cbn [length]; split_and!; lia || done.
Qed.

(** What the loop adds to the dictionary it starts from. *)
Lemma validate_fold url_mapping r :
  let r' := fold_left validate_step url_mapping r in
  r'.(valid) = r.(valid) ∧
  r'.(total_mappings) = r.(total_mappings) ∧
  r'.(valid_mappings)
  = r.(valid_mappings) + length (filter (fun e => both_usable e = true) url_mapping) ∧
  length r'.(invalid_mappings)
  = length r.(invalid_mappings)
    + length (filter (fun e => usable e.1 = false) url_mapping)
    + length (filter (fun e => usable e.2 = false) url_mapping) ∧
  length r'.(warnings)
  = length r.(warnings)
    + length (filter (fun e => (usable e.1 && pyvalue_eqb e.1 e.2) = true) url_mapping).
Proof.
  revert r. induction url_mapping as [|e M IH]; intros r; cbn [fold_left].
  - rewrite !filter_nil. cbn. split_and!; [done|done|lia|lia|lia].
  - destruct (IH (validate_step r e)) as (I1 & I2 & I3 & I4 & I5).
    destruct (validate_step_fields r e) as (S1 & S2 & S3 & S4 & S5).
    cbv zeta in *. rewrite I1, I2, I3, I4, I5, S1, S2, S3, S4, S5. clear.
    rewrite !filter_cons.
    destruct (both_usable e), (usable e.1), (usable e.2), (pyvalue_eqb e.1 e.2);
      cbn [andb]; repeat case_decide; try done; cbn [length]; split_and!; lia || done.
Qed.

Lemma all_usable url_mapping :
  Forall (fun e => usable e.1 = true ∧ usable e.2 = true) url_mapping
  ↔ length (filter (fun e => usable e.1 = false) url_mapping)
    + length (filter (fun e => usable e.2 = false) url_mapping) = 0.
Proof.
  induction url_mapping as [|[old new] M IH].
  - rewrite !filter_nil. split; [done|]. by constructor.
  - rewrite Forall_cons, IH, !filter_cons. cbn [fst snd].
    destruct (usable old), (usable new); repeat case_decide; try done; cbn [length];
      split; try lia; try (intros [[? ?] ?]; done); try (intros ?; split; [done|lia]).
Qed.

(** The mapping is reported valid exactly when every key and every value
    is a non-empty string. *)
Lemma valid_iff url_mapping :
  (validate_url_mapping url_mapping).(valid) = true
  ↔ Forall (fun e => usable e.1 = true ∧ usable e.2 = true) url_mapping.
Proof.
  unfold validate_url_mapping.
  destruct (validate_fold url_mapping (mk_validation true (length url_mapping) 0 [] []))
    as (I1 & _ & _ & I4 & _).
  cbv zeta in *. cbn [valid invalid_mappings length Nat.add] in *.
  rewrite all_usable, <- I4.
  destruct (invalid_mappings _); cbn; [by rewrite I1|]. split; [done|lia].
Qed.

End ValidateFacts.

(** X11.  [validate_url_mapping] counts as valid the entries whose key and
    value are both non-empty strings, and reports the mapping valid
    exactly when all entries are.  An entry is listed among the invalid
    ones once for its key and once for its value, so the list can be
    longer than the number of invalid entries, up to twice.  Warnings go
    to valid entries that map a string to itself. *)
Theorem validate_url_mapping_counts (url_mapping : list (pyvalue * pyvalue)) :
  let v := validate_url_mapping url_mapping in
  let invalid := length url_mapping - v.(valid_mappings) in
  v.(total_mappings) = length url_mapping ∧
  v.(valid_mappings)
  = length (filter (fun e => (usable e.1 && usable e.2) = true) url_mapping) ∧
  (v.(valid) = true ↔ Forall (fun e => usable e.1 = true ∧ usable e.2 = true) url_mapping) ∧
  (v.(valid) = true ↔ v.(valid_mappings) = v.(total_mappings)) ∧
  length v.(invalid_mappings)
  = length (filter (fun e => usable e.1 = false) url_mapping)
    + length (filter (fun e => usable e.2 = false) url_mapping) ∧
  invalid ≤ length v.(invalid_mappings) ≤ 2 * invalid ∧
  length v.(warnings)
  = length (filter (fun e => (usable e.1 && pyvalue_eqb e.1 e.2) = true) url_mapping) ∧
  length v.(warnings) ≤ v.(valid_mappings).
Proof.
  intros v invalid. unfold invalid, v, validate_url_mapping. clear v invalid.
  destruct (ValidateFacts.validate_fold url_mapping
              (mk_validation true (length url_mapping) 0 [] []))
    as (I1 & I2 & I3 & I4 & I5).
  cbv zeta in *. cbn [valid total_mappings valid_mappings invalid_mappings warnings
                      length Nat.add] in *.
  set (r := fold_left validate_step url_mapping _) in *.
  assert (Hcount : length (filter (fun e => both_usable e = true) url_mapping)
                   + length (filter (fun e => usable e.1 = false) url_mapping)
                   ≤ length url_mapping + length (filter (fun e => usable e.1 = false)
                                                   url_mapping)
                   ∧ length url_mapping
                     - length (filter (fun e => both_usable e = true) url_mapping)
                     ≤ length (filter (fun e => usable e.1 = false) url_mapping)
                       + length (filter (fun e => usable e.2 = false) url_mapping)
                     ≤ 2 * (length url_mapping
                            - length (filter (fun e => both_usable e = true)
                                        url_mapping))
                   ∧ length (filter (fun e => (usable e.1 && pyvalue_eqb e.1 e.2) = true)
                               url_mapping)
                     ≤ length (filter (fun e => both_usable e = true) url_mapping)
                   ∧ length (filter (fun e => both_usable e = true) url_mapping)
                     ≤ length url_mapping).
  { clear. induction url_mapping as [|[old new] M IH]; [rewrite !filter_nil; cbn; lia|].
    rewrite !filter_cons. unfold both_usable in *. cbn [fst snd length].
    destruct old as [[|c s]|i], new as [[|c' s']|i']; cbn [usable andb pyvalue_eqb];
      repeat case_decide; try done; cbn [length]; try lia. }
  pose proof (ValidateFacts.all_usable url_mapping) as Hall.
  assert (Hv : ∃ v, v = match invalid_mappings r with
                         | [] => r
                         | _ :: _ => mk_validation false (total_mappings r)
                                       (valid_mappings r) (invalid_mappings r) (warnings r)
                         end ∧
                    (v.(valid) = true ↔ length (invalid_mappings r) = 0) ∧
                    v.(total_mappings) = r.(total_mappings) ∧
                    v.(valid_mappings) = r.(valid_mappings) ∧
                    v.(invalid_mappings) = r.(invalid_mappings) ∧
                    v.(warnings) = r.(warnings)).
  { eexists. split; [done|]. destruct (invalid_mappings r) eqn:Hi; cbn.
    - rewrite I1. by split_and!.
    - by split_and!. }
  destruct Hv as (v & <- & Hvalid & -> & -> & -> & ->).
  rewrite Hvalid, I2, I3, I4, I5, Hall.
  destruct Hcount as (H1 & H2 & H3 & H4).
  unfold both_usable in *. split_and!; try done; try lia.
Qed.

(** X12.  A mapping of strings that [validate_url_mapping] reports valid has
    no empty key and no empty value, which is what the text strategy needs
    to replace key by key: its result is the content cut at the
    occurrences of the keys taken in order and glued with their values,
    and its count is at most the number of occurrences of the keys. *)
Theorem validated_mapping_fits_text_strategy (content : list N)
  (url_mapping : list (list N * list N))
  (Hvalid : (validate_url_mapping (strings url_mapping)).(valid) = true) :
  Forall (fun e => e.1 ≠ [] ∧ e.2 ≠ []) url_mapping ∧
  cut_and_glued url_mapping content (_replace_urls_in_text content url_mapping).1 ∧
  (_replace_urls_in_text content url_mapping).2 ≤ total_occurrences content url_mapping.
Proof.
  assert (Hne : Forall (fun e => e.1 ≠ [] ∧ e.2 ≠ []) url_mapping).
  { apply ValidateFacts.valid_iff in Hvalid. unfold strings in Hvalid.
    apply Forall_fmap in Hvalid. eapply Forall_impl; [exact Hvalid|].
    intros [[|c k] [|c' v]]; cbn; by intros [? ?]. }
  split; [done|]. unfold _replace_urls_in_text. rewrite TextFacts.text_fold. cbn [fst snd].
  split.
  - apply TextFacts.rewritten_cut_and_glued. eapply Forall_impl; [exact Hne|].
    by intros e [? ?].
  - apply TextFacts.counted_le.
Qed.

Lemma validated_mapping_fits_text_strategy_witness :
  Forall (fun e => e.1 ≠ [] ∧ e.2 ≠ []) Example.mapping ∧
  cut_and_glued Example.mapping (py "x http://a/1.jpg")
    (_replace_urls_in_text (py "x http://a/1.jpg") Example.mapping).1 ∧
  (_replace_urls_in_text (py "x http://a/1.jpg") Example.mapping).2
  ≤ total_occurrences (py "x http://a/1.jpg") Example.mapping.
Proof.
  apply validated_mapping_fits_text_strategy. vm_compute. reflexivity.
Defined.

(** ** The report *)

Section ResultsFacts.
Context `{Codecs} `{Bs4} `{Unicode} `{ReTemplate} `{Scandir}.

(** A failed run reports no replacements. *)
Lemma failed_run_counts_nothing m p url_mapping output backup :
  (replace_urls_in_file m p url_mapping output backup).1.(success) = false →
  (replace_urls_in_file m p url_mapping output backup).1.(replacements) = 0.
Proof.
  rewrite replace_urls_in_file_stages. cbv zeta.
  repeat case_match; by simplify_eq/=.
Qed.

Variable url_mapping : list (list N * list N).
Variable P : result → Prop.
Variable R : gmap (list N) node → gmap (list N) node → Prop.
Hypothesis HP : ∀ m p output backup,
  P (replace_urls_in_file m p url_mapping output backup).1
  ∧ R m (replace_urls_in_file m p url_mapping output backup).2.
Hypothesis R_refl : ∀ m, R m m.
Hypothesis R_trans : ∀ m1 m2 m3, R m1 m2 → R m2 m3 → R m1 m3.

(** What holds of every result of the orchestrator on a mapping, and
    between the file systems before and after it, holds of every result
    of a directory run on that mapping and between the file systems
    before and after the run. *)
Lemma walk_files_Forall directory_path output_directory backup root files acc :
  Forall P acc.1 →
  Forall P (walk_files directory_path url_mapping output_directory backup root files acc).1
  ∧ R acc.2 (walk_files directory_path url_mapping output_directory backup root files acc).2.
Proof.
  revert acc. induction files as [|f files IH]; intros acc Hacc; cbn [walk_files]; [done|].
  destruct (supported (PyPath.join root f)); [|by apply IH].
  match goal with
  | |- context [replace_urls_in_file ?a ?b ?c ?d ?e] =>
      pose proof (HP a b d e) as [Hr HR];
      destruct (replace_urls_in_file a b c d e) as [r m']
  end.
  cbn [fst snd] in *.
  destruct (IH (acc.1 ++ [r], m')) as [IH1 IH2].
  { cbn [fst]. apply Forall_app. split; [done|]. by constructor. }
  split; [done|]. by eapply R_trans.
Qed.

Lemma list_files_Forall directory_path output_directory backup files acc :
  Forall P acc.1 →
  Forall P (list_files directory_path url_mapping output_directory backup files acc).1
  ∧ R acc.2 (list_files directory_path url_mapping output_directory backup files acc).2.
Proof.
  revert acc. induction files as [|f files IH]; intros acc Hacc; cbn [list_files]; [done|].
  destruct (OS.isfile acc.2 (PyPath.join directory_path f)
            && supported (PyPath.join directory_path f)); [|by apply IH].
  match goal with
  | |- context [replace_urls_in_file ?a ?b ?c ?d ?e] =>
      pose proof (HP a b d e) as [Hr HR];
      destruct (replace_urls_in_file a b c d e) as [r m']
  end.
  cbn [fst snd] in *.
  destruct (IH (acc.1 ++ [r], m')) as [IH1 IH2].
  { cbn [fst]. apply Forall_app. split; [done|]. by constructor. }
  split; [done|]. by eapply R_trans.
Qed.

Lemma walk_Forall fuel directory_path output_directory backup top acc res :
  Forall P acc.1 →
  walk fuel directory_path url_mapping output_directory backup top acc = Some res →
  Forall P res.1 ∧ R acc.2 res.2.
Proof.
  revert top acc res. induction fuel as [|fuel IH]; intros top acc res Hacc; [done|].
  cbn [walk].
  set (files := filter (λ n, OS.isdir acc.2 (PyPath.join top n) = false) _).
  generalize (filter (λ n, OS.isdir acc.2 (PyPath.join top n) = true)
                (OS.listdir acc.2 top)). intros dirs.
  pose proof (walk_files_Forall directory_path output_directory backup top
                files acc Hacc) as Hacc1.
  revert Hacc1. generalize (walk_files directory_path url_mapping output_directory backup
                              top files acc). clear Hacc.
  induction dirs as [|d dirs IHd]; intros a [Ha HRa]; cbn [descend].
  - by intros [= <-].
  - destruct (walk fuel _ _ _ _ (PyPath.join top d) a) as [a'|] eqn:Hw; [|done].
    apply IHd. apply IH in Hw as [Hw1 Hw2]; [|done]. split; [done|]. by eapply R_trans.
Qed.

Lemma replace_urls_in_directory_Forall fuel m directory_path output_directory
  recursive backup rs m' :
  replace_urls_in_directory fuel m directory_path url_mapping output_directory recursive
    backup = Some (inr (rs, m')) →
  Forall P rs ∧ R m m'.
Proof.
  unfold replace_urls_in_directory.
  destruct (negb (OS.path_exists m directory_path)); [done|].
  destruct (negb (OS.isdir m directory_path)); [done|].
  destruct recursive.
  - destruct (walk fuel _ _ _ _ _ _) as [res|] eqn:Hw; [|done]. cbn. intros [= ->].
    apply walk_Forall in Hw; [done|]. by constructor.
  - intros [= Heq].
    pose proof (list_files_Forall directory_path output_directory backup
                  (OS.listdir m directory_path) ([], m)) as Hl.
    rewrite Heq in Hl. apply Hl. by constructor.
Qed.

End ResultsFacts.

Module ReportFacts.

(** The results split into the successful and the failed ones. *)
Lemma partition (rs : list result) :
  length (filter (fun r => r.(success) = true) rs)
  + length (filter (fun r => r.(success) = false) rs) = length rs.
Proof.
  induction rs as [|r rs IH]; [done|]. rewrite !filter_cons.
  destruct (success r); repeat case_decide; try done; cbn [length]; lia.
Qed.

(** Failed results that count nothing add nothing to the total. *)
Lemma total_of_all (rs : list result) :
  Forall (fun r => r.(success) = false → r.(replacements) = 0) rs →
  sum_list (replacements <$> filter (fun r => r.(success) = true) rs)
  = sum_list (replacements <$> rs).
Proof.
  induction 1 as [|r rs Hr _ IH]; [done|]. rewrite filter_cons.
  destruct (success r) eqn:Hs; case_decide; try done; cbn; [by rewrite IH|].
  by rewrite IH, Hr.
Qed.

End ReportFacts.

(** X13.  The report of a directory run: the number of files on its fourth
    line is the sum of the numbers of successful and of failed files on
    the next two, and the total on the seventh line, which the report
    takes over the successful files, is the sum of the counts of all the
    results of the run, since a failed file counts nothing. *)
Theorem report_totals_of_directory_run `{Codecs} `{Bs4} `{Unicode} `{ReTemplate}
  `{Scandir} `{Runtime}
  (fuel : nat) (m : gmap (list N) node) (directory_path : list N)
  (url_mapping : list (list N * list N)) (output_directory : option (list N))
  (recursive backup : bool) (rs : list result) (m' : gmap (list N) node)
  (Hrun : replace_urls_in_directory fuel m directory_path url_mapping output_directory
            recursive backup = Some (inr (rs, m'))) :
  ∃ successful failed,
    successful = length (filter (fun r => r.(success) = true) rs) ∧
    failed = length (filter (fun r => r.(success) = false) rs) ∧
    report_lines rs !! 3
    = Some ([24635; 25991; 20214; 25968; 58; 32]%N ++ str_of_nat (successful + failed)) ∧
    report_lines rs !! 4
    = Some ([25104; 21151; 22788; 29702; 58; 32]%N ++ str_of_nat successful) ∧
    report_lines rs !! 5
    = Some ([22788; 29702; 22833; 36133; 58; 32]%N ++ str_of_nat failed) ∧
    report_lines rs !! 6
    = Some ([24635; 26367; 25442; 27425; 25968; 58; 32]%N
              ++ str_of_nat (sum_list (replacements <$> rs))).
Proof.
  eexists _, _. split; [done|]. split; [done|].
  rewrite ReportFacts.partition. unfold report_lines. cbn [lookup list_lookup app].
  split_and!; try done. rewrite ReportFacts.total_of_all; [done|].
  eapply (replace_urls_in_directory_Forall url_mapping
            (fun r => r.(success) = false → r.(replacements) = 0) (fun _ _ => True));
    [|done|done|exact Hrun].
  intros. split; [|done]. by apply failed_run_counts_nothing.
Qed.

Lemma report_totals_of_directory_run_witness :
  ∃ rs successful failed,
    successful = length (filter (fun r => r.(success) = true) rs) ∧
    failed = length (filter (fun r => r.(success) = false) rs) ∧
    @report_lines plain_runtime rs !! 3
    = Some ([24635; 25991; 20214; 25968; 58; 32]%N ++ str_of_nat (successful + failed)) ∧
    @report_lines plain_runtime rs !! 4
    = Some ([25104; 21151; 22788; 29702; 58; 32]%N ++ str_of_nat successful) ∧
    @report_lines plain_runtime rs !! 5
    = Some ([22788; 29702; 22833; 36133; 58; 32]%N ++ str_of_nat failed) ∧
    @report_lines plain_runtime rs !! 6
    = Some ([24635; 26367; 25442; 27425; 25968; 58; 32]%N
              ++ str_of_nat (sum_list (replacements <$> rs))).
Proof.
  destruct (@Example.replace_directory Fixture.scandir 2 Example.tree (py "d")
              Example.surrogate_mapping None true true)
    as [[e|[rs m']]|] eqn:Hrun; [by vm_compute in Hrun| | by vm_compute in Hrun].
  exists rs.
  exact (@report_totals_of_directory_run Fixture.codecs (Fixture.bs4 Example.old_url)
           Fixture.unicode Fixture.templates Fixture.scandir plain_runtime 2 Example.tree
           (py "d") Example.surrogate_mapping None true true rs m' Hrun).
Defined.


(** ** Removal of the backups *)

Module CleanupFacts.

Lemma stat_delete (m : gmap (list N) node) p k :
  k ≠ p → OS.stat (delete p m) k = OS.stat m k.
Proof. intros Hk. unfold OS.stat. by rewrite lookup_delete_ne. Qed.

Lemma isfile_delete (m : gmap (list N) node) p k :
  k ≠ p → OS.isfile (delete p m) k = OS.isfile m k.
Proof. intros Hk. unfold OS.isfile. by rewrite stat_delete. Qed.

Lemma isdir_delete_file (m : gmap (list N) node) p k :
  OS.isfile m p = true → OS.isdir (delete p m) k = OS.isdir m k.
Proof.
  intros Hp. destruct (decide (k = p)) as [->|Hk].
  - apply OSFacts.isfile_stat in Hp as [data Hst]. unfold OS.isdir. rewrite Hst.
    destruct (OSFacts.stat_file _ _ _ Hst) as (Hne & Hsl & _).
    rewrite OSFacts.stat_lookup by done. by rewrite lookup_delete_eq.
  - unfold OS.isdir. by rewrite stat_delete.
Qed.

(** Removing one backup: a regular file goes and is counted, anything
    else stays and is not. *)
Lemma remove_backup_file (p : list N) (n : nat) (m : gmap (list N) node) :
  OS.isfile m p = true →
  remove_backup p (n, m) = (n + 1, delete p m) ∧ is_Some (m !! p).
Proof.
  intros [data Hst]%OSFacts.isfile_stat. unfold remove_backup, os_remove. cbn [fst snd].
  rewrite Hst. split; [done|]. destruct (OSFacts.stat_file _ _ _ Hst) as (_ & _ & Hl).
  by rewrite Hl.
Qed.

Lemma remove_backup_other p acc : OS.isfile acc.2 p = false → remove_backup p acc = acc.
Proof.
  unfold remove_backup, os_remove, OS.isfile. by destruct (OS.stat acc.2 p) as [[?|]|].
Qed.

(** The loop of the recursive branch does what the loop of the
    non-recursive branch does: a removal that fails changes nothing. *)
Lemma cleanup_files_listed d files acc :
  cleanup_files d files acc = cleanup_listed d files acc.
Proof.
  revert acc. induction files as [|f files IH]; intros acc; [done|].
  cbn [cleanup_files cleanup_listed]. destruct (endswith (py ".backup") f); [|apply IH].
  cbn [andb]. destruct (OS.isfile acc.2 (PyPath.join d f)) eqn:Hf; [apply IH|].
  rewrite remove_backup_other by done. apply IH.
Qed.

Lemma in_cons_ne (k q : list N) (T : list (list N)) :
  k ≠ q → bool_decide (k ∈ q :: T) = bool_decide (k ∈ T).
Proof.
  intros Hk. apply bool_decide_ext. rewrite elem_of_cons.
  split; [by intros [?|?]|by right].
Qed.

(** What the loop over a listing leaves: the listed backups that were
    regular files are gone, every other entry is as it was, and the count
    has grown by the number of entries that are gone. *)
Lemma cleanup_listed_spec (d : list N) (files : list (list N)) (n : nat)
  (m : gmap (list N) node) :
  let targets := PyPath.join d <$> filter (fun f => endswith (py ".backup") f = true) files in
  let res := cleanup_listed d files (n, m) in
  (∀ k, res.2 !! k
        = if bool_decide (k ∈ targets) && OS.isfile m k then None else m !! k) ∧
  res.1 + size res.2 = n + size m.
Proof.
  revert n m. induction files as [|f files IH]; intros n m; cbn [cleanup_listed].
  - split; [|done]. intros k. rewrite filter_nil. cbn.
    rewrite bool_decide_eq_false_2; [done|apply not_elem_of_nil].
  - cbv zeta. rewrite filter_cons. cbn [fst snd].
    destruct (endswith (py ".backup") f) eqn:He; cbn [andb].
    + rewrite decide_True by done. rewrite fmap_cons.
      destruct (OS.isfile m (PyPath.join d f)) eqn:Hf.
      * destruct (remove_backup_file (PyPath.join d f) n m Hf) as [-> Hsome].
        destruct (IH (n + 1) (delete (PyPath.join d f) m)) as [IH1 IH2]. split.
        -- intros k. rewrite IH1. destruct (decide (k = PyPath.join d f)) as [->|Hk].
           ++ rewrite (bool_decide_eq_true_2 (_ ∈ _ :: _)) by left. rewrite Hf. cbn [andb].
              rewrite lookup_delete_eq. by destruct (_ && _).
           ++ by rewrite isfile_delete, lookup_delete_ne, in_cons_ne by done.
        -- rewrite IH2, map_size_delete_Some by done.
           pose proof (map_size_ne_0_lookup_2 m _ Hsome). lia.
      * destruct (IH n m) as [IH1 IH2]. split; [|done]. intros k. rewrite IH1.
        destruct (decide (k = PyPath.join d f)) as [->|Hk].
        -- rewrite Hf, !andb_false_r. done.
        -- by rewrite in_cons_ne by done.
    + rewrite decide_False by done. apply IH.
Qed.

End CleanupFacts.

Module ListdirFacts.

Lemma join_nil_length (d : list N) : length d ≤ length (PyPath.join d []).
Proof.
  unfold PyPath.join. cbn [PyStr.startswith].
  destruct (bool_decide (d = []) || PyPath.ends_with_slash d);
    rewrite ?app_nil_r, ?length_app; cbn; lia.
Qed.

(** The names of a listing: not empty, without a slash, and each the name
    of an entry of the file system. *)
Lemma listdir_elem `{Scandir} (m : gmap (list N) node) (d f : list N) :
  f ∈ OS.listdir m d ↔ f ≠ [] ∧ (slash ∉ f) ∧ is_Some (m !! PyPath.join d f).
Proof.
  rewrite (ListingFacts.listdir_children m d).
  unfold OS.children. rewrite list_elem_of_omap. split.
  - intros ([k v] & Hkv & Hc). cbn [fst] in Hc.
    pose proof (ListingFacts.child_name_join _ _ _ Hc) as ->.
    apply elem_of_map_to_list in Hkv. split_and!; [| |by exists v].
    + revert Hc. unfold OS.child_name. destruct (PyStr.startswith _ _); [|done].
      case_match eqn:Hn; [|done]. intros [= <-].
      by apply andb_true_iff in Hn as [?%bool_decide_eq_true _].
    + revert Hc. unfold OS.child_name. destruct (PyStr.startswith _ _); [|done].
      case_match eqn:Hn; [|done]. intros [= <-].
      by apply andb_true_iff in Hn as [_ ?%negb_true_iff%bool_decide_eq_false].
  - intros (Hne & Hsl & [v Hv]). exists (PyPath.join d f, v). split.
    + by apply elem_of_map_to_list.
    + cbn [fst]. unfold OS.child_name. rewrite (ListingFacts.join_child d f) by done.
      assert (PyStr.startswith (PyPath.join d []) (PyPath.join d [] ++ f) = true) as ->
        by (apply PyStrFacts.startswith_spec; by exists f).
      rewrite drop_app_length.
      rewrite bool_decide_eq_true_2, bool_decide_eq_false_2 by done. done.
Qed.

(** A path below a directory is longer than the directory's. *)
Lemma child_longer `{Scandir} (m : gmap (list N) node) (d f : list N) :
  f ∈ OS.listdir m d → length d < length (PyPath.join d f).
Proof.
  intros (Hne & Hsl & _)%listdir_elem. rewrite ListingFacts.join_child by done.
  rewrite length_app. pose proof (join_nil_length d). destruct f; [done|]. cbn [length]. lia.
Qed.

Lemma endswith_app (suffix a s : list N) :
  endswith suffix s = true → endswith suffix (a ++ s) = true.
Proof.
  unfold endswith. rewrite !andb_true_iff, !bool_decide_eq_true, length_app.
  intros [Hle Hd]. split; [lia|].
  replace (length a + length s - length suffix)
    with (length a + (length s - length suffix)) by lia.
  by rewrite drop_app_add.
Qed.

Lemma endswith_self_app (suffix a : list N) : endswith suffix (a ++ suffix) = true.
Proof.
  apply endswith_app. unfold endswith.
  rewrite Nat.sub_diag, !bool_decide_eq_true_2; done.
Qed.

End ListdirFacts.

Module CleanupRun.

Lemma removed_refl (m : gmap (list N) node) : only_backups_removed m m.
Proof. intros k. by left. Qed.

Lemma removed_trans (m1 m2 m3 : gmap (list N) node) :
  only_backups_removed m1 m2 → only_backups_removed m2 m3 → only_backups_removed m1 m3.
Proof.
  intros H12 H23 k.
  destruct (H12 k) as [E12|(N2 & He & data & Hd)], (H23 k) as [E23|(N3 & He' & data' & Hd')].
  - left. congruence.
  - right. split_and!; [done..|]. exists data'. congruence.
  - right. split_and!; [congruence|done|by exists data].
  - congruence.
Qed.

Lemma removed_keys (m m' : gmap (list N) node) k :
  only_backups_removed m m' → is_Some (m' !! k) → is_Some (m !! k).
Proof. intros Hr [v Hv]. destruct (Hr k) as [E|(E & _)]; [rewrite <- E; eauto|congruence]. Qed.

Lemma removed_isdir (m m' : gmap (list N) node) k :
  only_backups_removed m m' → OS.isdir m' k = OS.isdir m k.
Proof.
  intros Hr. unfold OS.isdir, OS.stat. case_bool_decide; [done|].
  destruct (PyPath.all_slash k); [done|].
  destruct (Hr k) as [->|(-> & _ & data & ->)]; done.
Qed.

Lemma removed_gone (m m' : gmap (list N) node) k :
  only_backups_removed m m' → m !! k = None → m' !! k = None.
Proof. intros Hr Hk. destruct (Hr k) as [->|(-> & _)]; done. Qed.

(** The loop over a listing removes only backups. *)
Lemma listed_removed (d : list N) (files : list (list N)) (n : nat)
  (m : gmap (list N) node) :
  Forall (fun f => f ≠ [] ∧ slash ∉ f) files →
  only_backups_removed m (cleanup_listed d files (n, m)).2.
Proof.
  intros Hnames k. destruct (CleanupFacts.cleanup_listed_spec d files n m) as [Hl _].
  cbv zeta in Hl. rewrite Hl.
  destruct (bool_decide _ && OS.isfile m k) eqn:Hc; [|by left]. right.
  apply andb_true_iff in Hc as [Hin%bool_decide_eq_true Hf].
  apply list_elem_of_fmap in Hin as (f & -> & Hin).
  apply list_elem_of_filter in Hin as [He Hin].
  rewrite Forall_forall in Hnames. destruct (Hnames f Hin) as [Hne Hsl].
  split_and!; [done| |].
  - rewrite ListingFacts.join_child by done. by apply ListdirFacts.endswith_app.
  - apply OSFacts.isfile_stat in Hf as [data Hst]. exists data.
    by destruct (OSFacts.stat_file _ _ _ Hst) as (_ & _ & ?).
Qed.

Lemma listdir_names `{Scandir} (m : gmap (list N) node) (d : list N)
  (keep : list N → Prop) `{∀ f, Decision (keep f)} :
  Forall (fun f => f ≠ [] ∧ slash ∉ f) (filter keep (OS.listdir m d)).
Proof.
  apply Forall_forall. intros f [_ Hin]%list_elem_of_filter.
  apply ListdirFacts.listdir_elem in Hin as (? & ? & _). done.
Qed.

(** The recursive walk returns when the fuel covers the longest path of
    the file system; it removes only backups and counts what it
    removes. *)
Lemma cleanup_walk_spec `{Scandir} (L : nat) :
  ∀ (fuel : nat) (top : list N) (n : nat) (m : gmap (list N) node),
    (∀ k, is_Some (m !! k) → length k ≤ L) →
    L ≤ fuel + length top →
    ∃ n' m', cleanup_walk (S fuel) top (n, m) = Some (n', m') ∧
             only_backups_removed m m' ∧ n' + size m' = n + size m.
Proof.
  intros fuel. induction fuel as [fuel IH] using lt_wf_ind. intros top n m HL Hfuel.
  cbn [cleanup_walk fst snd].
  destruct (OS.isdir m top) eqn:Hdir; cbn [negb];
    [|exists n, m; split_and!; [done|apply removed_refl|done]].
  rewrite CleanupFacts.cleanup_files_listed.
  set (files := filter (λ f, OS.isdir m (PyPath.join top f) = false) (OS.listdir m top)).
  pose proof (listed_removed top files n m (listdir_names m top _)) as Hrem1.
  destruct (CleanupFacts.cleanup_listed_spec top files n m) as [_ Hsize1].
  cbv zeta in Hsize1.
  destruct (cleanup_listed top files (n, m)) as [n1 m1]. cbn [fst snd] in *.
  assert (Hdirs : Forall (fun d => is_Some (m !! PyPath.join top d)
                                   ∧ length top < length (PyPath.join top d))
                    (filter (λ f, OS.isdir m (PyPath.join top f) = true) (OS.listdir m top))).
  { apply Forall_forall. intros d [_ Hin]%list_elem_of_filter. split.
    - by apply ListdirFacts.listdir_elem in Hin as (_ & _ & ?).
    - by eapply ListdirFacts.child_longer. }
  revert Hdirs. generalize (filter (λ f, OS.isdir m (PyPath.join top f) = true)
                              (OS.listdir m top)). intros dirs.
  revert n1 m1 Hrem1 Hsize1. clear files.
  induction dirs as [|d dirs IHd]; intros n1 m1 Hrem1 Hsize1 Hdirs; cbn [descend].
  - by exists n1, m1.
  - apply Forall_cons in Hdirs as [[Hkey Hlen] Hdirs].
    pose proof (HL _ Hkey) as Hbound.
    destruct fuel as [|fuel']; [lia|].
    destruct (IH fuel' (Nat.lt_succ_diag_r _) (PyPath.join top d) n1 m1)
      as (n2 & m2 & -> & Hrem2 & Hsize2).
    + intros k Hk. apply HL. by eapply removed_keys.
    + lia.
    + apply IHd; [by eapply removed_trans|lia|done].
Qed.

End CleanupRun.

(** X15.  The non-recursive cleanup of an existing directory returns; the
    backups directly in the directory, the names of its listing that end
    in .backup and are regular files, are gone, every other entry of the
    file system is as it was, and the count is the number of entries
    removed. *)
Theorem cleanup_of_a_listing `{Scandir} (fuel : nat) (m : gmap (list N) node) (d : list N)
  (Hdir : OS.isdir m d = true) :
  ∃ n m',
    cleanup_backups fuel m d false = Some (inr (n, m')) ∧
    (∀ k, k ∈ backups_in m d → m' !! k = None) ∧
    (∀ k, k ∉ backups_in m d → m' !! k = m !! k) ∧
    n + size m' = size m.
Proof.
  unfold cleanup_backups, os_listdir. apply OSFacts.isdir_stat in Hdir as ->.
  destruct (CleanupFacts.cleanup_listed_spec d (OS.listdir m d) 0 m) as [Hl Hs].
  cbv zeta in *. destruct (cleanup_listed d (OS.listdir m d) (0, m)) as [n m'].
  cbn [fst snd] in *. exists n, m'.
  assert (Hin : ∀ k, k ∈ backups_in m d
    ↔ (k ∈ PyPath.join d <$> filter (fun f => endswith (py ".backup") f = true)
                              (OS.listdir m d))
      ∧ OS.isfile m k = true).
  { intros k. unfold backups_in. rewrite !list_elem_of_fmap. split.
    - intros (f & -> & [[He Hf]%andb_true_iff Hin]%list_elem_of_filter).
      split; [|done]. exists f. split; [done|]. by apply list_elem_of_filter.
    - intros [(f & -> & [He Hin]%list_elem_of_filter) Hf].
      exists f. split; [done|]. apply list_elem_of_filter. by rewrite He, Hf. }
  split_and!; [done| | |done].
  - intros k [Hk Hf]%Hin. by rewrite Hl, bool_decide_eq_true_2, Hf.
  - intros k Hk. rewrite Hl. destruct (bool_decide _ && _) eqn:Hc; [|done].
    apply andb_true_iff in Hc as [?%bool_decide_eq_true ?]. destruct Hk. by apply Hin.
Qed.

Lemma cleanup_of_a_listing_witness :
  ∃ n m',
    @cleanup_backups Fixture.scandir 0 (<[py "d/a.txt.backup" := File []]> Example.tree)
      (py "d") false
    = Some (inr (n, m')) ∧
    (∀ k, k ∈ @backups_in Fixture.scandir
                (<[py "d/a.txt.backup" := File []]> Example.tree) (py "d") →
          m' !! k = None) ∧
    (∀ k, k ∉ @backups_in Fixture.scandir
                (<[py "d/a.txt.backup" := File []]> Example.tree) (py "d") →
          m' !! k = <[py "d/a.txt.backup" := File []]> Example.tree !! k) ∧
    n + size m' = size (<[py "d/a.txt.backup" := File []]> Example.tree).
Proof.
  apply (@cleanup_of_a_listing Fixture.scandir 0
           (<[py "d/a.txt.backup" := File []]> Example.tree) (py "d")).
  vm_compute. reflexivity.
Defined.

(** X16.  The recursive cleanup returns once the fuel covers the longest path
    of the file system.  Whatever it removes is a regular file whose path
    ends in .backup, so directories and all other files stay; the count is
    the number of entries removed; and the backups directly in the
    directory are gone. *)
Theorem recursive_cleanup_removes_only_backups `{Scandir} (fuel : nat) (m : gmap (list N) node)
  (d : list N)
  (Hfuel : ∀ k, is_Some (m !! k) → length k ≤ fuel) :
  ∃ n m',
    cleanup_backups (S fuel) m d true = Some (inr (n, m')) ∧
    only_backups_removed m m' ∧
    n + size m' = size m ∧
    (OS.isdir m d = true → ∀ k, k ∈ backups_in m d → m' !! k = None).
Proof.
  unfold cleanup_backups.
  destruct (CleanupRun.cleanup_walk_spec fuel fuel d 0 m Hfuel) as (n & m' & Hw & Hr & Hs);
    [lia|].
  rewrite Hw. exists n, m'. split_and!; [done..|].
  intros Hdir k Hk. revert Hw. cbn [cleanup_walk fst snd]. rewrite Hdir. cbn [negb].
  rewrite CleanupFacts.cleanup_files_listed.
  set (files := filter (λ f, OS.isdir m (PyPath.join d f) = false) (OS.listdir m d)).
  destruct (CleanupFacts.cleanup_listed_spec d files 0 m) as [Hl _]. cbv zeta in Hl.
  assert (Hgone : (cleanup_listed d files (0, m)).2 !! k = None).
  { rewrite Hl. unfold backups_in in Hk.
    apply list_elem_of_fmap in Hk as (f & -> & [[He Hf]%andb_true_iff Hin]%list_elem_of_filter).
    rewrite Hf, bool_decide_eq_true_2; [done|].
    apply list_elem_of_fmap. exists f. split; [done|].
    apply list_elem_of_filter. split; [done|]. apply list_elem_of_filter. split; [|done].
    apply OSFacts.isfile_stat in Hf as [data Hst]. unfold OS.isdir. by rewrite Hst. }
  revert Hgone. generalize (cleanup_listed d files (0, m)).
  generalize (filter (λ f, OS.isdir m (PyPath.join d f) = true) (OS.listdir m d)).
  intros dirs. induction dirs as [|x dirs IHd]; intros a Ha; cbn [descend].
  - by intros [= ->].
  - destruct (cleanup_walk fuel (PyPath.join d x) a) as [[n2 m2]|] eqn:Hx; [|done].
    apply IHd. cbn [snd].
    destruct fuel as [|fuel']; [done|].
    assert (Hany : ∀ L top n0 m0 res, cleanup_walk L top (n0, m0) = Some res →
                                      m0 !! k = None → res.2 !! k = None);
      [|destruct a; by eapply (Hany _ _ _ _ (n2, m2))].
    clear. intros L. induction L as [|L IH]; intros top n0 m0 res; [done|].
    cbn [cleanup_walk fst snd]. destruct (negb (OS.isdir m0 top)); [by intros [= <-]|].
    rewrite CleanupFacts.cleanup_files_listed.
    set (fs := filter (λ f, OS.isdir m0 (PyPath.join top f) = false) (OS.listdir m0 top)).
    destruct (CleanupFacts.cleanup_listed_spec top fs n0 m0) as [Hl _]. cbv zeta in Hl.
    intros Hd Hk0.
    assert (Hg : (cleanup_listed top fs (n0, m0)).2 !! k = None).
    { rewrite Hl, Hk0. by destruct (_ && _). }
    revert Hd Hg. generalize (cleanup_listed top fs (n0, m0)).
    generalize (filter (λ f, OS.isdir m0 (PyPath.join top f) = true) (OS.listdir m0 top)).
    intros ds. induction ds as [|y ds IHy]; intros b; cbn [descend].
    + by intros [= ->].
    + destruct (cleanup_walk L (PyPath.join top y) b) as [b'|] eqn:Hb; [|done].
      intros Hd Hg. eapply IHy; [done|]. destruct b. by eapply IH.
Qed.

Lemma recursive_cleanup_removes_only_backups_witness :
  ∃ n m',
    @cleanup_backups Fixture.scandir (S 20)
      (<[py "d/sub/c.html.backup" := File []]> Example.tree)
      (py "d") true = Some (inr (n, m')) ∧
    only_backups_removed (<[py "d/sub/c.html.backup" := File []]> Example.tree) m' ∧
    n + size m' = size (<[py "d/sub/c.html.backup" := File []]> Example.tree) ∧
    (OS.isdir (<[py "d/sub/c.html.backup" := File []]> Example.tree) (py "d") = true →
     ∀ k, k ∈ @backups_in Fixture.scandir
                (<[py "d/sub/c.html.backup" := File []]> Example.tree) (py "d") →
          m' !! k = None).
Proof.
  apply (@recursive_cleanup_removes_only_backups Fixture.scandir 20
           (<[py "d/sub/c.html.backup" := File []]> Example.tree) (py "d")).
  intros k Hk.
  assert (Hdom : k ∈ dom (<[py "d/sub/c.html.backup" := File []]> Example.tree))
    by by apply elem_of_dom.
  revert Hdom. unfold Example.tree. rewrite !dom_insert, dom_empty.
  rewrite !elem_of_union, !elem_of_singleton, elem_of_empty.
  intros [->|[->|[->|[->|[->|[->|[]]]]]]]; vm_compute; lia.
Defined.

(** X17.  After the non-recursive cleanup of its directory a file cannot be
    restored any more: where [restore_from_backup] returned true before,
    the backup is gone, and it returns false and changes nothing. *)
Theorem cleanup_forfeits_restore `{Scandir} (fuel : nat) (m : gmap (list N) node) (d f : list N)
  (Hdir : OS.isdir m d = true)
  (Hname : f ≠ [] ∧ slash ∉ f)
  (Hfile : OS.isfile m (PyPath.join d f) = true)
  (Hbackup : OS.isfile m (PyPath.join d f ++ py ".backup") = true) :
  ∃ n m',
    cleanup_backups fuel m d false = Some (inr (n, m')) ∧
    (restore_from_backup m (PyPath.join d f)).1 = true ∧
    restore_from_backup m' (PyPath.join d f) = (false, m').
Proof.
  destruct Hname as [Hne Hsl].
  assert (Hsl' : slash ∉ f ++ py ".backup").
  { rewrite not_elem_of_app. split; [done|]. by apply (bool_decide_eq_false_1 (slash ∈ py ".backup")). }
  assert (Hpath : PyPath.join d f ++ py ".backup" = PyPath.join d (f ++ py ".backup")).
  { rewrite (ListingFacts.join_child d f), (ListingFacts.join_child d (f ++ _));
      [by rewrite app_assoc|by destruct f|done..]. }
  unfold cleanup_backups, os_listdir. pose proof Hdir as Hst.
  apply OSFacts.isdir_stat in Hst as ->.
  destruct (CleanupFacts.cleanup_listed_spec d (OS.listdir m d) 0 m) as [Hl _].
  cbv zeta in Hl. destruct (cleanup_listed d (OS.listdir m d) (0, m)) as [n m'].
  cbn [snd] in Hl. exists n, m'. split; [done|].
  destruct (OSFacts.backup_path_proper (PyPath.join d f)) as (_ & Hb1 & Hb2).
  pose proof Hbackup as [data Hdata]%OSFacts.isfile_stat.
  pose proof Hfile as [b Hb]%OSFacts.isfile_stat.
  destruct (OSFacts.stat_file _ _ _ Hdata) as (_ & _ & Hlook).
  split.
  - by rewrite (restore_from_backup_ok m _ data b).
  - unfold restore_from_backup.
    assert (OS.path_exists m' (PyPath.join d f ++ py ".backup") = false) as ->; [|done].
    apply bool_decide_eq_false. unfold OS.stat.
    rewrite bool_decide_eq_false_2 by done. rewrite Hb2, Hl, Hbackup.
    rewrite bool_decide_eq_true_2; [by intros [? ?]|].
    rewrite Hpath. apply list_elem_of_fmap. eexists. split; [done|].
    apply list_elem_of_filter. split; [apply ListdirFacts.endswith_self_app|].
    apply ListdirFacts.listdir_elem. rewrite <- Hpath, Hlook. split_and!; eauto.
    by destruct f.
Qed.

Lemma cleanup_forfeits_restore_witness :
  let m := <[py "d/a.txt.backup" := File []]> Example.tree in
  ∃ n m',
    @cleanup_backups Fixture.scandir 0 m (py "d") false = Some (inr (n, m')) ∧
    (restore_from_backup m (PyPath.join (py "d") (py "a.txt"))).1 = true ∧
    restore_from_backup m' (PyPath.join (py "d") (py "a.txt")) = (false, m').
Proof.
  intros m.
  apply (@cleanup_forfeits_restore Fixture.scandir 0 m (py "d") (py "a.txt")); [by vm_compute| |
    by vm_compute|by vm_compute].
  split; [done|]. by apply (bool_decide_eq_false_1 (slash ∈ py "a.txt")).
Defined.

(** X18.  A path that is no directory stops the non-recursive cleanup with
    the error of the listing, which is not caught: NotADirectoryError
    when the path is a regular file or leads through one,
    FileNotFoundError when it names nothing and no regular file is on the
    way to it.  The recursive cleanup returns without an error and
    without a change. *)
Theorem cleanup_without_directory `{Scandir} (fuel : nat) (m : gmap (list N) node)
  (d : list N)
  (Hnodir : OS.isdir m d = false) :
  (∃ e, cleanup_backups fuel m d false = Some (inl e)
        ∧ (e = FileNotFoundError d ∧ under_file m d = false ∧ OS.path_exists m d = false
           ∨ e = NotADirectoryError d ∧ under_file m d = true)) ∧
  cleanup_backups (S fuel) m d true = Some (inr (0, m)).
Proof.
  split.
  - unfold cleanup_backups, os_listdir.
    destruct (OS.stat m d) as [[data|]|] eqn:Hst.
    + assert (Hunder : under_file m d = true).
      { unfold under_file, OS.isfile. by rewrite Hst. }
      rewrite Hunder. eexists. split; [done|]. by right.
    + apply OSFacts.isdir_stat in Hst. congruence.
    + destruct (under_file m d) eqn:Hunder; (eexists; split; [done|]); [by right|].
      left. split_and!; [done | done |].
      destruct (OS.path_exists m d) eqn:Hex; [|done].
      apply OSFacts.path_exists_stat in Hex as [? ?]. congruence.
  - unfold cleanup_backups. cbn [cleanup_walk snd]. by rewrite Hnodir.
Qed.

Lemma cleanup_without_directory_witness :
  (∃ e, @cleanup_backups Fixture.scandir 0 Example.tree (py "d/a.txt/x") false
        = Some (inl e)
        ∧ (e = FileNotFoundError (py "d/a.txt/x") ∧
           under_file Example.tree (py "d/a.txt/x") = false ∧
           OS.path_exists Example.tree (py "d/a.txt/x") = false
           ∨ e = NotADirectoryError (py "d/a.txt/x") ∧
             under_file Example.tree (py "d/a.txt/x") = true)) ∧
  @cleanup_backups Fixture.scandir 1 Example.tree (py "d/a.txt/x") true
  = Some (inr (0, Example.tree)).
Proof.
  apply (@cleanup_without_directory Fixture.scandir 0 Example.tree (py "d/a.txt/x")).
  vm_compute. reflexivity.
Defined.

(** ** Directory runs and their callers *)

Section EmptyRun.
Context `{Codecs} `{Bs4} `{Unicode} `{ReTemplate} `{Scandir}.

(** On the empty mapping a file is refused and nothing is touched. *)
Lemma empty_mapping_file (m : gmap (list N) node) (p : list N)
    (output : option (list N)) (backup : bool) :
  ∃ r, replace_urls_in_file m p [] output backup = (r, m) ∧
       refused r ∧ r.(file_path) = p.
Proof.
  rewrite replace_urls_in_file_stages. cbv zeta. unfold refused.
  destruct (negb (OS.path_exists m p)); cbn; eexists; split_and!; eauto.
Qed.

Lemma walk_files_empty (m : gmap (list N) node) (d : list N)
    (output_directory : option (list N)) (backup : bool) (root : list N)
    (files : list (list N)) (rs : list result) :
  ∃ rs', walk_files d [] output_directory backup root files (rs, m) = (rs ++ rs', m) ∧
         Forall refused rs' ∧
         file_path <$> rs'
         = PyPath.join root <$>
             filter (fun f => supported (PyPath.join root f) = true) files.
Proof.
  revert rs. induction files as [|f files IH]; intros rs; cbn [walk_files].
  - exists []. by rewrite app_nil_r.
  - rewrite filter_cons. destruct (supported (PyPath.join root f)) eqn:Hs.
    + cbn [snd].
      destruct (empty_mapping_file m (PyPath.join root f)
                  (match given output_directory with
                   | Some out => Some (PyPath.join out
                                         (PyPath.relpath (PyPath.join root f) d))
                   | None => None
                   end) backup) as (r & -> & Hr & Hp).
      cbn [fst]. destruct (IH (rs ++ [r])) as (rs' & -> & Hrs' & Hpaths).
      exists (r :: rs'). rewrite <- app_assoc. split_and!; [done | by constructor |].
      rewrite decide_True by done. rewrite !fmap_cons. by rewrite Hp, Hpaths.
    + rewrite decide_False by done. apply IH.
Qed.

Lemma list_files_empty (m : gmap (list N) node) (d : list N)
    (output_directory : option (list N)) (backup : bool)
    (files : list (list N)) (rs : list result) :
  ∃ rs', list_files d [] output_directory backup files (rs, m) = (rs ++ rs', m) ∧
         Forall refused rs' ∧
         file_path <$> rs'
         = PyPath.join d <$>
             filter (fun f => OS.isfile m (PyPath.join d f)
                              && supported (PyPath.join d f) = true) files.
Proof.
  revert rs. induction files as [|f files IH]; intros rs; cbn [list_files].
  - exists []. by rewrite app_nil_r.
  - rewrite filter_cons. cbn [snd].
    destruct (OS.isfile m (PyPath.join d f) && supported (PyPath.join d f)) eqn:Hs.
    + destruct (empty_mapping_file m (PyPath.join d f)
                  (match given output_directory with
                   | Some out => Some (PyPath.join out f)
                   | None => None
                   end) backup) as (r & -> & Hr & Hp).
      cbn [fst]. destruct (IH (rs ++ [r])) as (rs' & -> & Hrs' & Hpaths).
      exists (r :: rs'). rewrite <- app_assoc. split_and!; [done | by constructor |].
      rewrite decide_True by done. rewrite !fmap_cons. by rewrite Hp, Hpaths.
    + rewrite decide_False by done. apply IH.
Qed.

(** The walk on the empty mapping returns when the fuel covers the longest
    path of the file system, with one refusal for each supported file of
    the directories it comes to. *)
Lemma walk_empty (m : gmap (list N) node) (d : list N)
    (output_directory : option (list N)) (backup : bool) (L : nat) :
  (∀ k, is_Some (m !! k) → length k ≤ L) →
  ∀ (fuel : nat) (top : list N) (rs : list result),
    L ≤ fuel + length top →
    ∃ rs', walk (S fuel) d [] output_directory backup top (rs, m) = Some (rs ++ rs', m) ∧
           Forall refused rs' ∧
           ∀ p, p ∈ file_path <$> rs' ↔ walk_file m top p.
Proof.
  intros HL fuel. induction fuel as [fuel IH] using lt_wf_ind. intros top rs Hfuel.
  cbn [walk fst snd].
  destruct (walk_files_empty m d output_directory backup top
              (filter (λ f, OS.isdir m (PyPath.join top f) = false) (OS.listdir m top)) rs)
    as (rs1 & -> & Hrs1 & Hp1).
  assert (Hdescend : ∀ ds (acc : list result),
    Forall (fun s => s ∈ OS.listdir m top ∧ OS.isdir m (PyPath.join top s) = true) ds →
    ∃ rs2, descend (fun s a => walk fuel d [] output_directory backup (PyPath.join top s) a)
             ds (acc, m) = Some (acc ++ rs2, m) ∧
           Forall refused rs2 ∧
           ∀ p, p ∈ file_path <$> rs2 ↔ ∃ s, s ∈ ds ∧ walk_file m (PyPath.join top s) p).
  { intros ds. induction ds as [|s ds IHd]; intros acc Hds; cbn [descend].
    - exists []. rewrite app_nil_r. split_and!; [done | done |].
      intros p. split; [by intros ?%elem_of_nil|]. by intros (s & ?%elem_of_nil & _).
    - apply Forall_cons in Hds as [[Hin Hdir] Hds].
      pose proof (ListdirFacts.child_longer m top s Hin) as Hlen.
      assert (Hkey : is_Some (m !! PyPath.join top s)).
      { by apply ListdirFacts.listdir_elem in Hin as (_ & _ & ?). }
      pose proof (HL _ Hkey) as Hbound.
      destruct fuel as [|fuel']; [lia|].
      destruct (IH fuel' (Nat.lt_succ_diag_r _) (PyPath.join top s) acc)
        as (rsA & -> & HrsA & HpA); [lia|].
      destruct (IHd (acc ++ rsA) Hds) as (rsB & -> & HrsB & HpB).
      exists (rsA ++ rsB). rewrite app_assoc. split_and!; [done | by apply Forall_app |].
      intros p. rewrite fmap_app, elem_of_app, HpA, HpB. split.
      + intros [Hw|(s' & Hs' & Hw)]; [exists s; split; [by left|done]|].
        exists s'. split; [by right|done].
      + intros (s' & [->|Hs']%elem_of_cons & Hw); [by left|]. right. by exists s'. }
  destruct (Hdescend (filter (λ f, OS.isdir m (PyPath.join top f) = true)
                        (OS.listdir m top)) (rs ++ rs1))
    as (rs2 & -> & Hrs2 & Hp2).
  { apply Forall_forall. by intros s [? ?]%list_elem_of_filter. }
  exists (rs1 ++ rs2). rewrite app_assoc. split_and!; [done | by apply Forall_app |].
  intros p. rewrite fmap_app, elem_of_app, Hp1, Hp2. split.
  - intros [Hin|(s & [Hdir Hin]%list_elem_of_filter & (t & f & Hr & Hw))].
    + apply list_elem_of_fmap in Hin as (f & -> & [Hs [Hnd Hin]%list_elem_of_filter]%list_elem_of_filter).
      exists top, f. split_and!; [constructor | done..].
    + exists t, f. split; [|done]. by eapply reached_below.
  - intros (t & f & Hr & Hin & Hnd & Hs & ->).
    inversion Hr as [top'|top' s t' Hsin Hsdir Hr']; subst.
    + left. apply list_elem_of_fmap. exists f. split; [done|].
      apply list_elem_of_filter. split; [done|]. by apply list_elem_of_filter.
    + right. exists s. split; [by apply list_elem_of_filter|]. by exists t, f.
Qed.

End EmptyRun.

(** X19.  A directory run on the empty mapping over an existing directory
    returns, once the fuel covers the longest path of the file system,
    and leaves the file system as it was.  Every result is a refusal:
    a failure with no replacements and no backup, for the empty mapping or
    for a file that is not there.  The non-recursive run has one result
    for each name of the listing that is a regular file with a supported
    suffix, in the order of the listing; the results of the recursive run
    are for the files with a supported suffix in the directories that the
    walk comes to, and each of these files has a result. *)
Theorem empty_mapping_directory_run `{Codecs} `{Bs4} `{Unicode} `{ReTemplate} `{Scandir}
  (fuel : nat) (m : gmap (list N) node) (directory_path : list N)
  (output_directory : option (list N)) (recursive backup : bool)
  (Hdir : OS.isdir m directory_path = true)
  (Hfuel : ∀ k, is_Some (m !! k) → length k ≤ fuel) :
  ∃ rs,
    replace_urls_in_directory (S fuel) m directory_path [] output_directory recursive
      backup = Some (inr (rs, m)) ∧
    Forall refused rs ∧
    (recursive = false →
     file_path <$> rs
     = PyPath.join directory_path <$>
         filter (fun f => OS.isfile m (PyPath.join directory_path f)
                          && supported (PyPath.join directory_path f) = true)
           (OS.listdir m directory_path)) ∧
    (recursive = true → ∀ p, p ∈ file_path <$> rs ↔ walk_file m directory_path p).
Proof.
  unfold replace_urls_in_directory.
  assert (OS.path_exists m directory_path = true) as ->.
  { apply OSFacts.path_exists_stat. apply OSFacts.isdir_stat in Hdir. by rewrite Hdir. }
  rewrite Hdir. cbn [negb]. destruct recursive.
  - destruct (walk_empty m directory_path output_directory backup fuel Hfuel fuel
                directory_path []) as (rs & -> & Hrs & Hp); [lia|].
    exists rs. split_and!; done.
  - destruct (list_files_empty m directory_path output_directory backup
                (OS.listdir m directory_path) []) as (rs & -> & Hrs & Hp).
    exists rs. split_and!; done.
Qed.

Lemma empty_mapping_directory_run_witness :
  ∃ rs,
    @Example.replace_directory Fixture.scandir 21 Example.tree (py "d") [] None true true
    = Some (inr (rs, Example.tree)) ∧
    Forall refused rs ∧
    (true = false →
     file_path <$> rs
     = PyPath.join (py "d") <$>
         filter (fun f => OS.isfile Example.tree (PyPath.join (py "d") f)
                          && @supported Fixture.unicode (PyPath.join (py "d") f) = true)
           (@OS.listdir Fixture.scandir Example.tree (py "d"))) ∧
    (true = true →
     ∀ p, p ∈ file_path <$> rs
          ↔ @walk_file Fixture.unicode Fixture.scandir Example.tree (py "d") p).
Proof.
  apply (@empty_mapping_directory_run Fixture.codecs (Fixture.bs4 Example.old_url)
           Fixture.unicode Fixture.templates Fixture.scandir 20 Example.tree (py "d")
           None true true); [by vm_compute|].
  intros k Hk.
  assert (Hdom : k ∈ dom Example.tree) by by apply elem_of_dom.
  revert Hdom. unfold Example.tree. rewrite !dom_insert, dom_empty.
  rewrite !elem_of_union, !elem_of_singleton, elem_of_empty.
  intros [->|[->|[->|[->|[->|[]]]]]]; vm_compute; lia.
Defined.

(** X20.  The entry point of main.py never passes on an exception of the
    engine: it calls the directory run only on a directory.  With an empty
    mapping, or a path that is neither a regular file nor a directory, it
    returns no result and touches nothing; on a regular file it returns
    the single result of the orchestrator. *)
Theorem documents_entry_point_never_raises `{Codecs} `{Bs4} `{Unicode} `{ReTemplate}
  `{Scandir}
  (fuel : nat) (m : gmap (list N) node) (source_path : list N)
  (url_mapping : list (list N * list N)) (output_path : option (list N)) (backup : bool) :
  let run := replace_urls_in_documents fuel m source_path url_mapping output_path backup in
  (∀ e, run ≠ Some (inl e)) ∧
  (url_mapping = [] ∨ (OS.isfile m source_path = false ∧ OS.isdir m source_path = false) →
   run = Some (inr ([], m))) ∧
  (url_mapping ≠ [] → OS.isfile m source_path = true →
   run = Some (inr ([(replace_urls_in_file m source_path url_mapping output_path backup).1],
                    (replace_urls_in_file m source_path url_mapping output_path backup).2))).
Proof.
  intros run. unfold run, replace_urls_in_documents. split_and!.
  - intros e. case_bool_decide; [done|].
    destruct (OS.isfile m source_path); [by destruct (replace_urls_in_file _ _ _ _ _)|].
    destruct (OS.isdir m source_path) eqn:Hdir; [|done].
    unfold replace_urls_in_directory. rewrite Hdir.
    assert (OS.path_exists m source_path = true) as ->.
    { apply OSFacts.path_exists_stat. apply OSFacts.isdir_stat in Hdir. by rewrite Hdir. }
    cbn [negb]. by destruct (walk _ _ _ _ _ _ _).
  - intros [->|[-> ->]]; [done|]. by case_bool_decide.
  - intros Hne ->. rewrite bool_decide_eq_false_2 by done.
    by destruct (replace_urls_in_file _ _ _ _ _).
Qed.

(** A successful run in place with backup names its backup. *)
Lemma run_in_place_names_backup `{Codecs} `{Bs4} `{Unicode} `{ReTemplate}
  (m : gmap (list N) node) (p : list N) (url_mapping : list (list N * list N))
  (r : result) (m' : gmap (list N) node) :
  replace_urls_in_file m p url_mapping None true = (r, m') →
  r.(success) = true →
  r.(backup_path) = Some (p ++ py ".backup").
Proof.
  rewrite replace_urls_in_file_stages. cbv zeta.
  rewrite (bool_decide_eq_true_2 (None = None ∨ None = Some p)) by by left. cbn [andb].
  intros Hrun Hok. repeat case_match; by simplify_eq/=.
Qed.

(** X21.  The backup keeps one generation only.  When a file is rewritten in
    place with backup twice, the second run copies over the backup of the
    first: after it the backup holds what the first run wrote, and the
    bytes the file held at the beginning are in neither file unless the
    first run wrote them back. *)
Theorem second_run_overwrites_backup `{Codecs} `{Bs4} `{Unicode} `{ReTemplate}
  (m m1 m2 : gmap (list N) node) (p : list N)
  (mapping1 mapping2 : list (list N * list N)) (r1 r2 : result)
  (Hfree : OS.isdir m (p ++ py ".backup") = false)
  (Hrun1 : replace_urls_in_file m p mapping1 None true = (r1, m1))
  (Hok1 : r1.(success) = true)
  (Hrun2 : replace_urls_in_file m1 p mapping2 None true = (r2, m2))
  (Hok2 : r2.(success) = true) :
  ∃ original first second,
    m !! p = Some (File original) ∧
    m1 !! p = Some (File first) ∧ m1 !! (p ++ py ".backup") = Some (File original) ∧
    m2 !! p = Some (File second) ∧ m2 !! (p ++ py ".backup") = Some (File first).
Proof.
  pose proof (run_in_place_names_backup _ _ _ _ _ Hrun1 Hok1) as Hb1.
  pose proof (run_in_place_names_backup _ _ _ _ _ Hrun2 Hok2) as Hb2.
  destruct (run_backup _ _ _ _ _ _ _ _ Hrun1 Hb1) as (_ & _ & _ & original & Hst & Hbk1).
  destruct (run_success _ _ _ _ _ _ _ Hrun1 Hok1)
    as (_ & _ & _ & _ & first & _ & _ & _ & _ & Hp1).
  destruct (run_backup _ _ _ _ _ _ _ _ Hrun2 Hb2) as (_ & _ & _ & data & Hst1 & Hbk2).
  destruct (run_success _ _ _ _ _ _ _ Hrun2 Hok2)
    as (_ & _ & _ & _ & second & _ & _ & _ & _ & Hp2).
  cbn [py_or] in Hp1, Hp2.
  destruct (OSFacts.stat_file _ _ _ Hst) as (Hne & Hsl & Hl).
  destruct (OSFacts.backup_path_proper p) as (_ & Hbne & Hbsl).
  unfold OS.copy2_target in Hbk1. rewrite Hfree in Hbk1.
  rewrite OSFacts.stat_lookup, Hp1 in Hst1 by done. injection Hst1 as <-.
  assert (Hdir1 : OS.isdir m1 (p ++ py ".backup") = false).
  { unfold OS.isdir. by rewrite OSFacts.stat_lookup, Hbk1 by done. }
  unfold OS.copy2_target in Hbk2. rewrite Hdir1 in Hbk2.
  by exists original, first, second.
Qed.

Lemma second_run_overwrites_backup_witness :
  let run1 := Example.replace_file Example.one_file (py "a.txt") Example.mapping None true in
  let run2 := Example.replace_file run1.2 (py "a.txt") Example.mapping None true in
  ∃ original first second,
    Example.one_file !! py "a.txt" = Some (File original) ∧
    run1.2 !! py "a.txt" = Some (File first) ∧
    run1.2 !! (py "a.txt" ++ py ".backup") = Some (File original) ∧
    run2.2 !! py "a.txt" = Some (File second) ∧
    run2.2 !! (py "a.txt" ++ py ".backup") = Some (File first).
Proof.
  intros run1 run2.
  apply (@second_run_overwrites_backup Fixture.codecs (Fixture.bs4 Example.old_url)
           Fixture.unicode Fixture.templates Example.one_file run1.2 run2.2 (py "a.txt")
           Example.mapping Example.mapping run1.1 run2.1).
  - vm_compute. reflexivity.
  - apply surjective_pairing.
  - vm_compute. reflexivity.
  - apply surjective_pairing.
  - vm_compute. reflexivity.
Defined.

Module SuffixFacts.
Import PyPath.







End SuffixFacts.

Section SupportedFacts.
Context `{Codecs} `{Bs4} `{Unicode} `{ReTemplate} `{Scandir}.


End SupportedFacts.



(** ** The Markdown strategy on plain text *)

Section PlainMarkdownFacts.
Context `{Unicode} `{ReTemplate}.

(** The pattern for Markdown images starts with "!": it matches nowhere
    in a text without that character. *)
Lemma findall_md_none old s skip :
  33%N ∉ s → Re.findall_from false md_open old md_close s skip = [].
Proof.
  revert skip. induction s as [|c s IH]; intros skip Hs.
  - by destruct skip.
  - apply not_elem_of_cons in Hs as [Hc Hs].
    destruct skip; cbn [Re.findall_from]; [|by apply IH].
    assert (Re.match_at false md_open old md_close (c :: s) = None) as ->; [|by apply IH].
    unfold Re.match_at, md_open. cbn [Re.matches]. change (py "![") with (33%N :: py "[").
    cbn [Re.lit]. unfold Re.char_eq. by rewrite bool_decide_eq_false_2.
Qed.

(** A pass whose pattern matches nowhere leaves content and count, and
    does not look at the template. *)
Lemma pattern_pass_none ignorecase g1 g2 old new acc :
  Re.findall ignorecase g1 old g2 acc.1 = [] →
  pattern_pass ignorecase g1 g2 old new acc = inr acc.
Proof. destruct acc as [c n]. unfold pattern_pass. cbn [fst]. by intros ->. Qed.

(** The characters of a replaced string come from the string or from the
    replacement. *)
Lemma replace_from_chars c old new s skip :
  c ∈ PyStr.replace_from old new s skip → c ∈ s ∨ c ∈ new.
Proof.
  revert skip. induction s as [|a s IH]; intros skip; cbn [PyStr.replace_from].
  - destruct skip; [|by intros ?%elem_of_nil].
    destruct (PyStr.startswith old []); [|by intros ?%elem_of_nil].
    rewrite app_nil_r. by right.
  - destruct skip as [|k].
    + destruct (PyStr.startswith old (a :: s)).
      * intros [?|Hin]%elem_of_app; [by right|]. destruct old.
        -- apply elem_of_cons in Hin as [->|Hin]; [left; by left|].
           destruct (IH _ Hin); [left; by right|by right].
        -- destruct (IH _ Hin); [left; by right|by right].
      * intros [->|Hin]%elem_of_cons; [left; by left|].
        destruct (IH _ Hin); [left; by right|by right].
    + intros Hin. destruct (IH _ Hin); [left; by right|by right].
Qed.

Lemma markdown_loop_plain (Hfold : ∀ c, casefold c = casefold 60%N → c = 60%N)
  url_mapping content n :
  (33%N ∉ content) ∧ (60%N ∉ content) →
  Forall (fun e => (33%N ∉ e.2) ∧ (60%N ∉ e.2)) url_mapping →
  markdown_loop url_mapping (content, n)
  = inr (fold_left (fun acc e => bare_pass e.1 e.2 acc) url_mapping (content, n))
  ∧ (fold_left (fun acc e => bare_pass e.1 e.2 acc) url_mapping (content, n)).1
    = rewritten content url_mapping.
Proof.
  intros Hc Hm. revert content n Hc.
  induction Hm as [|[old new] M [Hn1 Hn2] _ IH]; intros content n [Hc1 Hc2]; [done|].
  cbn [markdown_loop fold_left rewritten fst snd]. unfold markdown_step.
  rewrite pattern_pass_none by (by apply findall_md_none).
  rewrite pattern_pass_none.
  2:{ apply findall_img_none. apply Forall_forall. intros c Hin. unfold Re.char_eq.
      apply bool_decide_eq_false. intros Heq. symmetry in Heq. apply Hfold in Heq as ->.
      done. }
  assert (Hb : (bare_pass old new (content, n)).1 = text_rewrite content (old, new)).
  { unfold bare_pass, text_rewrite. cbn. by destruct (PyStr.contains old content). }
  destruct (bare_pass old new (content, n)) as [content' n'] eqn:Hbp. cbn [fst] in Hb.
  subst content'. apply IH. unfold text_rewrite. cbn [fst snd].
  destruct (PyStr.contains old content); [|done]. unfold PyStr.replace.
  split; intros [?|?]%replace_from_chars; done.
Qed.

End PlainMarkdownFacts.

(** X23.  On a content without the characters "!" and "<", with replacement
    URLs without them, the Markdown strategy finds no image syntax: it
    arrives at the same text as the text strategy, by the plain
    substitution alone, whatever the templates, and counts for every
    entry the occurrences in the working content (not in the original, as
    the text strategy does).  The hypothesis on the case folding, that
    only "<" folds like "<", is what the pattern for embedded images
    needs. *)
Theorem markdown_without_image_syntax `{Unicode} `{ReTemplate}
  (Hfold : ∀ c, casefold c = casefold 60%N → c = 60%N)
  (content : list N) (url_mapping : list (list N * list N))
  (Hcontent : (33%N ∉ content) ∧ (60%N ∉ content))
  (Hvalues : Forall (fun e => (33%N ∉ e.2) ∧ (60%N ∉ e.2)) url_mapping) :
  _replace_urls_in_markdown content url_mapping
  = inr (fold_left (fun acc e => bare_pass e.1 e.2 acc) url_mapping (content, 0))
  ∧ (fold_left (fun acc e => bare_pass e.1 e.2 acc) url_mapping (content, 0)).1
    = (_replace_urls_in_text content url_mapping).1.
Proof.
  unfold _replace_urls_in_markdown, _replace_urls_in_text.
  rewrite TextFacts.text_fold. cbn [fst]. by apply markdown_loop_plain.
Qed.

Lemma markdown_without_image_syntax_witness :
  @_replace_urls_in_markdown Fixture.unicode Fixture.templates
    (py "see http://a/1.jpg") Example.mapping
  = inr (fold_left (fun acc e => bare_pass e.1 e.2 acc) Example.mapping
           (py "see http://a/1.jpg", 0))
  ∧ (fold_left (fun acc e => bare_pass e.1 e.2 acc) Example.mapping
       (py "see http://a/1.jpg", 0)).1
    = (_replace_urls_in_text (py "see http://a/1.jpg") Example.mapping).1.
Proof.
  apply (@markdown_without_image_syntax Fixture.unicode Fixture.templates).
  - intros c. cbn. unfold Fixture.lower_char.
    destruct ((65 <=? c) && (c <=? 90))%N eqn:Hc; [|done].
    apply andb_true_iff in Hc as [?%N.leb_le ?%N.leb_le]. vm_compute (Fixture.lower_char _).
    lia.
  - split; by apply (bool_decide_eq_false_1 (_ ∈ _)).
  - repeat constructor; by apply (bool_decide_eq_false_1 (_ ∈ _)).
Defined.
